(** * polyinfo: the resumable fetch pipeline and the level-1 loaders

    A shallow embedding of [src/get_polymer_smiles.py], [load_poly.py] and
    [src/load_poly.py].

    Python [str] values are lists of Unicode code points and [bytes] values
    lists of octets, both carried as [list N].  The output directory is a
    finite map from file names to file contents.  What the program cannot
    decide by itself (what the operator types, what the browser is seen to
    send, what the server answers, whether a disk operation fails, the clock)
    is handed to each loop iteration as a [turn]. *)

From Stdlib Require Import NArith ZArith Ascii String.
From Stdlib Require Import Decimal DecimalFacts DecimalPos DecimalN Lia.
From stdpp Require Import base option list gmap.

Local Open Scope N_scope.

(** ** Text *)

Abbreviation str := (list N).
Abbreviation bytes := (list N).

(** ASCII literals of the source, as code points. *)
Definition lit (s : string) : str :=
  (fun a => N_of_ascii a) <$> list_ascii_of_string s.
#[global] Arguments lit : simpl never.

Module Py.

(** [Py_UNICODE_ISSPACE]: the code points [str.strip()] removes. *)
Definition isspace (c : N) : bool :=
  ((9 <=? c) && (c <=? 13)) || ((28 <=? c) && (c <=? 32))
  || (c =? 133) || (c =? 160) || (c =? 5760)
  || ((8192 <=? c) && (c <=? 8202))
  || (c =? 8232) || (c =? 8233) || (c =? 8239) || (c =? 8287) || (c =? 12288).

Fixpoint lstrip (s : str) : str :=
  match s with
  | c :: s' => if isspace c then lstrip s' else s
  | [] => []
  end.

Definition rstrip (s : str) : str := reverse (lstrip (reverse s)).

Definition strip (s : str) : str := rstrip (lstrip s).

(** [str.lower()] on the letters A-Z.  No other code point lowers to a
    letter of [json], [q], [s] or [r], the only texts the program compares
    a lowered string with, so those comparisons see Python's result. *)
Definition lower_char (c : N) : N :=
  if (65 <=? c) && (c <=? 90) then c + 32 else c.

Definition lower (s : str) : str := lower_char <$> s.

Fixpoint startswith (p s : str) : bool :=
  match p, s with
  | [], _ => true
  | a :: p', b :: s' => (a =? b) && startswith p' s'
  | _ :: _, [] => false
  end.

(** [needle in hay] *)
Fixpoint contains (needle hay : str) : bool :=
  startswith needle hay ||
  match hay with
  | [] => false
  | _ :: hay' => contains needle hay'
  end.

(** Truth value of a string. *)
Definition nonempty (s : str) : bool :=
  match s with [] => false | _ :: _ => true end.

Fixpoint uint_chars (d : Decimal.uint) : str :=
  match d with
  | Nil => []
  | D0 d => 48 :: uint_chars d
  | D1 d => 49 :: uint_chars d
  | D2 d => 50 :: uint_chars d
  | D3 d => 51 :: uint_chars d
  | D4 d => 52 :: uint_chars d
  | D5 d => 53 :: uint_chars d
  | D6 d => 54 :: uint_chars d
  | D7 d => 55 :: uint_chars d
  | D8 d => 56 :: uint_chars d
  | D9 d => 57 :: uint_chars d
  end.

(** [str(n)] / [f"{n}"] for a non-negative integer. *)
Definition str_of_N (n : N) : str := uint_chars (N.to_uint n).

(** [repr] of an [int]. *)
Definition str_of_Z (z : Z) : str :=
  match z with
  | Z0 => [48]
  | Zpos p => str_of_N (Npos p)
  | Zneg p => 45 :: str_of_N (Npos p)
  end.

End Py.

(** ** [safe_filename], [looks_blocked] *)

(** The class [A-Za-z0-9_.-] whose complement [SAFE_NAME_RE] matches. *)
Definition safe_char (c : N) : bool :=
  ((65 <=? c) && (c <=? 90)) || ((97 <=? c) && (c <=? 122))
  || ((48 <=? c) && (c <=? 57)) || (c =? 95) || (c =? 46) || (c =? 45).

(** [SAFE_NAME_RE.sub("_", s)]: every maximal run of characters outside the
    class becomes one underscore.  [in_run] tells that the previous character
    already belonged to the run being replaced. *)
Fixpoint sub_unsafe (in_run : bool) (s : str) : str :=
  match s with
  | [] => []
  | c :: s' =>
      if safe_char c then c :: sub_unsafe false s'
      else if in_run then sub_unsafe true s'
      else 95 :: sub_unsafe true s'
  end.

Definition safe_filename (stem : str) : str :=
  let stem := Py.strip stem in
  let stem := sub_unsafe false stem in
  if Py.nonempty stem then take 200 stem else lit "unknown".

(** [content_type] is [None] when the caller has no header value at all; the
    source guards that case with [content_type or ""]. *)
Definition looks_blocked (status : Z) (content_type : option str) : bool :=
  if negb (status =? 200)%Z then true
  else if negb (Py.contains (lit "json") (Py.lower (default [] content_type))) then true
  else false.

(** ** Exceptions

    The exceptions that can reach the handler of the fetch loop.  Those of the
    environment carry the text the environment gave them; those raised by the
    decoding steps are named after their Python class. *)
Inductive exn :=
| PlaywrightError (msg : str)            (* the request API of the browser failed *)
| OSError (msg : str)                    (* a file operation failed *)
| ValueError                             (* base64 text with a non-ASCII character;
                                            an integer of more than 4300 digits *)
| BinasciiError                          (* binascii.Error: malformed base64 *)
| UnicodeDecodeError                     (* bytes that are not UTF-8 *)
| UnicodeEncodeError                     (* text that UTF-8 cannot carry *)
| JSONDecodeError                        (* text that is not JSON *)
| RecursionError                         (* nesting deeper than the decoder allows *)
| KeyError (key : str)                   (* d[key] on a dict without key *)
| AttributeError (type_name attr : str)  (* x.attr on a value without it *)
| TypeError (type_name : str).           (* an operation the type does not support *)

(** A computation that returns or raises. *)
Inductive result (A : Type) : Type :=
| Ok (a : A)
| Raise (e : exn).
Arguments Ok {A} a.
Arguments Raise {A} e.

#[global] Instance result_ret : MRet result := fun A a => Ok a.
#[global] Instance result_bind : MBind result := fun A B k r =>
  match r with
  | Ok a => k a
  | Raise e => Raise e
  end.
#[global] Instance result_fmap : FMap result := fun A B f r =>
  match r with
  | Ok a => Ok (f a)
  | Raise e => Raise e
  end.

(** Put one more element in front of a list that is still being produced. *)
Definition emit {A} (a : A) (r : result (list A)) : result (list A) :=
  cons a <$> r.

(** ** base64

    [binascii.a2b_base64] in its default, lenient mode, which is what
    [base64.b64decode(s)] runs after turning a [str] into ASCII bytes, and
    the encoder [base64.b64encode]. *)
Module Base64.

Definition table_b2a (v : N) : N :=
  if v <? 26 then 65 + v
  else if v <? 52 then 97 + (v - 26)
  else if v <? 62 then 48 + (v - 52)
  else if v =? 62 then 43
  else 47.

Definition table_a2b (c : N) : option N :=
  if (65 <=? c) && (c <=? 90) then Some (c - 65)
  else if (97 <=? c) && (c <=? 122) then Some (c - 97 + 26)
  else if (48 <=? c) && (c <=? 57) then Some (c - 48 + 52)
  else if c =? 43 then Some 62
  else if c =? 47 then Some 63
  else None.

Definition BASE64_PAD : N := 61.

(** The store into an [unsigned char]. *)
Definition u8 (n : N) : N := N.land n 255.

(** The loop of [a2b_base64] from position [i] on, with the locals
    [quad_pos], [leftchar] and [pads]; the bytes written from here on are
    returned.  Reaching the end of the data inside a quad is an error. *)
Fixpoint a2b_loop (quad_pos leftchar pads : N) (data : bytes) : result bytes :=
  match data with
  | [] => if quad_pos =? 0 then Ok [] else Raise BinasciiError
  | this_ch :: rest =>
      if this_ch =? BASE64_PAD then
        if (2 <=? quad_pos) && (4 <=? quad_pos + (pads + 1)) then Ok []
        else a2b_loop quad_pos leftchar
               (if 2 <=? quad_pos then pads + 1 else pads) rest
      else
        match table_a2b this_ch with
        | None => a2b_loop quad_pos leftchar pads rest
        | Some v =>
            if quad_pos =? 0 then a2b_loop 1 v 0 rest
            else if quad_pos =? 1 then
              emit (u8 (N.lor (N.shiftl leftchar 2) (N.shiftr v 4)))
                   (a2b_loop 2 (N.land v 15) 0 rest)
            else if quad_pos =? 2 then
              emit (u8 (N.lor (N.shiftl leftchar 4) (N.shiftr v 2)))
                   (a2b_loop 3 (N.land v 3) 0 rest)
            else
              emit (u8 (N.lor (N.shiftl leftchar 6) v))
                   (a2b_loop 0 0 0 rest)
        end
  end.

Definition a2b_base64 (data : bytes) : result bytes := a2b_loop 0 0 0 data.

(** [_bytes_from_decode_data] on a [str], then [a2b_base64]. *)
Definition b64decode (s : str) : result bytes :=
  if forallb (fun c => c <? 128) s then a2b_base64 s else Raise ValueError.

Fixpoint b64encode (data : bytes) : str :=
  match data with
  | [] => []
  | [a] =>
      [table_b2a (N.shiftr a 2); table_b2a (N.shiftl (N.land a 3) 4);
       BASE64_PAD; BASE64_PAD]
  | [a; b] =>
      [table_b2a (N.shiftr a 2);
       table_b2a (N.lor (N.shiftl (N.land a 3) 4) (N.shiftr b 4));
       table_b2a (N.shiftl (N.land b 15) 2); BASE64_PAD]
  | a :: b :: c :: rest =>
      table_b2a (N.shiftr a 2)
      :: table_b2a (N.lor (N.shiftl (N.land a 3) 4) (N.shiftr b 4))
      :: table_b2a (N.lor (N.shiftl (N.land b 15) 2) (N.shiftr c 6))
      :: table_b2a (N.land c 63)
      :: b64encode rest
  end.

End Base64.

(** ** UTF-8

    [bytes.decode("utf-8")] and [str.encode("utf-8")], both strict. *)
Module Utf8.

Definition cont (b : N) : bool := (128 <=? b) && (b <=? 191).

Definition low6 (b : N) : N := N.land b 63.

Fixpoint decode (bs : bytes) : result str :=
  match bs with
  | [] => Ok []
  | b0 :: r0 =>
      if b0 <? 128 then emit b0 (decode r0)
      else if (194 <=? b0) && (b0 <=? 223) then
        match r0 with
        | b1 :: r1 =>
            if cont b1
            then emit (N.lor (N.shiftl (N.land b0 31) 6) (low6 b1)) (decode r1)
            else Raise UnicodeDecodeError
        | _ => Raise UnicodeDecodeError
        end
      else if (224 <=? b0) && (b0 <=? 239) then
        match r0 with
        | b1 :: b2 :: r2 =>
            if cont b1 && cont b2
               && (negb (b0 =? 224) || (160 <=? b1))
               && (negb (b0 =? 237) || (b1 <=? 159))
            then emit (N.lor (N.shiftl (N.land b0 15) 12)
                         (N.lor (N.shiftl (low6 b1) 6) (low6 b2)))
                      (decode r2)
            else Raise UnicodeDecodeError
        | _ => Raise UnicodeDecodeError
        end
      else if (240 <=? b0) && (b0 <=? 244) then
        match r0 with
        | b1 :: b2 :: b3 :: r3 =>
            if cont b1 && cont b2 && cont b3
               && (negb (b0 =? 240) || (144 <=? b1))
               && (negb (b0 =? 244) || (b1 <=? 143))
            then emit (N.lor (N.shiftl (N.land b0 7) 18)
                         (N.lor (N.shiftl (low6 b1) 12)
                            (N.lor (N.shiftl (low6 b2) 6) (low6 b3))))
                      (decode r3)
            else Raise UnicodeDecodeError
        | _ => Raise UnicodeDecodeError
        end
      else Raise UnicodeDecodeError
  end.

(** A code point [str.encode] accepts: not a surrogate, inside Unicode. *)
Definition scalar (c : N) : bool :=
  ((c <? 55296) || (57343 <? c)) && (c <=? 1114111).

Definition encode_char (c : N) : bytes :=
  if c <? 128 then [c]
  else if c <? 2048 then [N.lor 192 (N.shiftr c 6); N.lor 128 (low6 c)]
  else if c <? 65536 then
    [N.lor 224 (N.shiftr c 12); N.lor 128 (low6 (N.shiftr c 6)); N.lor 128 (low6 c)]
  else
    [N.lor 240 (N.shiftr c 18); N.lor 128 (low6 (N.shiftr c 12));
     N.lor 128 (low6 (N.shiftr c 6)); N.lor 128 (low6 c)].

(** [None] stands for [UnicodeEncodeError]. *)
Definition encode (s : str) : option bytes :=
  if forallb scalar s then Some (concat (encode_char <$> s)) else None.

End Utf8.

(** ** JSON values

    The values [json.loads] builds and [json.dumps] prints.  A dict keeps its
    keys in insertion order.  A float is kept as the literal that denoted it:
    rounding to binary64 is not modelled. *)
Inductive pyfloat :=
| FNaN
| FInf (negative : bool)
| FLit (literal : str).

#[warnings="-register-all"]
Inductive json :=
| JNull
| JBool (b : bool)
| JInt (z : Z)
| JFloat (f : pyfloat)
| JStr (s : str)
| JList (items : list json)
| JDict (pairs : list (str * json)).

Module Json.

(** *** Python operations on decoded values *)

Definition type_name (v : json) : str :=
  match v with
  | JNull => lit "NoneType"
  | JBool _ => lit "bool"
  | JInt _ => lit "int"
  | JFloat _ => lit "float"
  | JStr _ => lit "str"
  | JList _ => lit "list"
  | JDict _ => lit "dict"
  end.

Fixpoint lookup (k : str) (pairs : list (str * json)) : option json :=
  match pairs with
  | [] => None
  | (k', v) :: pairs' => if decide (k = k') then Some v else lookup k pairs'
  end.

(** [d[k] = v]: an existing key keeps its place. *)
Fixpoint dict_set (k : str) (v : json) (pairs : list (str * json))
  : list (str * json) :=
  match pairs with
  | [] => [(k, v)]
  | (k', v') :: pairs' =>
      if decide (k = k') then (k', v) :: pairs'
      else (k', v') :: dict_set k v pairs'
  end.

(** [dict(pairs)] *)
Definition dict_of (pairs : list (str * json)) : list (str * json) :=
  foldl (fun d kv => dict_set kv.1 kv.2 d) [] pairs.

(** [x.get(k, dflt)] *)
Definition get (x : json) (k : str) (dflt : json) : result json :=
  match x with
  | JDict pairs => Ok (default dflt (lookup k pairs))
  | _ => Raise (AttributeError (type_name x) (lit "get"))
  end.

(** [x[k]] for a string [k] *)
Definition getitem (x : json) (k : str) : result json :=
  match x with
  | JDict pairs =>
      match lookup k pairs with
      | Some v => Ok v
      | None => Raise (KeyError k)
      end
  | _ => Raise (TypeError (type_name x))
  end.

Definition is_digit (c : N) : bool := (48 <=? c) && (c <=? 57).

(** A float literal denotes zero when its mantissa has no other digit
    than 0 (underflow of a tiny literal is not modelled). *)
Fixpoint mantissa_zero (s : str) : bool :=
  match s with
  | [] => true
  | c :: s' =>
      if (c =? 101) || (c =? 69) then true
      else if is_digit c && negb (c =? 48) then false
      else mantissa_zero s'
  end.

(** [bool(x)] *)
Definition truthy (x : json) : bool :=
  match x with
  | JNull => false
  | JBool b => b
  | JInt z => negb (z =? 0)%Z
  | JFloat (FLit s) => negb (mantissa_zero s)
  | JFloat _ => true
  | JStr s => Py.nonempty s
  | JList l => match l with [] => false | _ => true end
  | JDict d => match d with [] => false | _ => true end
  end.

(** *** [json.dumps(obj, ensure_ascii=False, indent=...)] *)

Definition hex_digit (n : N) : N := if n <? 10 then 48 + n else 87 + n.

(** [ESCAPE_DCT]: the quote, the backslash and the control characters. *)
Definition escape_char (c : N) : str :=
  if c =? 34 then [92; 34]
  else if c =? 92 then [92; 92]
  else if c =? 10 then [92; 110]
  else if c =? 13 then [92; 114]
  else if c =? 9 then [92; 116]
  else if c =? 8 then [92; 98]
  else if c =? 12 then [92; 102]
  else if c <? 32 then [92; 117; 48; 48; hex_digit (c / 16); hex_digit (c mod 16)]
  else [c].

Definition encode_basestring (s : str) : str :=
  34 :: concat (escape_char <$> s) ++ [34].

Definition floatstr (f : pyfloat) : str :=
  match f with
  | FNaN => lit "NaN"
  | FInf false => lit "Infinity"
  | FInf true => lit "-Infinity"
  | FLit s => s
  end.

(** ['\n' + _indent * level], empty when no indent was asked for. *)
Definition newline_indent (indent : option nat) (level : nat) : str :=
  match indent with
  | None => []
  | Some n => 10 :: replicate (n * level) 32
  end.

(** [','] with an indent, [', '] without. *)
Definition item_separator (indent : option nat) (level : nat) : str :=
  match indent with
  | None => [44; 32]
  | Some _ => 44 :: newline_indent indent level
  end.

Definition key_separator : str := [58; 32].

Fixpoint iterencode (indent : option nat) (level : nat) (o : json) : str :=
  match o with
  | JNull => lit "null"
  | JBool true => lit "true"
  | JBool false => lit "false"
  | JInt z => Py.str_of_Z z
  | JFloat f => floatstr f
  | JStr s => encode_basestring s
  | JList [] => lit "[]"
  | JList (x :: xs) =>
      [91] ++ newline_indent indent (S level)
      ++ iterencode indent (S level) x
      ++ (fix rest (l : list json) : str :=
            match l with
            | [] => []
            | y :: l' =>
                item_separator indent (S level)
                ++ iterencode indent (S level) y ++ rest l'
            end) xs
      ++ newline_indent indent level ++ [93]
  | JDict [] => lit "{}"
  | JDict ((k, x) :: kxs) =>
      [123] ++ newline_indent indent (S level)
      ++ encode_basestring k ++ key_separator
      ++ iterencode indent (S level) x
      ++ (fix rest (l : list (str * json)) : str :=
            match l with
            | [] => []
            | (k', y) :: l' =>
                item_separator indent (S level)
                ++ encode_basestring k' ++ key_separator
                ++ iterencode indent (S level) y ++ rest l'
            end) kxs
      ++ newline_indent indent level ++ [125]
  end.

Definition dumps (indent : option nat) (obj : json) : str :=
  iterencode indent 0 obj.

(** *** [json.loads]: the scanner of [_json.c] *)

Definition is_ws (c : N) : bool :=
  (c =? 32) || (c =? 9) || (c =? 10) || (c =? 13).

Fixpoint skip_ws (s : str) : str :=
  match s with
  | c :: s' => if is_ws c then skip_ws s' else s
  | [] => []
  end.

Definition hex_value (c : N) : option N :=
  if is_digit c then Some (c - 48)
  else if (97 <=? c) && (c <=? 102) then Some (c - 87)
  else if (65 <=? c) && (c <=? 70) then Some (c - 55)
  else None.

(** Four hex digits, most significant first. *)
Definition hex4 (a b c d : N) : option N :=
  x ← hex_value a; y ← hex_value b; z ← hex_value c; w ← hex_value d;
  Some (N.lor (N.shiftl (N.lor (N.shiftl (N.lor (N.shiftl x 4) y) 4) z) 4) w).

Definition high_surrogate (c : N) : bool := (55296 <=? c) && (c <=? 56319).
Definition low_surrogate (c : N) : bool := (56320 <=? c) && (c <=? 57343).
Definition join_surrogates (hi lo : N) : N :=
  65536 + N.lor (N.shiftl (N.land hi 1023) 10) (N.land lo 1023).

(** The character a backslash escape other than [\u] stands for. *)
Definition unescape (e : N) : option N :=
  if (e =? 34) || (e =? 92) || (e =? 47) then Some e
  else if e =? 98 then Some 8
  else if e =? 102 then Some 12
  else if e =? 110 then Some 10
  else if e =? 114 then Some 13
  else if e =? 116 then Some 9
  else None.

Definition prepend (c : N) (r : result (str * str)) : result (str * str) :=
  '(t, rest) ← r; mret (c :: t, rest).

(** [scanstring] (strict) from the character after the opening quote:
    the decoded text and what follows the closing quote. *)
Fixpoint scanstring (s : str) : result (str * str) :=
  match s with
  | [] => Raise JSONDecodeError
  | c :: s1 =>
      if c =? 34 then Ok ([], s1)
      else if c =? 92 then
        match s1 with
        | [] => Raise JSONDecodeError
        | e :: s2 =>
            if e =? 117 then
              match s2 with
              | h1 :: h2 :: h3 :: h4 :: s3 =>
                  match hex4 h1 h2 h3 h4 with
                  | None => Raise JSONDecodeError
                  | Some u =>
                      match s3 with
                      | b :: u' :: g1 :: g2 :: g3 :: g4 :: s4 =>
                          if high_surrogate u && Py.nonempty s4
                             && (b =? 92) && (u' =? 117)
                          then
                            match hex4 g1 g2 g3 g4 with
                            | None => Raise JSONDecodeError
                            | Some u2 =>
                                if low_surrogate u2
                                then prepend (join_surrogates u u2) (scanstring s4)
                                else prepend u (scanstring s3)
                            end
                          else prepend u (scanstring s3)
                      | _ => prepend u (scanstring s3)
                      end
                  end
              | _ => Raise JSONDecodeError
              end
            else
              match unescape e with
              | Some c' => prepend c' (scanstring s2)
              | None => Raise JSONDecodeError
              end
        end
      else if c <? 32 then Raise JSONDecodeError
      else prepend c (scanstring s1)
  end.

Fixpoint span_digits (s : str) : str * str :=
  match s with
  | c :: s' =>
      if is_digit c then let '(d, r) := span_digits s' in (c :: d, r)
      else ([], s)
  | [] => ([], [])
  end.

Fixpoint uint_of_chars (s : str) : Decimal.uint :=
  match s with
  | [] => Nil
  | c :: s' =>
      let d := uint_of_chars s' in
      if c =? 48 then D0 d else if c =? 49 then D1 d
      else if c =? 50 then D2 d else if c =? 51 then D3 d
      else if c =? 52 then D4 d else if c =? 53 then D5 d
      else if c =? 54 then D6 d else if c =? 55 then D7 d
      else if c =? 56 then D8 d else D9 d
  end.

(** [int(text)] for an optional minus sign and decimal digits. *)
Definition int_of (negative : bool) (digits : str) : Z :=
  let n := Z.of_N (N.of_uint (uint_of_chars digits)) in
  if negative then (- n)%Z else n.

(** [_match_number_unicode]: the longest number at the head of [s], read
    in the four steps of the C function: sign, integer part, fraction,
    exponent. *)
Definition sign_part (s : str) : bool * str :=
  match s with
  | c :: s' => if c =? 45 then (true, s') else (false, s)
  | [] => (false, s)
  end.

Definition int_part (d : N) (s2 : str) : str * str :=
  if d =? 48 then ([d], s2)
  else let '(ds, r) := span_digits s2 in (d :: ds, r).

Definition frac_part (r1 : str) : str * str :=
  match r1 with
  | p :: dg :: r' =>
      if (p =? 46) && is_digit dg
      then let '(ds, r) := span_digits r' in (p :: dg :: ds, r)
      else ([], r1)
  | _ => ([], r1)
  end.

Definition exp_part (r2 : str) : str * str :=
  match r2 with
  | e :: (_ :: _) as r' =>
      if (e =? 101) || (e =? 69) then
        let '(sg, rd) :=
          match r' with
          | c :: rs =>
              if (c =? 45) || (c =? 43) then ([c], rs) else ([], r')
          | [] => ([], r')
          end in
        let '(ds, r) := span_digits rd in
        match ds with
        | [] => ([], r2)
        | _ => (e :: sg ++ ds, r)
        end
      else ([], r2)
  | _ => ([], r2)
  end.

Definition match_number (s : str) : option (json * str) :=
  let '(neg, s1) := sign_part s in
  match s1 with
  | [] => None
  | d :: s2 =>
      if is_digit d then
        let '(ip, r1) := int_part d s2 in
        let '(fp, r2) := frac_part r1 in
        let '(ep, r3) := exp_part r2 in
        if Py.nonempty fp || Py.nonempty ep
        then Some (JFloat (FLit ((if neg then [45] else []) ++ ip ++ fp ++ ep)), r3)
        else Some (JInt (int_of neg ip), r3)
      else None
  end.

(** [int(text)] refuses a text of more than 4300 digits
    ([sys.int_info.default_max_str_digits]), the sign not counted. *)
Definition int_allowed (z : Z) : bool :=
  (length (Py.str_of_Z (Z.abs z)) <=? 4300)%nat.

(** A named constant at the head of [s]. *)
Definition constant (word : str) (value : json) (s : str) : option (json * str) :=
  if Py.startswith word s then Some (value, drop (length word) s) else None.

Definition scan_plain (s : str) : result (json * str) :=
  match
    match s with
    | [] => None
    | c :: _ =>
        if c =? 110 then constant (lit "null") JNull s
        else if c =? 116 then constant (lit "true") (JBool true) s
        else if c =? 102 then constant (lit "false") (JBool false) s
        else if c =? 78 then constant (lit "NaN") (JFloat FNaN) s
        else if c =? 73 then constant (lit "Infinity") (JFloat (FInf false)) s
        else if c =? 45 then constant (lit "-Infinity") (JFloat (FInf true)) s
        else None
    end
  with
  | Some r => Ok r
  | None =>
      match match_number s with
      | Some (JInt z, r) => if int_allowed z then Ok (JInt z, r) else Raise ValueError
      | Some r => Ok r
      | None => Raise JSONDecodeError
      end
  end.

(** [scan_once] with the loops of [_parse_array] and [_parse_object].
    [fuel] bounds the depth of the calls; [loads] gives enough of it for
    the whole text. *)
Fixpoint scan_once (fuel : nat) (s : str) {struct fuel} : result (json * str) :=
  match fuel with
  | O => Raise RecursionError
  | S fuel =>
      match s with
      | [] => Raise JSONDecodeError
      | c :: s' =>
          if c =? 34 then '(t, r) ← scanstring s'; mret (JStr t, r)
          else if c =? 123 then
            match skip_ws s' with
            | c1 :: r1 =>
                if c1 =? 125 then Ok (JDict [], r1)
                else '(kvs, r) ← object_loop fuel (c1 :: r1);
                     mret (JDict (dict_of kvs), r)
            | [] => Raise JSONDecodeError
            end
          else if c =? 91 then
            match skip_ws s' with
            | c1 :: r1 =>
                if c1 =? 93 then Ok (JList [], r1)
                else '(vs, r) ← array_loop fuel (c1 :: r1);
                     mret (JList vs, r)
            | [] => Raise JSONDecodeError
            end
          else scan_plain s
      end
  end
with array_loop (fuel : nat) (s : str) {struct fuel} : result (list json * str) :=
  match fuel with
  | O => Raise RecursionError
  | S fuel =>
      '(v, r) ← scan_once fuel s;
      match skip_ws r with
      | c :: r' =>
          if c =? 93 then mret ([v], r')
          else if c =? 44 then
            '(vs, r'') ← array_loop fuel (skip_ws r'); mret (v :: vs, r'')
          else Raise JSONDecodeError
      | [] => Raise JSONDecodeError
      end
  end
with object_loop (fuel : nat) (s : str) {struct fuel}
  : result (list (str * json) * str) :=
  match fuel with
  | O => Raise RecursionError
  | S fuel =>
      match s with
      | q :: s1 =>
          if q =? 34 then
            '(k, r) ← scanstring s1;
            match skip_ws r with
            | c :: r1 =>
                if c =? 58 then
                  '(v, r2) ← scan_once fuel (skip_ws r1);
                  match skip_ws r2 with
                  | c2 :: r3 =>
                      if c2 =? 125 then mret ([(k, v)], r3)
                      else if c2 =? 44 then
                        '(kvs, r4) ← object_loop fuel (skip_ws r3);
                        mret ((k, v) :: kvs, r4)
                      else Raise JSONDecodeError
                  | [] => Raise JSONDecodeError
                  end
                else Raise JSONDecodeError
            | [] => Raise JSONDecodeError
            end
          else Raise JSONDecodeError
      | [] => Raise JSONDecodeError
      end
  end.

Definition loads (s : str) : result json :=
  if Py.startswith [65279] s then Raise JSONDecodeError
  else
    '(v, r) ← scan_once (2 * length s + 2)%nat (skip_ws s);
    match skip_ws r with
    | [] => mret v
    | _ :: _ => Raise JSONDecodeError
    end.

End Json.

(** ** [decode_b64_json] *)

Definition decode_b64_json (b64 : str) : result json :=
  raw_bytes ← Base64.b64decode b64;
  raw ← Utf8.decode raw_bytes;
  Json.loads raw.

(** ** The output directory

    [OUTDIR] as a map from the name of a file to its text.  Every name the
    program builds goes through [safe_filename], which leaves no path
    separator in it, so the directory is flat. *)
Abbreviation files := (gmap (list N) (list N)).

Definition API_URL : str := lit "https://polymer.nims.go.jp/PoLyInfo/api/6627766".
Definition INDEX_PATH : str := lit "index.jsonl".
Definition ERRORS_PATH : str := lit "errors.tsv".

(** [path.exists()] *)
Definition exists_ (fs : files) (path : str) : bool :=
  bool_decide (is_Some (fs !! path)).

(** How the environment lets a write end. *)
Inductive write_outcome :=
| Written                    (* all of the text reached the file *)
| NotOpened (e : exn)        (* [open] raised, the file is untouched *)
| Torn (e : exn) (n : nat).  (* raised after [n] characters had reached the file *)

(** The files of the program take UTF-8: the index and the error log by
    their [encoding="utf-8"], the files of [write_text] by the locale.  Text
    that UTF-8 cannot carry (a lone surrogate) raises [UnicodeEncodeError]
    when it is written: the file is open by then and nothing reaches it.
    [met o text] is how a write of [text] ends where the environment
    offers [o]. *)
Definition met (o : write_outcome) (text : str) : write_outcome :=
  match o with
  | NotOpened e => NotOpened e
  | _ =>
      match Utf8.encode text with
      | Some _ => o
      | None => Torn UnicodeEncodeError 0
      end
  end.

(** [path.write_text(text)] *)
Definition write_text (o : write_outcome) (path text : str) (fs : files)
  : files * result unit :=
  match met o text with
  | Written => (<[path := text]> fs, Ok tt)
  | NotOpened e => (fs, Raise e)
  | Torn e n => (<[path := take n text]> fs, Raise e)
  end.

(** [with path.open("a") as f: f.write(text)] *)
Definition append_text (o : write_outcome) (path text : str) (fs : files)
  : files * result unit :=
  let old := default [] (fs !! path) in
  match met o text with
  | Written => (<[path := old ++ text]> fs, Ok tt)
  | NotOpened e => (fs, Raise e)
  | Torn e n => (<[path := old ++ take n text]> fs, Raise e)
  end.

(** [src.replace(dst)]: [os.replace], one atomic step or nothing. *)
Definition replace (o : option exn) (src dst : str) (fs : files)
  : files * result unit :=
  match o with
  | Some e => (fs, Raise e)
  | None =>
      match fs !! src with
      | Some text => (<[dst := text]> (delete src fs), Ok tt)
      | None => (fs, Raise (OSError (lit "No such file or directory")))
      end
  end.

(** ** The state of [main] and what it does to the outside world *)

Inductive event :=
| AskedToken                               (* [ensure_captcha_id] asked and waited *)
| AskedCommand (pid_uuid : str)            (* the prompt of the stepper *)
| AskedRelearn                             (* the wait of the [r] command *)
| Posted (pid_uuid : str) (token : option str)   (* [page.request.post] *)
| WroteText (path text : str)              (* [write_text] was called *)
| Replaced (src dst : str)                 (* [replace] was called *)
| Appended (path text : str).              (* a file was opened for appending *)

Record state := State {
  idx : nat;
  captcha_id : option str;
  fs : files;
  trace : list event;
}.

Definition set_idx (n : nat) (s : state) : state :=
  State n (captcha_id s) (fs s) (trace s).
Definition set_captcha_id (c : option str) (s : state) : state :=
  State (idx s) c (fs s) (trace s).
Definition set_fs (f : files) (s : state) : state :=
  State (idx s) (captcha_id s) f (trace s).
Definition log (e : event) (s : state) : state :=
  State (idx s) (captcha_id s) (fs s) (trace s ++ [e]).

(** Code that reads and changes the state and may raise. *)
Definition M (A : Type) : Type := state -> state * result A.

#[global] Instance M_ret : MRet M := fun A a s => (s, Ok a).
#[global] Instance M_bind : MBind M := fun A B k m s =>
  match m s with
  | (s', Ok a) => k a s'
  | (s', Raise e) => (s', Raise e)
  end.

Definition lift {A} (r : result A) : M A := fun s => (s, r).
Definition gets {A} (f : state -> A) : M A := fun s => (s, Ok (f s)).
Definition modify (f : state -> state) : M unit := fun s => (f s, Ok tt).

(** A file operation: it is logged, then it acts on the directory. *)
Definition file_op (e : event) (op : files -> files * result unit) : M unit :=
  fun s =>
    let '(f, r) := op (fs s) in (set_fs f (log e s), r).

(** ** [atomic_write_json], [append_index]

    [path.with_suffix(path.suffix + ".tmp")] replaces the suffix of the name
    by itself followed by [.tmp]: the name with [.tmp] appended. *)
Definition tmp_of (path : str) : str := path ++ lit ".tmp".

Definition atomic_write_json (w : write_outcome) (r : option exn)
    (path : str) (obj : json) : M unit :=
  let tmp := tmp_of path in
  let text := Json.dumps (Some 2%nat) obj in
  _ ← file_op (WroteText tmp text) (write_text w tmp text);
  file_op (Replaced tmp path) (replace r tmp path).

(** [now] is [datetime.utcnow().isoformat(timespec="seconds")]. *)
Definition append_index (w : write_outcome) (now : str)
    (pid_uuid : str) (decoded : json) (filename : str) : M unit :=
  polymer_id ← lift (Json.get decoded (lit "polymer_id") JNull);
  polymer_uuid ← lift (Json.get decoded (lit "polymer_uuid") JNull);
  let rec :=
    JDict [(lit "ts", JStr (now ++ lit "Z"));
           (lit "pid_uuid", JStr pid_uuid);
           (lit "polymer_id", polymer_id);
           (lit "polymer_uuid", polymer_uuid);
           (lit "filename", JStr filename)] in
  let line := Json.dumps None rec ++ [10] in
  file_op (Appended INDEX_PATH line) (append_text w INDEX_PATH line).

(** ** The environment of one pass through the loop *)

(** A request the browser was seen to send ([req.headers] has lowercase keys). *)
Record request := Request {
  url : str;
  method : str;
  req_headers : gmap (list N) (list N);
}.

(** The answer to [page.request.post]; fetching the body may fail. *)
Record response := Response {
  status : Z;
  headers : gmap (list N) (list N);
  body : result bytes;
}.

(** [await resp.text()] *)
Definition resp_text (resp : response) : result str :=
  content ← body resp; Utf8.decode content.

(** [await resp.json()] *)
Definition resp_json (resp : response) : result json :=
  t ← resp_text resp; Json.loads t.

Record turn := Turn {
  seen_at_ensure : list request;   (* browser requests handled while [ensure_captcha_id] waits *)
  command : str;                   (* the line typed at the prompt *)
  seen_at_command : list request;  (* ... while the prompt waits *)
  seen_at_relearn : list request;  (* ... while the [r] command waits *)
  reply : result response;         (* what [page.request.post] returns or raises *)
  seen_at_post : list request;     (* ... while the request is awaited *)
  now : str;                       (* the clock, for the index entry *)
  out_write : write_outcome;       (* the faults of the five file operations of a save *)
  out_replace : option exn;
  index_append : write_outcome;
  ptr_write : write_outcome;
  ptr_replace : option exn;
  log_append : write_outcome;      (* the fault of the handler's append to the error log *)
}.

(** ** The token bridge *)

Definition on_request (captcha : option str) (req : request) : option str :=
  if bool_decide (url req = API_URL) && bool_decide (method req = lit "POST") then
    match req_headers req !! lit "captchaid" with
    | Some v => Some v
    | None => captcha
    end
  else captcha.

(** The handler runs once for every request seen during a wait. *)
Definition observe (reqs : list request) (s : state) : state :=
  set_captcha_id (foldl on_request (captcha_id s) reqs) s.

(** [bool(captcha_id)]: a token is held when it is there and not empty. *)
Definition held (captcha : option str) : bool :=
  match captcha with
  | Some (_ :: _) => true
  | _ => false
  end.

Definition ensure_captcha_id (t : turn) (s : state) : state * bool :=
  if held (captcha_id s) then (s, true)
  else
    let s := observe (seen_at_ensure t) (log AskedToken s) in
    (s, held (captcha_id s)).

(** ** The fetch loop of [main] *)

Definition pointer_path (pid_uuid : str) : str :=
  safe_filename pid_uuid ++ lit ".pointer.json".

(** Lines 172-180: the name of the output file, given the directory as it
    is when the record has been decoded. *)
Definition output_name (dir : files) (decoded : json) (pid_uuid : str) : result str :=
  polymer_id ← Json.get decoded (lit "polymer_id") JNull;
  let fname :=
    match polymer_id with
    | JStr s =>
        if Py.nonempty s then safe_filename s ++ lit ".json"
        else safe_filename pid_uuid ++ lit ".json"
    | _ => safe_filename pid_uuid ++ lit ".json"
    end in
  if exists_ dir fname then
    stem ← (if Json.truthy polymer_id then
              match polymer_id with
              | JStr s => Ok (safe_filename s)
              | _ => Raise (AttributeError (Json.type_name polymer_id) (lit "strip"))
              end
            else Ok (safe_filename (lit "unknown")));
    Ok (stem ++ lit "__" ++ safe_filename pid_uuid ++ lit ".json")
  else Ok fname.

(** [print(x)] on a terminal that takes UTF-8.  The text of a string is
    written as it is and has to be encodable; any other value goes through
    [repr], which escapes what cannot be encoded. *)
Definition print_value (x : json) : result unit :=
  match x with
  | JStr s =>
      match Utf8.encode s with
      | Some _ => Ok tt
      | None => Raise UnicodeEncodeError
      end
  | _ => Ok tt
  end.

(** The body of the [try]: lines 152-189.  Returning without having moved
    [idx] is the [continue] of the two refusals.  Of the [print]s of the
    body, the one of line 166 alone writes text that came from the server
    as it is; the others write constants, [repr]s and file names. *)
Definition fetch (pid_uuid pid_uuid_path : str) (t : turn) : M unit :=
  token ← gets captcha_id;
  _ ← modify (log (Posted pid_uuid token));
  _ ← modify (observe (seen_at_post t));
  resp ← lift (reply t);
  let ct := default [] (headers resp !! lit "content-type") in
  if looks_blocked (status resp) (Some ct) then
    _ ← lift (resp_text resp);
    mret tt
  else
    top ← lift (resp_json resp);
    flag ← lift (Json.get top (lit "result") (JBool false));
    if negb (Json.truthy flag) then
      message ← lift (Json.get top (lit "message") JNull);
      _ ← lift (print_value message);
      mret tt
    else
      payload ← lift (Json.getitem top (lit "json"));
      decoded ← lift (match payload with
                      | JStr b64 => decode_b64_json b64
                      | _ => Raise (TypeError (Json.type_name payload))
                      end);
      dir ← gets fs;
      out_name ← lift (output_name dir decoded pid_uuid);
      _ ← atomic_write_json (out_write t) (out_replace t) out_name decoded;
      _ ← append_index (index_append t) (now t) pid_uuid decoded out_name;
      _ ← atomic_write_json (ptr_write t) (ptr_replace t) pid_uuid_path
            (JDict [(lit "pid_uuid", JStr pid_uuid); (lit "filename", JStr out_name)]);
      modify (fun s => set_idx (S (idx s)) s).

(** How a pass through the loop ends: [continue] or the end of the body,
    [break], or an exception that nothing catches. *)
Inductive flow := Continue | Break | Throw (e : exn).

(** How a run over a finite list of turns ends. *)
Inductive outcome :=
| Finished      (* the loop condition became false *)
| Stopped       (* [break]: no token, or the operator quit *)
| Waiting       (* the operator has not typed the next line yet *)
| OutOfFuel
| Crashed (e : exn).   (* an exception left [main] *)

Section Driver.

(** [str(e)], the text Python's libraries give an exception. *)
Variable exn_text : exn -> str.

(** The line of [errors.tsv] for a failure. *)
Definition error_line (pid_uuid : str) (e : exn) : str :=
  pid_uuid ++ [9] ++ exn_text e ++ [10].

(** The [try] with its handler: lines 151-196.  The handler's own append
    is outside any [try]: what it raises leaves [attempt].  (Its two
    [print]s write the description the append has just encoded.) *)
Definition attempt (pid_uuid pid_uuid_path : str) (t : turn) : M unit :=
  fun s =>
    match fetch pid_uuid pid_uuid_path t s with
    | (s', Ok _) => (s', Ok tt)
    | (s', Raise e) =>
        let line := error_line pid_uuid e in
        file_op (Appended ERRORS_PATH line)
                (append_text (log_append t) ERRORS_PATH line) s'
    end.

(** Lines 131-196: the body of the loop for an identifier whose pointer
    file is not there. *)
Definition stepper (pid_uuid : str) (t : turn) (s : state) : state * flow :=
  let pid_uuid_path := pointer_path pid_uuid in
  let '(s, got) := ensure_captcha_id t s in
  if negb got then (s, Break)
  else
    let s := observe (seen_at_command t) (log (AskedCommand pid_uuid) s) in
    let cmd := Py.lower (Py.strip (command t)) in
    if bool_decide (cmd = lit "q") then (s, Break)
    else if bool_decide (cmd = lit "s") then (set_idx (S (idx s)) s, Continue)
    else if bool_decide (cmd = lit "r") then
      (observe (seen_at_relearn t) (log AskedRelearn (set_captcha_id None s)),
       Continue)
    else
      match attempt pid_uuid pid_uuid_path t s with
      | (s', Ok _) => (s', Continue)
      | (s', Raise e) => (s', Throw e)
      end.

(** Lines 122-196.  A pass that finds the pointer file takes no turn. *)
Fixpoint loop (fuel : nat) (pids : list str) (ts : list turn) (s : state)
  : state * outcome :=
  match fuel with
  | O => (s, OutOfFuel)
  | S fuel =>
      match pids !! idx s with
      | None => (s, Finished)
      | Some pid_uuid =>
          if exists_ (fs s) (pointer_path pid_uuid)
          then loop fuel pids ts (set_idx (S (idx s)) s)
          else
            match ts with
            | [] => (s, Waiting)
            | t :: ts' =>
                match stepper pid_uuid t s with
                | (s', Break) => (s', Stopped)
                | (s', Continue) => loop fuel pids ts' s'
                | (s', Throw e) => (s', Crashed e)
                end
            end
      end
  end.

(** Every pass takes a turn or moves [idx], so this is fuel enough. *)
Definition run (pids : list str) (ts : list turn) (s : state) : state * outcome :=
  loop (length ts + (length pids - idx s) + 1) pids ts s.

(** [main] from line 119 on, over the directory found at start.  [reset] is
    what becomes of the write that empties the error log; when it fails its
    exception leaves [main] before the loop is entered. *)
Definition main (reset : write_outcome) (pids : list str) (ts : list turn)
    (disk : files) : state * outcome :=
  let s0 := State 0 None disk [] in
  match file_op (WroteText ERRORS_PATH []) (write_text reset ERRORS_PATH []) s0 with
  | (s1, Ok _) => run pids ts s1
  | (s1, Raise e) => (s1, Crashed e)
  end.

End Driver.

(** ** The queue file: line 201 *)

(** The lines of a text file as iterating over it yields them (text mode,
    universal newlines): a line ends at [\n], [\r\n] or [\r], each read as
    [\n]; the last line may have no end.  [cur] is the line begun. *)
Fixpoint lines_from (cur : str) (s : str) : list str :=
  match s with
  | [] => if Py.nonempty cur then [cur] else []
  | c :: s' =>
      if c =? 10 then (cur ++ [10]) :: lines_from [] s'
      else if c =? 13 then
        match s' with
        | c' :: s'' =>
            if c' =? 10 then (cur ++ [10]) :: lines_from [] s''
            else (cur ++ [10]) :: lines_from [] s'
        | [] => [cur ++ [10]]
        end
      else lines_from (cur ++ [c]) s'
  end.

(** [[x.strip() for x in open(path, encoding="utf-8") if x.strip()]], from
    the text of the file. *)
Definition read_pids (text : str) : list str :=
  Py.strip <$> filter (fun x => Py.nonempty (Py.strip x) = true) (lines_from [] text).

(** ** The level-1 loaders

    [read path] is [open(path, 'r').read()]. *)
Module Loader.

(** The [for] loop over the file numbers with its accumulator [poly]. *)
Fixpoint for_each (body : N -> result json) (numbers : list N) (poly : list json)
  : result (list json) :=
  match numbers with
  | [] => Ok poly
  | i :: numbers' => x ← body i; for_each body numbers' (poly ++ [x])
  end.

(** [range(1, 65)] *)
Definition range_1_65 : list N := N.of_nat <$> seq 1 64.

(** [load_poly.py] *)
Definition load_poly (read : str -> result str) : result (list json) :=
  for_each
    (fun i =>
       content ← read (lit "./data/b64_" ++ Py.str_of_N i ++ lit ".txt");
       let b64 := Py.strip content in
       raw_bytes ← Base64.b64decode b64;
       raw ← Utf8.decode raw_bytes;
       v ← Json.loads raw;
       Json.getitem v (lit "polymer_data"))
    range_1_65 [].

(** [src/load_poly.py] *)
Definition load_poly_lvl1 (read : str -> result str) : result (list json) :=
  for_each
    (fun i =>
       content ← read (lit "../data/lvl1_b64/b64_" ++ Py.str_of_N i ++ lit ".txt");
       let b64 := Py.strip content in
       raw_bytes ← Base64.b64decode b64;
       raw ← Utf8.decode raw_bytes;
       v ← Json.loads raw;
       Json.getitem v (lit "polymer_data"))
    range_1_65 [].

End Loader.

(** ** Vocabulary of the statements *)


(** The content of the pointer file. *)
Definition pointer_record (pid_uuid out_name : str) : json :=
  JDict [(lit "pid_uuid", JStr pid_uuid); (lit "filename", JStr out_name)].

(** The part of a pass after the name of the output file is known:
    lines 182-189. *)
Definition save_steps (pid_uuid : str) (t : turn) (decoded : json) (out_name : str)
  : M unit :=
  _ ← atomic_write_json (out_write t) (out_replace t) out_name decoded;
  _ ← append_index (index_append t) (now t) pid_uuid decoded out_name;
  _ ← atomic_write_json (ptr_write t) (ptr_replace t) (pointer_path pid_uuid)
        (pointer_record pid_uuid out_name);
  modify (fun s => set_idx (S (idx s)) s).

(** The answer is healthy, the API flag is true, the payload decodes to
    [decoded] and the output file is to be called [out_name] in [dir]. *)
Definition decodes (t : turn) (dir : files) (pid_uuid : str)
    (decoded : json) (out_name : str) : Prop :=
  ∃ resp top flag b64,
    reply t = Ok resp
    ∧ looks_blocked (status resp)
        (Some (default [] (headers resp !! lit "content-type"))) = false
    ∧ resp_json resp = Ok top
    ∧ Json.get top (lit "result") (JBool false) = Ok flag
    ∧ Json.truthy flag = true
    ∧ Json.getitem top (lit "json") = Ok (JStr b64)
    ∧ decode_b64_json b64 = Ok decoded
    ∧ output_name dir decoded pid_uuid = Ok out_name.

(** No file operation of the pass fails. *)
Definition no_fault (t : turn) : Prop :=
  out_write t = Written ∧ out_replace t = None
  ∧ index_append t = Written
  ∧ ptr_write t = Written ∧ ptr_replace t = None.

(** The line a save appends to the index. *)
Definition index_line (now pid_uuid : str) (decoded : json) (out_name : str) : str :=
  Json.dumps None
    (JDict [(lit "ts", JStr (now ++ lit "Z"));
            (lit "pid_uuid", JStr pid_uuid);
            (lit "polymer_id",
              match Json.get decoded (lit "polymer_id") JNull with
              | Ok v => v
              | Raise _ => JNull
              end);
            (lit "polymer_uuid",
              match Json.get decoded (lit "polymer_uuid") JNull with
              | Ok v => v
              | Raise _ => JNull
              end);
            (lit "filename", JStr out_name)]) ++ [10].

(** A text that can be written to a file: UTF-8 can carry it. *)
Definition encodable (text : str) : Prop := is_Some (Utf8.encode text).

(** The three texts of a save can be written. *)
Definition storable (now pid_uuid : str) (decoded : json) (out_name : str) : Prop :=
  encodable (Json.dumps (Some 2%nat) decoded)
  ∧ encodable (index_line now pid_uuid decoded out_name)
  ∧ encodable (Json.dumps (Some 2%nat) (pointer_record pid_uuid out_name)).

(** A pass that saves: the record arrives, no file operation fails and no
    text is refused by the encoder. *)
Definition saves (t : turn) (dir : files) (pid_uuid : str)
    (decoded : json) (out_name : str) : Prop :=
  decodes t dir pid_uuid decoded out_name ∧ no_fault t
  ∧ storable (now t) pid_uuid decoded out_name.

(** The directory after [atomic_write_json] has gone through. *)
Definition written (path : str) (obj : json) (dir : files) : files :=
  <[path := Json.dumps (Some 2%nat) obj]>
    (delete (tmp_of path) (<[tmp_of path := Json.dumps (Some 2%nat) obj]> dir)).

(** The directory after a text has been appended to a file. *)
Definition appended (path line : str) (dir : files) : files :=
  <[path := default [] (dir !! path) ++ line]> dir.

(** The directory after a save. *)
Definition saved_files (dir : files) (pid_uuid : str) (decoded : json)
    (out_name line : str) : files :=
  written (pointer_path pid_uuid) (pointer_record pid_uuid out_name)
    (appended INDEX_PATH line (written out_name decoded dir)).

(** The events of a save, after the request. *)
Definition save_events (pid_uuid : str) (decoded : json) (out_name line : str)
  : list event :=
  [WroteText (tmp_of out_name) (Json.dumps (Some 2%nat) decoded);
   Replaced (tmp_of out_name) out_name;
   Appended INDEX_PATH line;
   WroteText (tmp_of (pointer_path pid_uuid))
     (Json.dumps (Some 2%nat) (pointer_record pid_uuid out_name));
   Replaced (tmp_of (pointer_path pid_uuid)) (pointer_path pid_uuid)].

(** The state in which the answer to the request is looked at. *)
Definition posted (pid_uuid : str) (t : turn) (s : state) : state :=
  observe (seen_at_post t) (log (Posted pid_uuid (captcha_id s)) s).

(** The events of the file operations of a pass. *)
Definition file_event (e : event) : Prop :=
  match e with
  | WroteText _ _ | Replaced _ _ => True
  | Appended path _ => path = INDEX_PATH
  | _ => False
  end.

(** The events a pass over [pid_uuid] can add. *)
Definition pass_event (pid_uuid : str) (e : event) : Prop :=
  match e with
  | Posted p _ => p = pid_uuid
  | _ => True
  end.

(** From [s] to [s']: events of kind [P] were added, and every file that
    is not a temporary one is still there. *)
Definition grows (P : event -> Prop) (s s' : state) : Prop :=
  (∃ evs, trace s' = trace s ++ evs ∧ Forall P evs)
  ∧ (∀ q, (∀ x, q ≠ tmp_of x) -> is_Some (fs s !! q) -> is_Some (fs s' !! q)).

(** Code that leaves the queue index alone. *)
Definition tame (P : event -> Prop) {A} (m : M A) : Prop :=
  ∀ s, grows P s (m s).1 ∧ idx (m s).1 = idx s.

(** Code that moves the queue index by one exactly when it returns. *)
Definition closing (P : event -> Prop) {A} (m : M A) : Prop :=
  ∀ s, grows P s (m s).1
       ∧ match (m s).2 with
         | Ok _ => idx (m s).1 = S (idx s)
         | Raise _ => idx (m s).1 = idx s
         end.

(** The events of the [try] body for an identifier. *)
Definition fetch_event (pid_uuid : str) (e : event) : Prop :=
  match e with
  | Posted p _ => p = pid_uuid
  | _ => file_event e
  end.


(** The token held when the prompt of the stepper appears. *)
Definition token_after_ensure (t : turn) (s : state) : option str :=
  captcha_id (ensure_captcha_id t s).1.

(** Position of the first event of a kind. *)
Fixpoint position (p : event -> bool) (evs : list event) : option nat :=
  match evs with
  | [] => None
  | e :: evs' => if p e then Some 0%nat else S <$> position p evs'
  end.

Definition is_rename_to (path : str) (e : event) : bool :=
  match e with
  | Replaced _ dst => bool_decide (dst = path)
  | _ => false
  end.

Definition is_index_append (e : event) : bool :=
  match e with
  | Appended path _ => bool_decide (path = INDEX_PATH)
  | _ => false
  end.

Definition is_post (e : event) : bool :=
  match e with
  | Posted _ _ => true
  | _ => false
  end.

(** [a] happens, and later [b] happens. *)
Definition precedes (a b : event -> bool) (evs : list event) : Prop :=
  ∃ i j, position a evs = Some i ∧ position b evs = Some j ∧ (i < j)%nat.

(** The content type names JSON, in any letter case. *)
Definition names_json (ct : str) : Prop :=
  ∃ pre j s o n post,
    ct = pre ++ [j; s; o; n] ++ post
    ∧ (j = 106 ∨ j = 74) ∧ (s = 115 ∨ s = 83)
    ∧ (o = 111 ∨ o = 79) ∧ (n = 110 ∨ n = 78).

(** What the ledger is claimed to guarantee for an identifier whose record
    is [decoded]: if its pointer is there, one file and only one holds the
    record, and the pointer names it. *)
Definition ledger_sound (dir : files) (pid_uuid : str) (decoded : json) : Prop :=
  is_Some (dir !! pointer_path pid_uuid) ->
  ∃ out_name,
    (∀ name, dir !! name = Some (Json.dumps (Some 2%nat) decoded) ↔ name = out_name)
    ∧ dir !! pointer_path pid_uuid
      = Some (Json.dumps (Some 2%nat) (pointer_record pid_uuid out_name)).

(** *** JSON-representable values and their serialization, piece by piece *)

Fixpoint has_key (k : str) (pairs : list (str * json)) : bool :=
  match pairs with
  | [] => false
  | (k', _) :: pairs' => bool_decide (k = k') || has_key k pairs'
  end.

(** A float that JSON can carry: a literal that the number scanner reads
    back as itself ([NaN] and the infinities are not JSON). *)
Definition float_ok (f : pyfloat) : bool :=
  match f with
  | FLit s =>
      match Json.match_number (s ++ [44]) with
      | Some (JFloat (FLit s'), r) => bool_decide (s' = s) && bool_decide (r = [44])
      | _ => false
      end
  | _ => false
  end.

(** A value as [json.loads] can build it: the keys of a dict differ from
    one another, every float is one JSON can carry, and no integer has more
    digits than [int(text)] reads (nor than [str(n)] prints: the limit is the
    same). *)
Fixpoint representable (v : json) : bool :=
  match v with
  | JNull | JBool _ | JStr _ => true
  | JInt z => Json.int_allowed z
  | JFloat f => float_ok f
  | JList l =>
      (fix all (l : list json) : bool :=
         match l with
         | [] => true
         | x :: l' => representable x && all l'
         end) l
  | JDict ps =>
      (fix all (ps : list (str * json)) : bool :=
         match ps with
         | [] => true
         | (k, x) :: ps' => negb (has_key k ps') && representable x && all ps'
         end) ps
  end.

(** How deep a value is nested: 0 for a scalar. *)
Fixpoint depth (v : json) : nat :=
  match v with
  | JList l =>
      S ((fix deepest (l : list json) : nat :=
            match l with
            | [] => 0%nat
            | x :: l' => Nat.max (depth x) (deepest l')
            end) l)
  | JDict ps =>
      S ((fix deepest (ps : list (str * json)) : nat :=
            match ps with
            | [] => 0%nat
            | (_, x) :: ps' => Nat.max (depth x) (deepest ps')
            end) ps)
  | _ => 0%nat
  end.

(** Nesting that CPython's recursion limit (1000 frames by default, of which
    [json.loads] and [json.dumps] spend one or two for each level of the
    value) leaves room for.  The model of [json] has no such limit: that a
    value is printed and read back is stated of shallow values only. *)
Definition shallow (v : json) : Prop := (depth v <= 100)%nat.

(** Number of values in a value. *)
Fixpoint nodes (v : json) : nat :=
  match v with
  | JList l =>
      S ((fix sum (l : list json) : nat :=
            match l with
            | [] => 0%nat
            | x :: l' => (nodes x + sum l')%nat
            end) l)
  | JDict ps =>
      S ((fix sum (ps : list (str * json)) : nat :=
            match ps with
            | [] => 0%nat
            | (_, x) :: ps' => (nodes x + sum ps')%nat
            end) ps)
  | _ => 1%nat
  end.

(** The items of a list after the first one, as [iterencode] prints them. *)
Fixpoint list_tail (indent : option nat) (level : nat) (l : list json) : str :=
  match l with
  | [] => []
  | y :: l' =>
      Json.item_separator indent level
      ++ Json.iterencode indent level y ++ list_tail indent level l'
  end.

(** The same for the entries of a dict. *)
Fixpoint dict_tail (indent : option nat) (level : nat) (l : list (str * json)) : str :=
  match l with
  | [] => []
  | (k, y) :: l' =>
      Json.item_separator indent level
      ++ Json.encode_basestring k ++ Json.key_separator
      ++ Json.iterencode indent level y ++ dict_tail indent level l'
  end.

(** What can follow a value in a serialized text: nothing, a comma, a line
    end, or a closing bracket. *)
Definition delimited (rest : str) : bool :=
  match rest with
  | [] => true
  | c :: _ => (c =? 44) || (c =? 10) || (c =? 93) || (c =? 125)
  end.

(** The same count over the items of a list and over the entries of a dict. *)
Fixpoint nodes_list (l : list json) : nat :=
  match l with
  | [] => 0%nat
  | x :: l' => (nodes x + nodes_list l')%nat
  end.

Fixpoint nodes_dict (ps : list (list N * json)) : nat :=
  match ps with
  | [] => 0%nat
  | (_, x) :: ps' => (nodes x + nodes_dict ps')%nat
  end.

(** A text that starts like a serialized value. *)
Definition starts_value (s : list N) : Prop :=
  ∃ c tail, s = c :: tail ∧ Json.is_ws c = false ∧ c ≠ 93 ∧ c ≠ 125 ∧ c ≠ 65279.

(** A scanning step that reads the same text whether a comma or another
    delimiter follows. *)
Definition stable (f : list N -> list N * list N) : Prop :=
  ∀ a d r, f (a ++ [44]) = (d, r) ->
    ∃ r0, r = r0 ++ [44]
          ∧ ∀ rest, delimited rest = true -> f (a ++ rest) = (d, r0 ++ rest).

(** The scanner reads a serialized value back, given enough fuel. *)
Definition scans_back (v : json) : Prop :=
  ∀ i l fuel rest,
    representable v = true -> delimited rest = true ->
    (2 * nodes v <= fuel)%nat ->
    Json.scan_once fuel (Json.iterencode i l v ++ rest) = Ok (v, rest).

(** What one level-1 file contributes: the [polymer_data] field of the JSON
    object that the stripped content decodes to. *)
Definition polymer_data_of (content : str) : result json :=
  raw_bytes ← Base64.b64decode (Py.strip content);
  raw ← Utf8.decode raw_bytes;
  v ← Json.loads raw;
  Json.getitem v (lit "polymer_data").

(** ** Vocabulary of the further properties *)

(** A character that counts in base64 text: one of the alphabet, or the
    padding sign. *)
Definition base64_char (c : N) : bool :=
  (c =? Base64.BASE64_PAD) || bool_decide (is_Some (Base64.table_a2b c)).

(** The header a browser request gives the token bridge, if it is one the
    bridge listens to. *)
Definition token_of (req : request) : option str :=
  if bool_decide (url req = API_URL) && bool_decide (method req = lit "POST")
  then req_headers req !! lit "captchaid"
  else None.

(** An event that is no request of the driver. *)
Definition no_post (e : event) : Prop :=
  match e with
  | Posted _ _ => False
  | _ => True
  end.

(** A request of the driver carries a token. *)
Definition carries_token (e : event) : Prop :=
  match e with
  | Posted _ tok => is_Some tok
  | _ => True
  end.

(** The text of a file, empty when the file is not there. *)
Definition content (dir : files) (path : str) : str := default [] (dir !! path).

(** The events of the prompts. *)
Definition asking (e : event) : Prop :=
  match e with
  | AskedToken | AskedCommand _ | AskedRelearn => True
  | _ => False
  end.

(** Code that takes a state to one related to it by [R]. *)
Definition keeps (R : state -> state -> Prop) {A} (m : M A) : Prop :=
  ∀ s, R s (m s).1.

(** The lines the handler of the fetch loop appended, as the trace has them. *)
Definition error_lines (evs : list event) : str :=
  concat (omap (fun e =>
                  match e with
                  | Appended path line =>
                      if decide (path = ERRORS_PATH) then Some line else None
                  | _ => None
                  end) evs).

(** A file the pipeline has no name for: neither a [.json] file, nor a
    temporary file, nor the index, nor the error log. *)
Definition foreign (q : str) : Prop :=
  (∀ x, q ≠ x ++ lit ".json") ∧ (∀ x, q ≠ tmp_of x)
  ∧ q ≠ INDEX_PATH ∧ q ≠ ERRORS_PATH.

(** Only prompts happened between [s] and [s']. *)
Definition prompted (s s' : state) : Prop :=
  fs s' = fs s ∧ ∃ evs, trace s' = trace s ++ evs ∧ Forall asking evs.

(** Between [s] and [s'] the error log gained the lines the handler
    appended, as the trace has them, and nothing else. *)
Definition error_log_follows (s s' : state) : Prop :=
  ∃ evs, trace s' = trace s ++ evs
         ∧ ∀ txt, fs s !! ERRORS_PATH = Some txt ->
                  fs s' !! ERRORS_PATH = Some (txt ++ error_lines evs).

(** A text that does not go on with a digit. *)
Definition nondigit_head (s : str) : Prop :=
  match s with
  | c :: _ => Json.is_digit c = false
  | [] => True
  end.

(** The characters of a JSON number. *)
Definition number_char (c : N) : bool :=
  Json.is_digit c || (c =? 45) || (c =? 43) || (c =? 46) || (c =? 101) || (c =? 69).

(** The fraction of a number: nothing, or a point and at least one digit. *)
Definition fraction (fp : str) : Prop :=
  fp = [] ∨ ∃ dg ds, fp = 46 :: dg :: ds ∧ Json.is_digit dg = true
                     ∧ Forall (fun c => Json.is_digit c = true) ds.

(** The exponent of a number: nothing, or [e] or [E], a sign or none, and
    at least one digit. *)
Definition exponent (ep : str) : Prop :=
  ep = [] ∨ ∃ e sg x ds, ep = e :: sg ++ x :: ds ∧ (e = 101 ∨ e = 69)
                         ∧ (sg = [] ∨ sg = [45] ∨ sg = [43])
                         ∧ Forall (fun c => Json.is_digit c = true) (x :: ds).

(** A value without [NaN] and without an infinity. *)
Fixpoint finite (v : json) : bool :=
  match v with
  | JFloat (FLit _) => true
  | JFloat _ => false
  | JList l =>
      (fix all (l : list json) : bool :=
         match l with
         | [] => true
         | x :: l' => finite x && all l'
         end) l
  | JDict ps =>
      (fix all (ps : list (str * json)) : bool :=
         match ps with
         | [] => true
         | (_, x) :: ps' => finite x && all ps'
         end) ps
  | _ => true
  end.

(** What the scanner builds is representable as soon as it is finite. *)
Definition sound (v : json) : Prop := finite v = true -> representable v = true.

(** A character from U+0020 on: none of the ASCII control characters, so
    neither a line feed nor a carriage return. *)
Definition printable (c : N) : bool := 32 <=? c.

(** A character that ends no line: neither a line feed nor a carriage
    return. *)
Definition inline (c : N) : bool := negb (c =? 10) && negb (c =? 13).

(** An identifier as the queue holds them: not empty, no white space
    around it, no line end inside. *)
Definition queue_item (p : str) : Prop :=
  p ≠ [] ∧ Py.strip p = p ∧ Forall (fun c => inline c = true) p.

(** What a loader appends for file number [i] of the directory [prefix]. *)
Definition entry_of (prefix : str) (read : str -> result str) (i : N) : result json :=
  content ← read (prefix ++ Py.str_of_N i ++ lit ".txt"); polymer_data_of content.

(** [e] is what the first file that fails fails with. *)
Definition first_failure (f : N -> result json) (e : exn) : Prop :=
  ∃ i, 1 <= i <= 64 ∧ f i = Raise e ∧ ∀ j, 1 <= j < i -> ∃ x, f j = Ok x.

(** ** Sample data *)
Module Sample.

(** Exception texts: the message of those that carry one. *)
Definition plain (e : exn) : str :=
  match e with
  | PlaywrightError msg | OSError msg => msg
  | _ => lit "error"
  end.

(** What the API answers for a record. *)
Definition api_body (record : json) : bytes :=
  Json.dumps None
    (JDict [(lit "result", JBool true);
            (lit "json",
              JStr (Base64.b64encode
                      (default [] (Utf8.encode (Json.dumps None record)))))]).

Definition healthy (record : json) : response :=
  Response 200 {[ lit "content-type" := lit "application/json" ]}
           (Ok (api_body record)).

Definition forbidden : response :=
  Response 403 {[ lit "content-type" := lit "text/html" ]} (Ok (lit "<html>")).

(** The request the browser sends when the operator clicks a polymer. *)
Definition click : request :=
  Request API_URL (lit "POST") {[ lit "captchaid" := lit "tok" ]}.

Definition clock : str := lit "2026-01-01T00:00:00".

(** Enter at the prompt, the given reply, no fault. *)
Definition fetching (r : result response) : turn :=
  Turn [click] [] [] [] r [] clock Written None Written Written None Written.

(** The same, but appending to the index fails. *)
Definition index_failing (r : result response) : turn :=
  Turn [click] [] [] [] r [] clock Written None
       (NotOpened (OSError (lit "disk full"))) Written None Written.

Definition P123 : json :=
  JDict [(lit "polymer_id", JStr (lit "P123"));
         (lit "polymer_uuid", JStr (lit "u-1"))].

(** A record whose identifying field is a number. *)
Definition numbered : json := JDict [(lit "polymer_id", JInt 123)].

(** A record with a lone surrogate, as [json.loads] builds it from the
    escape [\ud800]. *)
Definition unpaired : json := JDict [(lit "s", JStr [55296])].

Definition started : state := State 0 None ∅ [].
Definition with_token : state := State 0 (Some (lit "tok")) ∅ [].

(** A record with a float, a nested list and a letter outside ASCII. *)
Definition measured : json :=
  JDict [(lit "polymer_id", JStr (lit "P123"));
         (lit "density", JFloat (FLit (lit "1.25")));
         (lit "names", JList [JStr [80; 233]; JNull; JInt (-3)])].

(** A level-1 file: the base64 text of [{"polymer_data": [1, 2.5]}] and a
    line end. *)
Definition level1_file : str :=
  lit "eyJwb2x5bWVyX2RhdGEiOiBbMSwgMi41XX0=" ++ [10].

(** The two data directories, holding that file under every number. *)
Definition flat_dir (path : str) : result str :=
  if Py.startswith (lit "./data/b64_") path then Ok level1_file
  else Raise (OSError (lit "No such file or directory")).

Definition nested_dir (path : str) : result str :=
  if Py.startswith (lit "../data/lvl1_b64/b64_") path then Ok level1_file
  else Raise (OSError (lit "No such file or directory")).

(** A turn on which the operator types a command line, the browser staying
    silent unless told otherwise. *)
Definition typing (line : str) (seen : list request) : turn :=
  Turn [] line [] seen (Ok forbidden) [] clock
       Written None Written Written None Written.

(** What the API answers when it refuses: a JSON object whose flag is false. *)
Definition refusal : response :=
  Response 200 {[ lit "content-type" := lit "application/json" ]}
    (Ok (Json.dumps None (JDict [(lit "result", JBool false);
                                 (lit "message", JStr (lit "captcha"))]))).

End Sample.

(** * Properties *)

(** ** Files *)

Lemma tmp_of_neq (path : str) : tmp_of path ≠ path.
Proof.
  unfold tmp_of. intros H. apply (f_equal length) in H.
  rewrite length_app in H. simpl in H. lia.
Qed.

Lemma file_op_unfold (e : event) (op : files -> files * result unit) (s : state) :
  file_op e op s = (set_fs (op (fs s)).1 (log e s), (op (fs s)).2).
Proof. unfold file_op. simpl. by destruct (op (fs s)). Qed.

Lemma met_encodable (o : write_outcome) (text : str) :
  encodable text -> met o text = o.
Proof. intros [bs E]. unfold met. rewrite E. by destruct o. Qed.

Lemma met_Written (o : write_outcome) (text : str) :
  met o text = Written -> o = Written ∧ encodable text.
Proof.
  unfold met, encodable. destruct o, (Utf8.encode text); try done; eauto.
Qed.

Lemma write_text_other (o : write_outcome) (p txt : str) (dir : files) (q : str) :
  q ≠ p -> (write_text o p txt dir).1 !! q = dir !! q.
Proof.
  intros Hq. unfold write_text. destruct (met o txt); simpl; try done;
    by rewrite lookup_insert_ne.
Qed.

Lemma append_text_other (o : write_outcome) (p txt : str) (dir : files) (q : str) :
  q ≠ p -> (append_text o p txt dir).1 !! q = dir !! q.
Proof.
  intros Hq. unfold append_text. destruct (met o txt); simpl; try done;
    by rewrite lookup_insert_ne.
Qed.

Lemma replace_target (o : option exn) (src dst : str) (dir : files) :
  (replace o src dst dir).1 !! dst = dir !! dst
  ∨ (replace o src dst dir).1 !! dst = dir !! src ∧ (replace o src dst dir).2 = Ok tt.
Proof.
  unfold replace. destruct o; simpl; [by left|].
  destruct (dir !! src) eqn:E; simpl; [|by left].
  right. by rewrite lookup_insert_eq.
Qed.

Lemma replace_other (o : option exn) (src dst : str) (dir : files) (q : str) :
  q ≠ src -> q ≠ dst -> (replace o src dst dir).1 !! q = dir !! q.
Proof.
  intros H1 H2. unfold replace. destruct o; simpl; [done|].
  destruct (dir !! src); simpl; [|done].
  by rewrite lookup_insert_ne, lookup_delete_ne.
Qed.

(** C6: the Durable Writer writes the serialized record to the sibling path
    [tmp_of path] and then renames it onto [path].  If the process stops
    between the two steps (also when the temporary write was torn), [path]
    holds what it held before; however the two steps end, [path] holds its
    previous content or the complete new text; and without a fault, the text
    being one the file can take, it holds the complete new text. *)
Theorem atomic_write_json_atomic (w : write_outcome) (r : option exn)
    (path : str) (obj : json) (s : state) :
  let txt := Json.dumps (Some 2%nat) obj in
  let tmp := tmp_of path in
  let crashed := (file_op (WroteText tmp txt) (write_text w tmp txt) s).1 in
  let done := (atomic_write_json w r path obj s).1 in
  tmp ≠ path
  ∧ fs crashed !! path = fs s !! path
  ∧ (fs done !! path = fs s !! path ∨ fs done !! path = Some txt)
  ∧ (encodable txt ->
     (atomic_write_json Written None path obj s).2 = Ok tt
     ∧ fs (atomic_write_json Written None path obj s).1 !! path = Some txt).
Proof.
  intros txt tmp crashed done.
  pose proof (tmp_of_neq path) as Hne.
  split; [exact Hne|].
  split.
  { subst crashed. rewrite file_op_unfold. simpl.
    by rewrite write_text_other. }
  split.
  { subst done. unfold atomic_write_json, mbind, M_bind. fold tmp. fold txt.
    rewrite file_op_unfold. unfold write_text.
    destruct (met w txt); simpl.
    - rewrite file_op_unfold. simpl.
      destruct (replace_target r tmp path (<[tmp:=txt]> (fs s))) as [H|[H _]];
        rewrite H.
      + left. by rewrite lookup_insert_ne.
      + right. by rewrite lookup_insert_eq.
    - by left.
    - left. by rewrite lookup_insert_ne. }
  intros Henc. unfold atomic_write_json, mbind, M_bind. fold tmp. fold txt.
  rewrite file_op_unfold. unfold write_text. rewrite (met_encodable _ _ Henc).
  rewrite !file_op_unfold. simpl. unfold replace.
  rewrite lookup_insert_eq. simpl. split; [done|]. by rewrite lookup_insert_eq.
Qed.

Lemma Ok_inj {A} (a b : A) : Ok a = Ok b -> a = b.
Proof. congruence. Qed.

(** ** Names *)

Lemma last_lit_json (x : list N) : last (x ++ lit ".json") = Some 110.
Proof. change (lit ".json") with ([46; 106; 115; 111] ++ [110]). by rewrite app_assoc, last_snoc. Qed.

Lemma last_tmp_of (x : list N) : last (tmp_of x) = Some 112.
Proof. unfold tmp_of. change (lit ".tmp") with ([46; 116; 109] ++ [112]). by rewrite app_assoc, last_snoc. Qed.

Lemma last_pointer_path (pid : list N) : last (pointer_path pid) = Some 110.
Proof.
  unfold pointer_path. change (lit ".pointer.json") with (lit ".pointer" ++ lit ".json").
  by rewrite app_assoc, last_lit_json.
Qed.

Lemma pointer_path_not_tmp (pid x : list N) : pointer_path pid ≠ tmp_of x.
Proof. intros H. apply (f_equal last) in H. by rewrite last_pointer_path, last_tmp_of in H. Qed.

Lemma INDEX_PATH_not_tmp (x : list N) : INDEX_PATH ≠ tmp_of x.
Proof. intros H. apply (f_equal last) in H. by rewrite last_tmp_of in H. Qed.

Lemma ERRORS_PATH_not_tmp (x : list N) : ERRORS_PATH ≠ tmp_of x.
Proof. intros H. apply (f_equal last) in H. by rewrite last_tmp_of in H. Qed.

Lemma pointer_path_not_errors (pid : list N) : pointer_path pid ≠ ERRORS_PATH.
Proof. intros H. apply (f_equal last) in H. by rewrite last_pointer_path in H. Qed.

Lemma pointer_path_not_index (pid : list N) : pointer_path pid ≠ INDEX_PATH.
Proof. intros H. apply (f_equal last) in H. by rewrite last_pointer_path in H. Qed.

Lemma output_name_last (dir : files) (decoded : json) (pid name : list N) :
  output_name dir decoded pid = Ok name -> last name = Some 110.
Proof.
  unfold output_name. destruct (Json.get decoded (lit "polymer_id") JNull) as [v|]; [|done].
  cbn [mbind result_bind].
  destruct (exists_ dir _).
  - destruct (if Json.truthy v then _ else _) as [stem|]; [|done].
    cbn [mbind result_bind]. intros <-%Ok_inj.
    by rewrite !app_assoc, last_lit_json.
  - intros <-%Ok_inj. destruct v; try apply last_lit_json.
    destruct (Py.nonempty s); apply last_lit_json.
Qed.

(** ** Running monadic code *)

Lemma bind_unfold {A B} (m : M A) (k : A -> M B) (s : state) :
  (m ≫= k) s =
  match m s with
  | (s', Ok a) => k a s'
  | (s', Raise e) => (s', Raise e)
  end.
Proof. reflexivity. Qed.

Lemma lift_bind {A B} (r : result A) (k : A -> M B) (s : state) :
  (lift r ≫= k) s = match r with Ok a => k a s | Raise e => (s, Raise e) end.
Proof. unfold mbind, M_bind, lift. by destruct r. Qed.

Lemma gets_bind {A B} (f : state -> A) (k : A -> M B) (s : state) :
  (gets f ≫= k) s = k (f s) s.
Proof. reflexivity. Qed.

Lemma modify_bind {B} (f : state -> state) (k : unit -> M B) (s : state) :
  (modify f ≫= k) s = k tt (f s).
Proof. reflexivity. Qed.

(** A pass either stops before it touches a file, or decodes a record and
    goes through [save_steps]. *)
Lemma fetch_cases (pid : list N) (t : turn) (s : state) :
  (∃ r, fetch pid (pointer_path pid) t s = (posted pid t s, r))
  ∨ (∃ decoded name,
       decodes t (fs s) pid decoded name
       ∧ fetch pid (pointer_path pid) t s = save_steps pid t decoded name (posted pid t s)).
Proof.
  unfold fetch. rewrite gets_bind, !modify_bind. fold (posted pid t s).
  rewrite lift_bind.
  destruct (reply t) as [resp|e] eqn:Hr; [|eauto].
  destruct (looks_blocked _ _) eqn:Hb.
  { rewrite lift_bind. destruct (resp_text resp); eauto. }
  rewrite lift_bind. destruct (resp_json resp) as [top|e] eqn:Hj; [|eauto].
  rewrite lift_bind. destruct (Json.get top _ _) as [flag|e] eqn:Hg; [|eauto].
  destruct (Json.truthy flag) eqn:Ht; cbn [negb].
  2: { unfold mbind, M_bind, lift.
       destruct (Json.get top (lit "message") JNull) as [message|e]; [|eauto].
       destruct (print_value message) as [[]|e]; eauto. }
  rewrite lift_bind. destruct (Json.getitem top _) as [payload|e] eqn:Hp; [|eauto].
  rewrite lift_bind.
  destruct (match payload with JStr b64 => _ | _ => _ end) as [decoded|e] eqn:Hd; [|eauto].
  rewrite gets_bind, lift_bind.
  replace (fs (posted pid t s)) with (fs s) by reflexivity.
  destruct (output_name _ _ _) as [name|e] eqn:Hn; [|eauto].
  right. exists decoded, name. split; [|reflexivity].
  destruct payload; try discriminate.
  exists resp, top, flag, s0. repeat split; assumption.
Qed.

(** ** What code does to the trace, the directory and the queue index *)

Section Effects.

(** The events the code may add. *)
Variable P : event -> Prop.

Lemma grows_refl (s : state) : grows P s s.
Proof. split; [exists []; by rewrite app_nil_r | auto]. Qed.

Lemma grows_trans (s1 s2 s3 : state) : grows P s1 s2 -> grows P s2 s3 -> grows P s1 s3.
Proof.
  intros [(e1 & H1 & F1) K1] [(e2 & H2 & F2) K2]. split.
  - exists (e1 ++ e2). rewrite H2, H1, app_assoc. split; [done|].
    by apply Forall_app.
  - auto.
Qed.

Lemma tame_bind {A B} (m : M A) (k : A -> M B) :
  tame P m -> (∀ a, tame P (k a)) -> tame P (m ≫= k).
Proof.
  intros Hm Hk s. rewrite bind_unfold. destruct (Hm s) as [G I].
  destruct (m s) as [s1 [a|e]]; [|done].
  destruct (Hk a s1) as [G' I']. simpl in *.
  split; [by eapply grows_trans | congruence].
Qed.

Lemma closing_bind {A B} (m : M A) (k : A -> M B) :
  tame P m -> (∀ a, closing P (k a)) -> closing P (m ≫= k).
Proof.
  intros Hm Hk s. rewrite bind_unfold. destruct (Hm s) as [G I].
  destruct (m s) as [s1 [a|e]]; [|done].
  destruct (Hk a s1) as [G' I']. simpl in *.
  split; [by eapply grows_trans |].
  destruct ((k a s1).2); congruence.
Qed.

Lemma tame_lift {A} (r : result A) : tame P (lift r).
Proof. intros s. split; [apply grows_refl | done]. Qed.

Lemma tame_gets {A} (f : state -> A) : tame P (gets f).
Proof. intros s. split; [apply grows_refl | done]. Qed.

Lemma closing_incr : closing P (modify (fun s => set_idx (S (idx s)) s)).
Proof.
  intros s. split; [|done].
  split; [exists []; simpl; by rewrite app_nil_r | auto].
Qed.

Lemma tame_file_op (e : event) (op : files -> files * result unit) :
  P e ->
  (∀ dir q, (∀ x, q ≠ tmp_of x) -> is_Some (dir !! q) -> is_Some ((op dir).1 !! q)) ->
  tame P (file_op e op).
Proof.
  intros He Hop s. rewrite file_op_unfold. split; [|done]. split.
  - exists [e]. split; [done | by constructor].
  - intros q Hq Hs. simpl. by apply Hop.
Qed.

Lemma write_text_keeps (o : write_outcome) (p txt : list N) (dir : files) (q : list N) :
  is_Some (dir !! q) -> is_Some ((write_text o p txt dir).1 !! q).
Proof.
  intros H. unfold write_text. destruct (met o txt); simpl; [|done|];
    rewrite lookup_insert_is_Some; destruct (decide (p = q)); auto.
Qed.

Lemma append_text_keeps (o : write_outcome) (p txt : list N) (dir : files) (q : list N) :
  is_Some (dir !! q) -> is_Some ((append_text o p txt dir).1 !! q).
Proof.
  intros H. unfold append_text. destruct (met o txt); simpl; [|done|];
    rewrite lookup_insert_is_Some; destruct (decide (p = q)); auto.
Qed.

Lemma replace_keeps (o : option exn) (x dst : list N) (dir : files) (q : list N) :
  q ≠ tmp_of x -> is_Some (dir !! q) -> is_Some ((replace o (tmp_of x) dst dir).1 !! q).
Proof.
  intros Hq H. unfold replace. destruct o; simpl; [done|].
  destruct (dir !! tmp_of x); simpl; [|done].
  rewrite lookup_insert_is_Some. destruct (decide (dst = q)); [auto|].
  right. split; [done|]. by rewrite lookup_delete_ne.
Qed.

Lemma tame_atomic_write_json (w : write_outcome) (r : option exn)
    (path : list N) (obj : json) :
  (∀ a b, P (WroteText a b)) -> (∀ a b, P (Replaced a b)) ->
  tame P (atomic_write_json w r path obj).
Proof.
  intros Hw Hr. unfold atomic_write_json. apply tame_bind.
  - apply tame_file_op; [apply Hw|]. intros. by apply write_text_keeps.
  - intros _. apply tame_file_op; [apply Hr|]. intros. by apply replace_keeps.
Qed.

Lemma tame_append_index (w : write_outcome) (now pid : list N)
    (decoded : json) (name : list N) :
  (∀ b, P (Appended INDEX_PATH b)) ->
  tame P (append_index w now pid decoded name).
Proof.
  intros Ha. unfold append_index.
  apply tame_bind; [apply tame_lift|]. intros v1.
  apply tame_bind; [apply tame_lift|]. intros v2.
  apply tame_file_op; [apply Ha|]. intros. by apply append_text_keeps.
Qed.

Lemma closing_save_steps (pid : list N) (t : turn) (decoded : json) (name : list N) :
  (∀ e, file_event e -> P e) ->
  closing P (save_steps pid t decoded name).
Proof.
  intros HP. unfold save_steps.
  apply closing_bind; [apply tame_atomic_write_json; intros; by apply HP|]. intros _.
  apply closing_bind; [apply tame_append_index; intros; by apply HP|]. intros _.
  apply closing_bind; [apply tame_atomic_write_json; intros; by apply HP|]. intros _.
  apply closing_incr.
Qed.

End Effects.

Lemma grows_weaken (P Q : event -> Prop) (s s' : state) :
  (∀ e, P e -> Q e) -> grows P s s' -> grows Q s s'.
Proof.
  intros H [(evs & E & F) K]. split; [|done].
  exists evs. split; [done|]. eapply Forall_impl; eauto.
Qed.

Lemma grows_posted (pid : list N) (t : turn) (s : state) :
  grows (fetch_event pid) s (posted pid t s).
Proof.
  split; [|done]. exists [Posted pid (captcha_id s)]. split; [done|].
  by constructor.
Qed.

Lemma file_event_fetch (pid : list N) (e : event) : file_event e -> fetch_event pid e.
Proof. by destruct e. Qed.

Lemma fetch_event_pass (pid : list N) (e : event) : fetch_event pid e -> pass_event pid e.
Proof. by destruct e. Qed.

(** Whatever the turn, the [try] body adds its request and file events,
    keeps the files that were there, and moves the queue index by one only
    when it returns from a save. *)
Lemma fetch_effect (pid : list N) (t : turn) (s : state) :
  let r := fetch pid (pointer_path pid) t s in
  grows (fetch_event pid) s r.1
  ∧ (idx r.1 = idx s ∨ r.2 = Ok tt ∧ idx r.1 = S (idx s)).
Proof.
  intros r. subst r.
  destruct (fetch_cases pid t s) as [[r ->] | (decoded & name & _ & ->)].
  - split; [apply grows_posted | by left].
  - destruct (closing_save_steps (fetch_event pid) pid t decoded name
                (file_event_fetch pid) (posted pid t s)) as [G I].
    split; [eapply grows_trans; [apply grows_posted | exact G]|].
    destruct (save_steps pid t decoded name (posted pid t s)) as [s' [[]|e]];
      simpl in *; [right | left]; done.
Qed.

(** ** A pass step by step *)

Lemma fetch_decodes (pid : list N) (t : turn) (s : state) (decoded : json) (name : list N) :
  decodes t (fs s) pid decoded name ->
  fetch pid (pointer_path pid) t s = save_steps pid t decoded name (posted pid t s).
Proof.
  intros (resp & top & flag & b64 & Hr & Hb & Hj & Hg & Ht & Hp & Hd & Hn).
  unfold fetch. rewrite gets_bind, !modify_bind. fold (posted pid t s).
  rewrite lift_bind, Hr, Hb, lift_bind, Hj, lift_bind, Hg, Ht. cbn [negb].
  rewrite lift_bind, Hp, lift_bind, Hd, gets_bind, lift_bind.
  replace (fs (posted pid t s)) with (fs s) by reflexivity.
  by rewrite Hn.
Qed.

Lemma atomic_write_json_run (w : write_outcome) (r : option exn)
    (path : list N) (obj : json) (s : state) :
  let txt := Json.dumps (Some 2%nat) obj in
  let s1 := log (WroteText (tmp_of path) txt) s in
  atomic_write_json w r path obj s =
  match met w txt with
  | Written =>
      let s2 := log (Replaced (tmp_of path) path) (set_fs (<[tmp_of path := txt]> (fs s)) s1) in
      match r with
      | None => (set_fs (written path obj (fs s)) s2, Ok tt)
      | Some e => (s2, Raise e)
      end
  | NotOpened e => (s1, Raise e)
  | Torn e n => (set_fs (<[tmp_of path := take n txt]> (fs s)) s1, Raise e)
  end.
Proof.
  intros txt s1. unfold atomic_write_json. rewrite bind_unfold, file_op_unfold.
  fold txt. unfold write_text. destruct (met w txt); cbn [fst snd]; try reflexivity.
  rewrite file_op_unfold. destruct r; cbn [replace fst snd fs set_fs log]; [reflexivity|].
  rewrite lookup_insert_eq. reflexivity.
Qed.

Lemma append_index_run (w : write_outcome) (now pid : list N)
    (d : list (list N * json)) (name : list N) (s : state) :
  let line := index_line now pid (JDict d) name in
  let s1 := log (Appended INDEX_PATH line) s in
  append_index w now pid (JDict d) name s =
  match met w line with
  | Written => (set_fs (appended INDEX_PATH line (fs s)) s1, Ok tt)
  | NotOpened e => (s1, Raise e)
  | Torn e n =>
      (set_fs (<[INDEX_PATH := default [] (fs s !! INDEX_PATH) ++ take n line]> (fs s)) s1,
       Raise e)
  end.
Proof.
  intros line s1. unfold append_index.
  rewrite lift_bind. cbn [Json.get]. cbv beta iota.
  rewrite lift_bind. cbv beta iota.
  rewrite file_op_unfold. unfold append_text.
  subst line s1. unfold index_line. cbn [Json.get].
  destruct (met w _); reflexivity.
Qed.

(** Without a fault the save goes through, and this is the state it leaves. *)
Lemma save_steps_no_fault (pid : list N) (t : turn) (d : list (list N * json))
    (name : list N) (s : state) :
  no_fault t -> storable (now t) pid (JDict d) name ->
  let line := index_line (now t) pid (JDict d) name in
  save_steps pid t (JDict d) name s =
    (State (S (idx s)) (captcha_id s)
       (saved_files (fs s) pid (JDict d) name line)
       (trace s ++ save_events pid (JDict d) name line),
     Ok tt).
Proof.
  intros (Hw1 & Hr1 & Hi & Hw2 & Hr2) (E1 & E2 & E3) line. unfold save_steps.
  rewrite bind_unfold, atomic_write_json_run, Hw1, Hr1. cbv zeta.
  rewrite (met_encodable _ _ E1). cbv beta zeta iota.
  rewrite bind_unfold, append_index_run, Hi. cbv zeta.
  rewrite (met_encodable _ _ E2). cbv beta zeta iota.
  rewrite bind_unfold, atomic_write_json_run, Hw2, Hr2. cbv zeta.
  rewrite (met_encodable _ _ E3). cbv beta zeta iota.
  unfold modify, set_idx, set_fs, log, saved_files, save_events.
  cbn [idx captcha_id fs trace]. rewrite <- !app_assoc. reflexivity.
Qed.

Lemma output_name_dict (dir : files) (decoded : json) (pid name : list N) :
  output_name dir decoded pid = Ok name -> ∃ d, decoded = JDict d.
Proof.
  unfold output_name, Json.get. destruct decoded; try discriminate. eauto.
Qed.

Lemma fetch_saves (pid : list N) (t : turn) (s : state) (decoded : json) (name : list N) :
  saves t (fs s) pid decoded name ->
  let line := index_line (now t) pid decoded name in
  fetch pid (pointer_path pid) t s =
    (State (S (idx s)) (foldl on_request (captcha_id s) (seen_at_post t))
       (saved_files (fs s) pid decoded name line)
       (trace s ++ Posted pid (captcha_id s) :: save_events pid decoded name line),
     Ok tt).
Proof.
  intros (Hd & Hf & He) line. rewrite (fetch_decodes _ _ _ _ _ Hd).
  destruct Hd as (resp & top & flag & b64 & _ & _ & _ & _ & _ & _ & _ & Hn).
  destruct (output_name_dict _ _ _ _ Hn) as [d ->].
  rewrite save_steps_no_fault by done.
  unfold posted, observe, set_captcha_id, log. cbn [idx captcha_id fs trace].
  by rewrite <- app_assoc.
Qed.

(** ** The handler *)

Lemma attempt_ok (exn_text : exn -> list N) (pid ptr : list N) (t : turn) (s s1 : state) (u : unit) :
  fetch pid ptr t s = (s1, Ok u) -> attempt exn_text pid ptr t s = (s1, Ok tt).
Proof. unfold attempt. by intros ->. Qed.

(** What the handler does with a failure of the [try] body. *)
Lemma attempt_raise (exn_text : exn -> list N) (pid ptr : list N) (t : turn)
    (s s1 : state) (e : exn) :
  fetch pid ptr t s = (s1, Raise e) ->
  let line := error_line exn_text pid e in
  let s2 := log (Appended ERRORS_PATH line) s1 in
  attempt exn_text pid ptr t s =
    match met (log_append t) line with
    | Written => (set_fs (appended ERRORS_PATH line (fs s1)) s2, Ok tt)
    | NotOpened e' => (s2, Raise e')
    | Torn e' n =>
        (set_fs (<[ERRORS_PATH := default [] (fs s1 !! ERRORS_PATH) ++ take n line]> (fs s1)) s2,
         Raise e')
    end.
Proof.
  intros E line s2. subst line s2. unfold attempt. rewrite E, file_op_unfold.
  unfold append_text. by destruct (met (log_append t) _).
Qed.


Lemma attempt_effect (exn_text : exn -> list N) (pid : list N) (t : turn) (s : state) :
  let s' := (attempt exn_text pid (pointer_path pid) t s).1 in
  grows (pass_event pid) s s' ∧ (idx s' = idx s ∨ idx s' = S (idx s)).
Proof.
  intros s'. subst s'. pose proof (fetch_effect pid t s) as [G I].
  apply (grows_weaken _ _ _ _ (fetch_event_pass pid)) in G.
  destruct (fetch pid (pointer_path pid) t s) as [s1 [[]|e]] eqn:E.
  - rewrite (attempt_ok _ _ _ _ _ _ _ E). split; [done|]. simpl in I. tauto.
  - unfold attempt. rewrite E, file_op_unfold. simpl in *. split.
    + eapply grows_trans; [exact G|]. split.
      * eexists [_]. split; [done|]. by constructor.
      * intros q _ Hq. simpl. by apply append_text_keeps.
    + destruct I as [I|[? _]]; [by left | done].
Qed.

(** ** One pass of the stepper *)

Lemma ensure_effect (pid : list N) (t : turn) (s : state) :
  grows (pass_event pid) s (ensure_captcha_id t s).1
  ∧ idx (ensure_captcha_id t s).1 = idx s
  ∧ fs (ensure_captcha_id t s).1 = fs s.
Proof.
  unfold ensure_captcha_id. destruct (held (captcha_id s)); simpl.
  - split; [apply grows_refl | done].
  - split; [|done]. split; [|done]. eexists [_]. split; [done|]. by constructor.
Qed.

Lemma stepper_effect (exn_text : exn -> list N) (pid : list N) (t : turn) (s : state) :
  let r := stepper exn_text pid t s in
  grows (pass_event pid) s r.1 ∧ (idx r.1 = idx s ∨ idx r.1 = S (idx s)).
Proof.
  intros r. subst r. unfold stepper.
  pose proof (ensure_effect pid t s) as (G & I & _).
  destruct (ensure_captcha_id t s) as [s1 got]. simpl in G, I.
  destruct got; cbn [negb]; [|simpl; split; [done | by left]].
  set (s2 := observe (seen_at_command t) (log (AskedCommand pid) s1)).
  assert (grows (pass_event pid) s s2) as G2.
  { eapply grows_trans; [exact G|]. split; [|done].
    eexists [_]. split; [done|]. by constructor. }
  assert (idx s2 = idx s) as I2 by done.
  repeat case_bool_decide; cbn [fst snd].
  - split; [done | by left].
  - split; [|right; simpl; congruence]. destruct G2 as [T K]. by split.
  - split; [|by left]. eapply grows_trans; [exact G2|]. split; [|done].
    eexists [_]. split; [done|]. by constructor.
  - pose proof (attempt_effect exn_text pid t s2) as [G3 I3]. cbv zeta in G3, I3.
    destruct (attempt exn_text pid (pointer_path pid) t s2) as [s3 [[]|e]];
      cbn [fst snd] in *; (split; [by eapply grows_trans | congruence]).
Qed.

(** ** The whole loop *)

(** A run does not ask for what is already there: no request is made for
    an identifier whose pointer file exists. *)
Lemma loop_effect (exn_text : exn -> list N) (pid0 : list N) (fuel : nat)
    (pids : list (list N)) (ts : list turn) (s : state) :
  exists_ (fs s) (pointer_path pid0) = true ->
  grows (fun e => ∀ tok, e ≠ Posted pid0 tok) s (loop exn_text fuel pids ts s).1.
Proof.
  revert ts s. induction fuel as [|fuel IH]; intros ts s Hp; simpl.
  { apply grows_refl. }
  destruct (pids !! idx s) as [pid|]; [|apply grows_refl].
  destruct (exists_ (fs s) (pointer_path pid)) eqn:Hpid.
  { eapply grows_trans; [|apply IH; exact Hp]. split; [|done].
    exists []. split; [simpl; by rewrite app_nil_r | constructor]. }
  destruct ts as [|t ts]; [apply grows_refl|].
  pose proof (stepper_effect exn_text pid t s) as [G _].
  assert (pid ≠ pid0) as Hne by (intros ->; congruence).
  assert (grows (fun e => ∀ tok, e ≠ Posted pid0 tok) s (stepper exn_text pid t s).1) as G'.
  { eapply grows_weaken; [|exact G]. intros [] He tok; try done.
    simpl in He. congruence. }
  destruct (stepper exn_text pid t s) as [s' []]; simpl in *; [|done|done].
  eapply grows_trans; [exact G'|]. apply IH.
  unfold exists_ in *. apply bool_decide_eq_true. apply bool_decide_eq_true in Hp.
  destruct G' as [_ K]. apply K; [|done]. intros x. apply pointer_path_not_tmp.
Qed.

(** The fuel of [run] is never used up. *)
Lemma loop_fuel (exn_text : exn -> list N) (fuel : nat)
    (pids : list (list N)) (ts : list turn) (s : state) :
  (length ts + (length pids - idx s) < fuel)%nat ->
  (loop exn_text fuel pids ts s).2 ≠ OutOfFuel.
Proof.
  revert ts s. induction fuel as [|fuel IH]; intros ts s Hlt; [lia|]. simpl.
  destruct (pids !! idx s) as [pid|] eqn:Hl; [|done].
  apply lookup_lt_Some in Hl.
  destruct (exists_ (fs s) (pointer_path pid)).
  { apply IH. simpl. lia. }
  destruct ts as [|t ts]; [done|].
  pose proof (stepper_effect exn_text pid t s) as [_ I].
  destruct (stepper exn_text pid t s) as [s' []]; simpl in *; [|done|done].
  apply IH. lia.
Qed.

(** ** Classifying an answer *)

Lemma startswith_spec (p s : list N) :
  Py.startswith p s = true ↔ ∃ post, s = p ++ post.
Proof.
  revert s. induction p as [|a p IH]; intros s; simpl.
  - split; [eauto | done].
  - destruct s as [|b s].
    + split; [done | intros [post H]; discriminate].
    + rewrite andb_true_iff, N.eqb_eq, IH. split.
      * intros [-> [post ->]]. eauto.
      * intros [post [= -> ->]]. eauto.
Qed.

Lemma contains_spec (needle hay : list N) :
  Py.contains needle hay = true ↔ ∃ pre post, hay = pre ++ needle ++ post.
Proof.
  induction hay as [|c hay IH]; simpl.
  - rewrite orb_false_r, startswith_spec. split.
    + intros [post H]. exists [], post. done.
    + intros (pre & post & H). symmetry in H.
      apply app_eq_nil in H as [-> H]. exists post. done.
  - rewrite orb_true_iff, startswith_spec, IH. split.
    + intros [[post H] | (pre & post & ->)].
      * exists [], post. done.
      * exists (c :: pre), post. done.
    + intros (pre & post & H). destruct pre as [|c' pre].
      * left. exists post. done.
      * right. injection H as -> ->. eauto.
Qed.

Lemma lower_char_letter (c x : N) :
  97 <= x <= 122 -> Py.lower_char c = x ↔ c = x ∨ c = x - 32.
Proof.
  intros Hx. unfold Py.lower_char.
  destruct ((65 <=? c) && (c <=? 90)) eqn:E.
  - apply andb_true_iff in E as [E1 E2].
    apply N.leb_le in E1, E2. lia.
  - apply andb_false_iff in E as [E|E]; apply N.leb_gt in E; lia.
Qed.

Lemma names_json_spec (ct : list N) :
  Py.contains (lit "json") (Py.lower ct) = true ↔ names_json ct.
Proof.
  rewrite contains_spec. change (lit "json") with [106; 115; 111; 110].
  unfold names_json, Py.lower. split.
  - intros (pre' & post' & H).
    apply fmap_app_inv in H as (pre & rest & -> & H & ->).
    symmetry in H. apply fmap_app_inv in H as (w & post & Hw & -> & ->).
    destruct w as [|j [|s [|o [|n [|]]]]]; try discriminate.
    injection Hw as Hj Hs Ho Hn. symmetry in Hj, Hs, Ho, Hn.
    apply lower_char_letter in Hj, Hs, Ho, Hn; try lia.
    exists pre, j, s, o, n, post. simpl in *. done.
  - intros (pre & j & s & o & n & post & -> & Hj & Hs & Ho & Hn).
    exists (Py.lower_char <$> pre), (Py.lower_char <$> post).
    rewrite !fmap_app. cbn [fmap list_fmap].
    assert (Py.lower_char j = 106) as -> by (apply lower_char_letter; simpl; lia).
    assert (Py.lower_char s = 115) as -> by (apply lower_char_letter; simpl; lia).
    assert (Py.lower_char o = 111) as -> by (apply lower_char_letter; simpl; lia).
    assert (Py.lower_char n = 110) as -> by (apply lower_char_letter; simpl; lia).
    done.
Qed.

Lemma looks_blocked_spec (status : Z) (ct : option (list N)) :
  looks_blocked status ct = true ↔ status ≠ 200%Z ∨ ¬ names_json (default [] ct).
Proof.
  unfold looks_blocked. rewrite <- names_json_spec.
  destruct (status =? 200)%Z eqn:E; simpl.
  - apply Z.eqb_eq in E.
    destruct (Py.contains _ _); simpl; split; intros H; try done.
    + destruct H as [H|H]; [done | by destruct H].
    + right. done.
  - apply Z.eqb_neq in E. split; [by left | done].
Qed.

Lemma fetch_blocked (pid ptr : list N) (t : turn) (s : state) (resp : response) :
  reply t = Ok resp ->
  looks_blocked (status resp)
    (Some (default [] (headers resp !! lit "content-type"))) = true ->
  ∃ r, fetch pid ptr t s = (posted pid t s, r).
Proof.
  intros Hr Hb. unfold fetch. rewrite gets_bind, !modify_bind. fold (posted pid t s).
  rewrite lift_bind, Hr, Hb, lift_bind. destruct (resp_text resp); eauto.
Qed.

(** C2: an answer is classified as blocked exactly when its status is not
    200 or its content type does not name JSON in any letter case (a
    missing content type counts as empty); a pass that gets a blocked
    answer leaves the queue index where it was, changes no file other than
    the error log, so it writes no output file and appends no index entry,
    and adds no event but its request and possibly one line of the error
    log. *)
Theorem blocked_response_keeps_item_pending (exn_text : exn -> str)
    (pid_uuid : str) (t : turn) (s : state) (resp : response) :
  reply t = Ok resp ->
  looks_blocked (status resp)
    (Some (default [] (headers resp !! lit "content-type"))) = true ->
  let s' := (attempt exn_text pid_uuid (pointer_path pid_uuid) t s).1 in
  (∀ status ct,
     looks_blocked status ct = true ↔ status ≠ 200%Z ∨ ¬ names_json (default [] ct))
  ∧ idx s' = idx s
  ∧ (∀ path, path ≠ ERRORS_PATH -> fs s' !! path = fs s !! path)
  ∧ ∃ evs, trace s' = trace s ++ Posted pid_uuid (captcha_id s) :: evs
           ∧ Forall (fun e => ∃ line, e = Appended ERRORS_PATH line) evs.
Proof.
  intros Hr Hb s'. split; [apply looks_blocked_spec|].
  subst s'. destruct (fetch_blocked pid_uuid (pointer_path pid_uuid) t s resp Hr Hb)
    as [[[]|e] E].
  - rewrite (attempt_ok _ _ _ _ _ _ _ E). repeat split; try done.
    exists []. done.
  - unfold attempt. rewrite E, file_op_unfold.
    unfold posted, observe, set_captcha_id, set_fs, log.
    cbn [fst idx fs trace captcha_id].
    split; [done|]. split.
    + intros path Hp. by apply append_text_other.
    + eexists [_]. rewrite <- app_assoc. split; [done|]. constructor; eauto.
Qed.

Lemma blocked_response_witness :
  reply (Sample.fetching (Ok Sample.forbidden)) = Ok Sample.forbidden
  ∧ looks_blocked (status Sample.forbidden)
      (Some (default [] (headers Sample.forbidden !! lit "content-type"))) = true
  ∧ idx (attempt Sample.plain (lit "id2") (pointer_path (lit "id2"))
           (Sample.fetching (Ok Sample.forbidden)) Sample.with_token).1 = 0%nat.
Proof.
  split; [reflexivity|]. split; [vm_compute; reflexivity|].
  apply (blocked_response_keeps_item_pending Sample.plain (lit "id2")
           (Sample.fetching (Ok Sample.forbidden)) Sample.with_token Sample.forbidden);
    [reflexivity | vm_compute; reflexivity].
Defined.

(** C3 (as amended): on a pass that saves, the driver decodes the payload
    and resolves the output name ([saves] gives both), then, in this order,
    issues the request, writes the output file through the Durable Writer,
    appends the index entry, writes the completion pointer through the
    Durable Writer, and moves the queue index by one. *)
Theorem save_steps_in_order (exn_text : exn -> str) (pid_uuid : str) (t : turn)
    (s : state) (decoded : json) (out_name : str) :
  saves t (fs s) pid_uuid decoded out_name ->
  let ptr := pointer_path pid_uuid in
  let s' := (attempt exn_text pid_uuid ptr t s).1 in
  trace s' =
    trace s ++
    [Posted pid_uuid (captcha_id s);
     WroteText (tmp_of out_name) (Json.dumps (Some 2%nat) decoded);
     Replaced (tmp_of out_name) out_name;
     Appended INDEX_PATH (index_line (now t) pid_uuid decoded out_name);
     WroteText (tmp_of ptr) (Json.dumps (Some 2%nat) (pointer_record pid_uuid out_name));
     Replaced (tmp_of ptr) ptr]
  ∧ idx s' = S (idx s).
Proof.
  intros Hs ptr s'. subst s' ptr.
  rewrite (attempt_ok _ _ _ _ _ _ _ (fetch_saves _ _ _ _ _ Hs)). done.
Qed.

Lemma sample_saves :
  saves (Sample.fetching (Ok (Sample.healthy Sample.P123))) ∅ (lit "id2")
        Sample.P123 (lit "P123.json").
Proof.
  split; [|split; [by repeat split | repeat split; eexists; vm_compute; reflexivity]].
  eexists _, _, _, _. split; [reflexivity|].
  split; [vm_compute; reflexivity|].
  split; [vm_compute; reflexivity|].
  split; [vm_compute; reflexivity|].
  split; [vm_compute; reflexivity|].
  split; [vm_compute; reflexivity|].
  split; vm_compute; reflexivity.
Defined.

Lemma save_steps_in_order_witness :
  saves (Sample.fetching (Ok (Sample.healthy Sample.P123))) (fs Sample.with_token)
        (lit "id2") Sample.P123 (lit "P123.json")
  ∧ idx (attempt Sample.plain (lit "id2") (pointer_path (lit "id2"))
           (Sample.fetching (Ok (Sample.healthy Sample.P123))) Sample.with_token).1
    = 1%nat.
Proof.
  split; [exact sample_saves|].
  apply (save_steps_in_order Sample.plain (lit "id2")
           (Sample.fetching (Ok (Sample.healthy Sample.P123)))
           Sample.with_token Sample.P123 (lit "P123.json") sample_saves).
Defined.

(** C3 as stated fails: in a pass that saves, the pointer is not renamed
    into place before the index entry is appended. *)
Lemma pointer_not_before_index :
  ¬ precedes (is_rename_to (pointer_path (lit "id2"))) is_index_append
      (trace (attempt Sample.plain (lit "id2") (pointer_path (lit "id2"))
                (Sample.fetching (Ok (Sample.healthy Sample.P123)))
                Sample.with_token).1).
Proof.
  intros (i & j & Hi & Hj & Hlt).
  vm_compute in Hi. vm_compute in Hj.
  injection Hi as <-. injection Hj as <-. lia.
Qed.








(** ** The start of [main] *)

(** Either the error log was emptied and the loop runs, or the write failed
    and [main] ends there, having at most created the log. *)
Lemma main_cases (exn_text : exn -> list N) (reset : write_outcome)
    (pids : list (list N)) (ts : list turn) (disk : files) :
  let s1 := State 0 None (<[ERRORS_PATH := []]> disk) [WroteText ERRORS_PATH []] in
  (reset = Written ∧ main exn_text reset pids ts disk = run exn_text pids ts s1)
  ∨ (∃ e, reset ≠ Written
          ∧ (main exn_text reset pids ts disk).2 = Crashed e
          ∧ trace (main exn_text reset pids ts disk).1 = [WroteText ERRORS_PATH []]
          ∧ idx (main exn_text reset pids ts disk).1 = 0%nat
          ∧ (fs (main exn_text reset pids ts disk).1 = disk
             ∨ fs (main exn_text reset pids ts disk).1 = <[ERRORS_PATH := []]> disk)).
Proof.
  intros s1. unfold main. rewrite file_op_unfold. unfold write_text, met.
  change (Utf8.encode []) with (Some ([] : list N)).
  destruct reset as [|e|e n]; cbn [fst snd].
  - left. done.
  - right. exists e. repeat split; try done. by left.
  - right. exists e. repeat split; try done. right. by rewrite take_nil.
Qed.

(** ** Completed identifiers *)

(** C1: when the queue is at an identifier whose completion pointer file
    exists, the driver moves past it and does nothing else: no turn is
    taken, no event is added, so no request is issued.  Over a whole run of
    [main] started on a directory that holds the pointer, be it the one a
    first run left, no request for that identifier is ever posted, whatever
    the operator and the server do; and the run ends by itself. *)
Theorem completed_identifier_is_skipped (exn_text : exn -> str)
    (reset : write_outcome) (pids : list str) (ts : list turn) (disk : files)
    (pid_uuid : str) :
  exists_ disk (pointer_path pid_uuid) = true ->
  (∀ fuel s, fs s = disk -> pids !! idx s = Some pid_uuid ->
     loop exn_text (S fuel) pids ts s
     = loop exn_text fuel pids ts (State (S (idx s)) (captcha_id s) (fs s) (trace s)))
  ∧ (∀ token, Posted pid_uuid token ∉ trace (main exn_text reset pids ts disk).1)
  ∧ (main exn_text reset pids ts disk).2 ≠ OutOfFuel.
Proof.
  intros Hx. split; [|split].
  - intros fuel s <- Hp. simpl. by rewrite Hp, Hx.
  - intros token Hin.
    destruct (main_cases exn_text reset pids ts disk)
      as [[_ E] | (e & _ & _ & T & _)];
      [|rewrite T in Hin; apply list_elem_of_singleton in Hin; discriminate].
    rewrite E in Hin. unfold run in Hin.
    set (s1 := State _ _ _ _) in Hin.
    assert (exists_ (fs s1) (pointer_path pid_uuid) = true) as Hx1.
    { unfold exists_ in *. apply bool_decide_eq_true. apply bool_decide_eq_true in Hx.
      subst s1. simpl. rewrite lookup_insert_is_Some.
      destruct (decide (ERRORS_PATH = pointer_path pid_uuid)); auto. }
    destruct (loop_effect exn_text pid_uuid
                (length ts + (length pids - idx s1) + 1) pids ts s1 Hx1)
      as [(evs & Ht & Hf) _].
    rewrite Ht in Hin. apply elem_of_app in Hin as [Hin|Hin].
    + subst s1. simpl in Hin. apply list_elem_of_singleton in Hin. discriminate.
    + rewrite Forall_forall in Hf. by apply (Hf _ Hin token).
  - destruct (main_cases exn_text reset pids ts disk)
      as [[_ ->] | (e & _ & -> & _)]; [|done].
    unfold run. apply loop_fuel. lia.
Qed.

Lemma completed_identifier_is_skipped_witness :
  let disk : files := {[ pointer_path (lit "id2") := lit "{}" ]} in
  let ts := [Sample.fetching (Ok (Sample.healthy Sample.P123))] in
  exists_ disk (pointer_path (lit "id2")) = true
  ∧ (∀ token,
       Posted (lit "id2") token ∉ trace (main Sample.plain Written [lit "id2"] ts disk).1)
  ∧ (main Sample.plain Written [lit "id2"] ts disk).2 = Finished.
Proof.
  intros disk ts. split; [reflexivity|]. split; [|reflexivity].
  apply (completed_identifier_is_skipped Sample.plain Written [lit "id2"] ts disk
           (lit "id2")).
  reflexivity.
Defined.

(** ** The pointer and the output file *)

Lemma save_steps_pointer (pid : str) (t : turn) (d : list (str * json))
    (name : str) (s : state) :
  name ≠ pointer_path pid ->
  last name = Some 110 ->
  fs s !! pointer_path pid = None ->
  is_Some (fs (save_steps pid t (JDict d) name s).1 !! pointer_path pid) ->
  no_fault t ∧ storable (now t) pid (JDict d) name.
Proof.
  intros Hne Hlast Hnone.
  assert (pointer_path pid ≠ tmp_of name) as H1 by apply pointer_path_not_tmp.
  assert (pointer_path pid ≠ tmp_of (pointer_path pid)) as H2 by apply pointer_path_not_tmp.
  assert (pointer_path pid ≠ INDEX_PATH) as H3 by apply pointer_path_not_index.
  unfold save_steps.
  rewrite bind_unfold, atomic_write_json_run. cbv zeta.
  destruct (met (out_write t) _) eqn:M1; cbn [fst fs set_fs log];
    [| rewrite Hnone; by intros [] | rewrite lookup_insert_ne, Hnone by done; by intros []].
  destruct (out_replace t) eqn:R1; cbn [fst fs set_fs log];
    [rewrite lookup_insert_ne, Hnone by done; by intros [] |].
  assert (written name (JDict d) (fs s) !! pointer_path pid = None) as Hw.
  { unfold written. by rewrite lookup_insert_ne, lookup_delete_ne, lookup_insert_ne. }
  rewrite bind_unfold, append_index_run. cbv zeta.
  destruct (met (index_append t) _) eqn:M2; cbn [fst fs set_fs log];
    [| rewrite Hw; by intros [] | rewrite lookup_insert_ne, Hw by done; by intros []].
  set (dir3 := appended _ _ _).
  assert (dir3 !! pointer_path pid = None) as Hd3.
  { subst dir3. unfold appended. by rewrite lookup_insert_ne. }
  rewrite bind_unfold, atomic_write_json_run. cbv zeta.
  destruct (met (ptr_write t) _) eqn:M3; cbn [fst fs set_fs log];
    [| rewrite Hd3; by intros [] | rewrite lookup_insert_ne, Hd3 by done; by intros []].
  destruct (ptr_replace t) eqn:R2; cbn [fst fs set_fs log];
    [rewrite lookup_insert_ne, Hd3 by done; by intros [] |].
  intros _. apply met_Written in M1 as [W1 E1]. apply met_Written in M2 as [W2 E2].
  apply met_Written in M3 as [W3 E3]. by repeat split.
Qed.

Lemma saved_files_pointer (dir : files) (pid : str) (decoded : json) (name line : str) :
  saved_files dir pid decoded name line !! pointer_path pid
  = Some (Json.dumps (Some 2%nat) (pointer_record pid name)).
Proof. unfold saved_files, written. apply lookup_insert_eq. Qed.

Lemma saved_files_output (dir : files) (pid : str) (decoded : json) (name line : str) :
  name ≠ pointer_path pid ->
  last name = Some 110 ->
  saved_files dir pid decoded name line !! name
  = Some (Json.dumps (Some 2%nat) decoded).
Proof.
  intros Hne Hlast.
  assert (name ≠ tmp_of (pointer_path pid)) as H1.
  { intros H. apply (f_equal last) in H. rewrite Hlast, last_tmp_of in H. done. }
  assert (name ≠ INDEX_PATH) as H2.
  { intros H. apply (f_equal last) in H. rewrite Hlast in H. done. }
  unfold saved_files, written, appended.
  rewrite lookup_insert_ne, lookup_delete_ne, lookup_insert_ne, lookup_insert_ne by done.
  apply lookup_insert_eq.
Qed.

Lemma position_rename_events (pid : str) (decoded : json) (name line : str) (tok : option str) :
  name ≠ pointer_path pid ->
  precedes (is_rename_to name) (is_rename_to (pointer_path pid))
    (Posted pid tok :: save_events pid decoded name line).
Proof.
  intros Hne. exists 2%nat, 5%nat. unfold save_events. cbn [position is_rename_to fmap option_fmap option_map].
  rewrite (bool_decide_eq_true_2 (name = name)) by done.
  rewrite (bool_decide_eq_false_2 (name = pointer_path pid)) by done.
  rewrite (bool_decide_eq_true_2 (pointer_path pid = pointer_path pid)) by done.
  simpl. repeat split; lia.
Qed.

(** C4 (as amended): the completion pointer is written only after the
    output file has been durably written.  Whenever a pass over a pending
    identifier leaves its pointer file in the directory, the answer was
    decoded to a record and an output name was resolved; and unless that
    name is the pointer's own, no file operation failed, the rename of the
    output file came before the rename of the pointer, the pointer holds
    the identifier and the output name, and the output file holds the
    serialized decoded record. *)
Theorem pointer_written_after_output (exn_text : exn -> str) (pid_uuid : str)
    (t : turn) (s : state) :
  exists_ (fs s) (pointer_path pid_uuid) = false ->
  let ptr := pointer_path pid_uuid in
  let s' := (attempt exn_text pid_uuid ptr t s).1 in
  exists_ (fs s') ptr = true ->
  ∃ decoded out_name,
    decodes t (fs s) pid_uuid decoded out_name
    ∧ (out_name ≠ ptr ->
       no_fault t
       ∧ precedes (is_rename_to out_name) (is_rename_to ptr)
           (drop (length (trace s)) (trace s'))
       ∧ fs s' !! ptr = Some (Json.dumps (Some 2%nat) (pointer_record pid_uuid out_name))
       ∧ fs s' !! out_name = Some (Json.dumps (Some 2%nat) decoded)).
Proof.
  intros Hx ptr s' Hx'. subst s' ptr.
  unfold exists_ in Hx, Hx'. apply bool_decide_eq_false in Hx.
  apply bool_decide_eq_true in Hx'. rewrite <- eq_None_not_Some in Hx.
  assert (∀ s1 r, fetch pid_uuid (pointer_path pid_uuid) t s = (s1, r) ->
                  is_Some (fs s1 !! pointer_path pid_uuid)) as Hs1.
  { intros s1 [[]|e] E.
    - by rewrite (attempt_ok _ _ _ _ _ _ _ E) in Hx'.
    - unfold attempt in Hx'. rewrite E, file_op_unfold in Hx'.
      cbn [fst fs set_fs log] in Hx'. rewrite append_text_other in Hx'; [done|].
      apply pointer_path_not_errors. }
  destruct (fetch_cases pid_uuid t s) as [[r E] | (decoded & name & Hd & E)].
  { apply Hs1 in E. simpl in E. rewrite Hx in E. by destruct E. }
  exists decoded, name. split; [exact Hd|]. intros Hne.
  pose proof Hd as (_ & _ & _ & _ & _ & _ & _ & _ & _ & _ & _ & Hn).
  destruct (output_name_dict _ _ _ _ Hn) as [d ->].
  pose proof (output_name_last _ _ _ _ Hn) as Hlast.
  assert (no_fault t ∧ storable (now t) pid_uuid (JDict d) name) as [Hf He].
  { apply (save_steps_pointer pid_uuid t d name (posted pid_uuid t s) Hne Hlast Hx).
    apply (Hs1 _ (save_steps pid_uuid t (JDict d) name (posted pid_uuid t s)).2).
    rewrite E. by destruct (save_steps _ _ _ _ _). }
  split; [exact Hf|].
  rewrite (attempt_ok _ _ _ _ _ _ _ (fetch_saves _ _ _ _ _ (conj Hd (conj Hf He)))).
  cbn [fst fs trace]. rewrite drop_app_length.
  split; [by apply position_rename_events|].
  split; [apply saved_files_pointer | by apply saved_files_output].
Qed.

Lemma pointer_written_after_output_witness :
  let t := Sample.fetching (Ok (Sample.healthy Sample.P123)) in
  let s' := (attempt Sample.plain (lit "id2") (pointer_path (lit "id2")) t Sample.with_token).1 in
  exists_ (fs Sample.with_token) (pointer_path (lit "id2")) = false
  ∧ exists_ (fs s') (pointer_path (lit "id2")) = true
  ∧ ∃ decoded out_name,
      decodes t (fs Sample.with_token) (lit "id2") decoded out_name
      ∧ (out_name ≠ pointer_path (lit "id2") ->
         no_fault t
         ∧ precedes (is_rename_to out_name) (is_rename_to (pointer_path (lit "id2")))
             (drop (length (trace Sample.with_token)) (trace s'))
         ∧ fs s' !! pointer_path (lit "id2")
           = Some (Json.dumps (Some 2%nat) (pointer_record (lit "id2") out_name))
         ∧ fs s' !! out_name = Some (Json.dumps (Some 2%nat) decoded)).
Proof.
  intros t s'. split; [reflexivity|]. split; [vm_compute; reflexivity|].
  apply (pointer_written_after_output Sample.plain (lit "id2") t Sample.with_token);
    vm_compute; reflexivity.
Defined.

(** C4 as stated fails: when appending the index entry fails after the
    output file was written, the retry saves the record once more under the
    composite name; the pointer then exists while two files hold the
    record. *)
Lemma retry_leaves_two_output_files :
  let ts := [Sample.index_failing (Ok (Sample.healthy Sample.P123));
             Sample.fetching (Ok (Sample.healthy Sample.P123))] in
  let final := (main Sample.plain Written [lit "id2"] ts ∅).1 in
  ¬ ledger_sound (fs final) (lit "id2") Sample.P123.
Proof.
  intros ts final Hsound.
  destruct Hsound as (name & Huniq & _).
  { vm_compute. eauto. }
  assert (lit "P123.json" = name) as H1.
  { apply Huniq. vm_compute. reflexivity. }
  assert (lit "P123__id2.json" = name) as H2.
  { apply Huniq. vm_compute. reflexivity. }
  rewrite <- H2 in H1. vm_compute in H1. discriminate.
Qed.

(** C7 does not hold on the code: when the identifying field of the record
    is a number and the fallback name is already taken, line 180 calls
    [safe_filename] on the number, which raises; the pass logs the failure,
    saves nothing and leaves the item pending. *)
Theorem numeric_identifying_field_on_collision :
  let dir : files := {[ lit "id2.json" := lit "{}" ]} in
  let s := State 0 (Some (lit "tok")) dir [] in
  let s' := (attempt Sample.plain (lit "id2") (pointer_path (lit "id2"))
               (Sample.fetching (Ok (Sample.healthy Sample.numbered))) s).1 in
  output_name dir Sample.numbered (lit "id2")
    = Raise (AttributeError (lit "int") (lit "strip"))
  ∧ idx s' = 0%nat
  ∧ fs s' !! pointer_path (lit "id2") = None
  ∧ fs s' !! ERRORS_PATH = Some (lit "id2" ++ [9] ++ lit "error" ++ [10]).
Proof. vm_compute. repeat split. Qed.

(** ** The codecs *)

Ltac solve_cmp :=
  repeat match goal with
    | |- context [?a <? ?b] =>
        first [rewrite (proj2 (N.ltb_lt a b)) by lia
              | rewrite (proj2 (N.ltb_ge a b)) by lia]
    | |- context [?a <=? ?b] =>
        first [rewrite (proj2 (N.leb_le a b)) by lia
              | rewrite (proj2 (N.leb_gt a b)) by lia]
    | |- context [?a =? ?b] =>
        first [rewrite (proj2 (N.eqb_eq a b)) by lia
              | rewrite (proj2 (N.eqb_neq a b)) by lia]
    end.

Lemma below_forallb (P : N -> bool) (n : nat) :
  forallb P (N.of_nat <$> seq 0 n) = true -> ∀ v, v < N.of_nat n -> P v = true.
Proof.
  intros H v Hv. rewrite forallb_forall in H. apply H.
  apply list_elem_of_In. apply list_elem_of_fmap. exists (N.to_nat v).
  split; [lia|]. apply elem_of_seq. lia.
Qed.

(** ** JSON strings *)

Lemma scanstring_u (h1 h2 h3 h4 u : N) (rest : list N) :
  Json.hex4 h1 h2 h3 h4 = Some u -> Json.high_surrogate u = false ->
  Json.scanstring (92 :: 117 :: h1 :: h2 :: h3 :: h4 :: rest)
  = Json.prepend u (Json.scanstring rest).
Proof.
  intros Hh Hs. cbn [Json.scanstring]. cbn [N.eqb Pos.eqb]. rewrite Hh.
  destruct rest as [|? [|? [|? [|? [|? [|? ?]]]]]]; rewrite ?Hs; reflexivity.
Qed.

Lemma control_escape (c : N) :
  c < 32 ->
  Json.hex4 48 48 (Json.hex_digit (c / 16)) (Json.hex_digit (c mod 16)) = Some c
  ∧ Json.high_surrogate c = false.
Proof.
  intros Hc.
  pose proof (below_forallb
    (fun c => bool_decide
                (Json.hex4 48 48 (Json.hex_digit (c / 16)) (Json.hex_digit (c mod 16))
                 = Some c)
              && negb (Json.high_surrogate c)) 32 eq_refl c Hc) as H.
  simpl in H. apply andb_true_iff in H as [H1 H2].
  apply bool_decide_eq_true in H1. apply negb_true_iff in H2. done.
Qed.

Lemma scanstring_escape_char (c : N) (rest : list N) :
  Json.scanstring (Json.escape_char c ++ rest) = Json.prepend c (Json.scanstring rest).
Proof.
  unfold Json.escape_char.
  destruct (N.eqb_spec c 34) as [->|H34]; [reflexivity|].
  destruct (N.eqb_spec c 92) as [->|H92]; [reflexivity|].
  destruct (N.eqb_spec c 10) as [->|H10]; [reflexivity|].
  destruct (N.eqb_spec c 13) as [->|H13]; [reflexivity|].
  destruct (N.eqb_spec c 9) as [->|H9]; [reflexivity|].
  destruct (N.eqb_spec c 8) as [->|H8]; [reflexivity|].
  destruct (N.eqb_spec c 12) as [->|H12]; [reflexivity|].
  destruct (N.ltb_spec c 32) as [Hlt|Hge].
  - destruct (control_escape c Hlt) as [Hh Hs].
    cbn [app]. by apply scanstring_u.
  - cbn [app Json.scanstring]. by solve_cmp.
Qed.

Lemma scanstring_escaped (s rest : list N) :
  Json.scanstring (concat (Json.escape_char <$> s) ++ 34 :: rest) = Ok (s, rest).
Proof.
  induction s as [|c s IH]; [reflexivity|].
  cbn [fmap list_fmap concat]. rewrite <- app_assoc, scanstring_escape_char, IH.
  reflexivity.
Qed.

Lemma encode_basestring_app (s rest : list N) :
  Json.encode_basestring s ++ rest
  = 34 :: concat (Json.escape_char <$> s) ++ 34 :: rest.
Proof. unfold Json.encode_basestring. cbn [app]. by rewrite <- app_assoc. Qed.

(** ** JSON integers *)

Lemma uint_of_chars_uint_chars (d : Decimal.uint) :
  Json.uint_of_chars (Py.uint_chars d) = d.
Proof. induction d; cbn [Py.uint_chars Json.uint_of_chars]; cbn [N.eqb Pos.eqb]; by f_equal. Qed.

Lemma span_digits_uint_chars (d : Decimal.uint) (rest : list N) :
  delimited rest = true ->
  Json.span_digits (Py.uint_chars d ++ rest) = (Py.uint_chars d, rest).
Proof.
  intros Hr. induction d; cbn [Py.uint_chars app Json.span_digits];
    try (rewrite IHd; reflexivity).
  destruct rest as [|c rest]; [reflexivity|]. cbn [Json.span_digits].
  unfold delimited in Hr. unfold Json.is_digit.
  destruct (N.leb_spec 48 c), (N.leb_spec c 57); try reflexivity.
  exfalso. repeat (apply orb_true_iff in Hr as [Hr|Hr]); apply N.eqb_eq in Hr; lia.
Qed.

Lemma to_uint_head (p : positive) :
  ∃ c d, Py.uint_chars (Pos.to_uint p) = c :: Py.uint_chars d
         ∧ 49 <= c <= 57.
Proof.
  pose proof (DecimalPos.Unsigned.to_uint_nonzero p) as Hnz.
  pose proof (DecimalPos.Unsigned.to_uint_nonnil p) as Hnn.
  assert (Pos.to_uint p = unorm (Pos.to_uint p)) as Hnorm.
  { change (Pos.to_uint p) with (N.to_uint (Npos p)) at 1.
    rewrite <- (DecimalN.Unsigned.of_to (Npos p)) at 1.
    by rewrite DecimalN.Unsigned.to_of. }
  destruct (Pos.to_uint p) as [|d|d|d|d|d|d|d|d|d|d] eqn:E; try done.
  - exfalso. rewrite unorm_D0 in Hnorm. unfold unorm in Hnorm.
    destruct (nzhead d) eqn:En; by apply (nzhead_nonzero d d); congruence.
  - exists 49, d. split; [done | lia].
  - exists 50, d. split; [done | lia].
  - exists 51, d. split; [done | lia].
  - exists 52, d. split; [done | lia].
  - exists 53, d. split; [done | lia].
  - exists 54, d. split; [done | lia].
  - exists 55, d. split; [done | lia].
  - exists 56, d. split; [done | lia].
  - exists 57, d. split; [done | lia].
Qed.

(** After an integer, a delimiter starts neither a fraction nor an exponent. *)
Lemma no_fraction (rest : list N) :
  delimited rest = true -> Json.frac_part rest = ([], rest).
Proof.
  intros Hr. unfold Json.frac_part.
  destruct rest as [|p [|dg r']]; try reflexivity.
  unfold delimited in Hr.
  assert (p ≠ 46) as Hp.
  { intros ->. done. }
  by rewrite (proj2 (N.eqb_neq p 46)).
Qed.

Lemma no_exponent (rest : list N) :
  delimited rest = true -> Json.exp_part rest = ([], rest).
Proof.
  intros Hr. unfold Json.exp_part.
  destruct rest as [|e [|c r']]; try reflexivity.
  unfold delimited in Hr.
  assert (e ≠ 101 ∧ e ≠ 69) as [H1 H2].
  { split; intros ->; done. }
  by rewrite (proj2 (N.eqb_neq e 101)), (proj2 (N.eqb_neq e 69)).
Qed.

Lemma match_number_digits (neg : bool) (c : N) (d : Decimal.uint) (rest : list N) :
  49 <= c <= 57 -> delimited rest = true ->
  Json.match_number ((if neg then [45] else []) ++ c :: Py.uint_chars d ++ rest)
  = Some (JInt (Json.int_of neg (c :: Py.uint_chars d)), rest).
Proof.
  intros Hc Hr. unfold Json.match_number.
  assert (Json.sign_part ((if neg then [45] else []) ++ c :: Py.uint_chars d ++ rest)
          = (neg, c :: Py.uint_chars d ++ rest)) as ->.
  { unfold Json.sign_part. destruct neg; cbn [app]; [reflexivity|]. by solve_cmp. }
  unfold Json.is_digit, Json.int_part. solve_cmp. cbn [andb].
  rewrite span_digits_uint_chars by done.
  rewrite no_fraction by done. rewrite no_exponent by done.
  reflexivity.
Qed.

Lemma int_of_pos (p : positive) :
  Json.int_of false (Py.uint_chars (Pos.to_uint p)) = Zpos p
  ∧ Json.int_of true (Py.uint_chars (Pos.to_uint p)) = Zneg p.
Proof.
  unfold Json.int_of. rewrite uint_of_chars_uint_chars.
  change (Pos.to_uint p) with (N.to_uint (Npos p)).
  rewrite DecimalN.Unsigned.of_to. done.
Qed.

Lemma match_number_int (z : Z) (rest : list N) :
  delimited rest = true ->
  Json.match_number (Py.str_of_Z z ++ rest) = Some (JInt z, rest).
Proof.
  intros Hr. destruct z as [|p|p]; unfold Py.str_of_Z, Py.str_of_N.
  - unfold Json.match_number, Json.sign_part, Json.int_part. cbn [app].
    cbn [N.eqb Pos.eqb Json.is_digit N.leb N.compare Pos.compare Pos.compare_cont andb].
    rewrite no_fraction by done. rewrite no_exponent by done. reflexivity.
  - change (N.to_uint (N.pos p)) with (Pos.to_uint p).
    destruct (int_of_pos p) as [Hp _].
    destruct (to_uint_head p) as (c & d & E & Hc). rewrite E in *.
    rewrite <- Hp. apply (match_number_digits false c d rest Hc Hr).
  - change (N.to_uint (N.pos p)) with (Pos.to_uint p).
    destruct (int_of_pos p) as [_ Hp].
    destruct (to_uint_head p) as (c & d & E & Hc). rewrite E in *.
    rewrite <- Hp. apply (match_number_digits true c d rest Hc Hr).
Qed.

(** A minus sign followed by a digit is not [-Infinity]; an integer is
    returned when it is within the digit limit. *)
Lemma scan_plain_number (s : list N) (r : json * list N) :
  (∃ c tail, s = c :: tail ∧ 48 <= c <= 57)
  ∨ (∃ c tail, s = 45 :: c :: tail ∧ 48 <= c <= 57) ->
  Json.match_number s = Some r ->
  representable r.1 = true ->
  Json.scan_plain s = Ok r.
Proof.
  intros Hs Hm Hz. unfold Json.scan_plain. rewrite Hm.
  assert (match r with
          | (JInt z, r0) =>
              if Json.int_allowed z then Ok (JInt z, r0) else Raise ValueError
          | _ => Ok r
          end = Ok r) as Hr.
  { destruct r as [[] r0]; try done. cbn [fst representable] in Hz. by rewrite Hz. }
  destruct Hs as [(c & tail & -> & Hc) | (c & tail & -> & Hc)].
  - solve_cmp. exact Hr.
  - rewrite (N.eqb_refl 45). change (45 =? 110) with false.
    change (45 =? 116) with false. change (45 =? 102) with false.
    change (45 =? 78) with false. change (45 =? 73) with false. cbv iota.
    unfold Json.constant.
    change (lit "-Infinity") with (45 :: 73 :: lit "nfinity").
    cbn [Py.startswith]. rewrite (N.eqb_refl 45).
    rewrite (proj2 (N.eqb_neq 73 c)) by lia. exact Hr.
Qed.

Lemma scan_once_plain (fuel : nat) (c : N) (tail : list N) :
  c ≠ 34 -> c ≠ 123 -> c ≠ 91 ->
  Json.scan_once (S fuel) (c :: tail) = Json.scan_plain (c :: tail).
Proof. intros H1 H2 H3. cbn [Json.scan_once]. by solve_cmp. Qed.

Lemma scan_once_int (fuel : nat) (z : Z) (rest : list N) :
  delimited rest = true -> Json.int_allowed z = true ->
  Json.scan_once (S fuel) (Py.str_of_Z z ++ rest) = Ok (JInt z, rest).
Proof.
  intros Hr Hz. pose proof (match_number_int z rest Hr) as Hm.
  destruct z as [|p|p].
  - cbn [Py.str_of_Z app] in *. rewrite scan_once_plain by done.
    apply scan_plain_number; [|done|done]. left. eexists _, _. split; [done | lia].
  - unfold Py.str_of_Z, Py.str_of_N in *.
    change (N.to_uint (N.pos p)) with (Pos.to_uint p) in *.
    destruct (to_uint_head p) as (c & d & E & Hc). rewrite E in *. cbn [app] in *.
    rewrite scan_once_plain by lia.
    apply scan_plain_number; [|done|done]. left. eexists _, _. split; [done | lia].
  - unfold Py.str_of_Z, Py.str_of_N in *.
    change (N.to_uint (N.pos p)) with (Pos.to_uint p) in *.
    destruct (to_uint_head p) as (c & d & E & Hc). rewrite E in *. cbn [app] in *.
    rewrite scan_once_plain by done.
    apply scan_plain_number; [|done|done]. right. eexists _, _. split; [done | lia].
Qed.

Lemma scan_once_constants (fuel : nat) (rest : list N) :
  Json.scan_once (S fuel) (lit "null" ++ rest) = Ok (JNull, rest)
  ∧ Json.scan_once (S fuel) (lit "true" ++ rest) = Ok (JBool true, rest)
  ∧ Json.scan_once (S fuel) (lit "false" ++ rest) = Ok (JBool false, rest).
Proof. repeat split; reflexivity. Qed.

Lemma scan_once_string (fuel : nat) (s rest : list N) :
  Json.scan_once (S fuel) (Json.encode_basestring s ++ rest) = Ok (JStr s, rest).
Proof.
  rewrite encode_basestring_app. cbn [Json.scan_once]. cbn [N.eqb Pos.eqb].
  by rewrite scanstring_escaped.
Qed.

(** ** JSON values *)

Lemma json_nested_ind (P : json -> Prop) :
  P JNull -> (∀ b, P (JBool b)) -> (∀ z, P (JInt z)) -> (∀ f, P (JFloat f)) ->
  (∀ s, P (JStr s)) ->
  (∀ l, Forall P l -> P (JList l)) ->
  (∀ ps, Forall (fun kv => P kv.2) ps -> P (JDict ps)) ->
  ∀ v, P v.
Proof.
  intros Hnull Hbool Hint Hfloat Hstr Hlist Hdict.
  fix IH 1. intros [| | | | |l|ps];
    [apply Hnull | apply Hbool | apply Hint | apply Hfloat | apply Hstr | |].
  - apply Hlist. induction l as [|x l IHl]; constructor; [apply IH | exact IHl].
  - apply Hdict. induction ps as [|[k x] ps IHps]; constructor; [apply IH | exact IHps].
Qed.

Lemma nodes_JList (l : list json) : nodes (JList l) = S (nodes_list l).
Proof. reflexivity. Qed.

Lemma nodes_JDict (ps : list (list N * json)) : nodes (JDict ps) = S (nodes_dict ps).
Proof. reflexivity. Qed.

Lemma nodes_pos (v : json) : (1 <= nodes v)%nat.
Proof. destruct v; cbn [nodes]; lia. Qed.

Lemma iterencode_list (i : option nat) (l : nat) (x : json) (xs : list json) :
  Json.iterencode i l (JList (x :: xs))
  = 91 :: Json.newline_indent i (S l) ++ Json.iterencode i (S l) x
    ++ list_tail i (S l) xs ++ Json.newline_indent i l ++ [93].
Proof.
  cbn [Json.iterencode app]. do 3 f_equal. f_equal.
  induction xs as [|y xs IH]; [done|]. cbn [list_tail]. by rewrite IH.
Qed.

Lemma iterencode_dict (i : option nat) (l : nat) (k : list N) (x : json)
    (ps : list (list N * json)) :
  Json.iterencode i l (JDict ((k, x) :: ps))
  = 123 :: Json.newline_indent i (S l) ++ Json.encode_basestring k
    ++ Json.key_separator ++ Json.iterencode i (S l) x
    ++ dict_tail i (S l) ps ++ Json.newline_indent i l ++ [125].
Proof.
  cbn [Json.iterencode app]. do 5 f_equal. f_equal.
  induction ps as [|[k' y] ps IH]; [done|]. cbn [dict_tail]. by rewrite IH.
Qed.

(** *** How a serialized value starts *)

Lemma starts_value_char (c : N) (tail : list N) :
  c = 45 ∨ 48 <= c <= 57 ∨ c = 34 ∨ c = 91 ∨ c = 123 ∨ c = 110 ∨ c = 116 ∨ c = 102 ->
  starts_value (c :: tail).
Proof.
  intros H. exists c, tail. split; [done|]. unfold Json.is_ws.
  split; [solve_cmp; done|]. lia.
Qed.

Lemma float_ok_head (s : list N) :
  float_ok (FLit s) = true -> ∃ c tail, s = c :: tail ∧ (c = 45 ∨ 48 <= c <= 57).
Proof.
  unfold float_ok. destruct s as [|c tail]; [done|]. intros H.
  exists c, tail. split; [done|].
  destruct (N.eq_dec c 45) as [->|Hn]; [by left|]. right.
  unfold Json.match_number, Json.sign_part in H. cbn [app] in H.
  rewrite (proj2 (N.eqb_neq c 45)) in H by done.
  unfold Json.is_digit in H.
  destruct (N.leb_spec 48 c), (N.leb_spec c 57); try done; lia.
Qed.

Lemma str_of_Z_head (z : Z) :
  ∃ c tail, Py.str_of_Z z = c :: tail ∧ (c = 45 ∨ 48 <= c <= 57).
Proof.
  destruct z as [|p|p]; unfold Py.str_of_Z, Py.str_of_N.
  - eexists _, _. split; [reflexivity | lia].
  - change (N.to_uint (N.pos p)) with (Pos.to_uint p).
    destruct (to_uint_head p) as (c & d & -> & Hc).
    eexists _, _. split; [reflexivity | lia].
  - eexists _, _. split; [reflexivity | lia].
Qed.

Ltac literal_head :=
  eexists _, _; split; [reflexivity|]; vm_compute; repeat split; congruence.

Lemma iterencode_head (i : option nat) (l : nat) (v : json) :
  representable v = true -> starts_value (Json.iterencode i l v).
Proof.
  intros Hv. destruct v as [|[]|z|[| |s]| |[|x xs]|[|[k x] ps]]; try done.
  - literal_head.
  - literal_head.
  - literal_head.
  - cbn [Json.iterencode]. destruct (str_of_Z_head z) as (c & tail & -> & Hc).
    apply starts_value_char. lia.
  - cbn [Json.iterencode Json.floatstr].
    destruct (float_ok_head s Hv) as (c & tail & -> & Hc).
    apply starts_value_char. lia.
  - cbn [Json.iterencode]. unfold Json.encode_basestring. cbn [app].
    apply starts_value_char. lia.
  - literal_head.
  - rewrite iterencode_list. apply starts_value_char. lia.
  - literal_head.
  - rewrite iterencode_dict. apply starts_value_char. lia.
Qed.

Lemma skip_ws_starts_value (s rest : list N) :
  starts_value s -> Json.skip_ws (s ++ rest) = s ++ rest.
Proof. intros (c & tail & -> & Hw & _). cbn [app Json.skip_ws]. by rewrite Hw. Qed.

Lemma skip_ws_newline_indent (i : option nat) (l : nat) (s : list N) :
  Json.skip_ws (Json.newline_indent i l ++ s) = Json.skip_ws s.
Proof.
  destruct i as [n|]; [|done]. cbn [Json.newline_indent app Json.skip_ws].
  change (Json.is_ws 10) with true. cbv iota.
  induction (n * l)%nat as [|m IH]; [done|]. cbn [replicate app Json.skip_ws].
  change (Json.is_ws 32) with true. exact IH.
Qed.

Lemma skip_ws_item_separator (i : option nat) (l : nat) (s : list N) :
  ∃ r, Json.item_separator i l ++ s = 44 :: r ∧ Json.skip_ws r = Json.skip_ws s.
Proof.
  destruct i as [n|].
  - exists (Json.newline_indent (Some n) l ++ s). split; [done|].
    apply skip_ws_newline_indent.
  - exists (32 :: s). split; done.
Qed.

Lemma delimited_newline_indent (i : option nat) (l : nat) (c : N) (rest : list N) :
  c = 93 ∨ c = 125 -> delimited (Json.newline_indent i l ++ c :: rest) = true.
Proof. intros [-> | ->]; destruct i; done. Qed.

Lemma delimited_item_separator (i : option nat) (l : nat) (s : list N) :
  delimited (Json.item_separator i l ++ s) = true.
Proof. destruct i; done. Qed.

(** *** A number reads the same whatever delimiter follows it *)

Lemma delimited_head (c : N) (tail : list N) :
  delimited (c :: tail) = true -> c = 44 ∨ c = 10 ∨ c = 93 ∨ c = 125.
Proof.
  unfold delimited. intros H.
  repeat (apply orb_true_iff in H as [H|H]); apply N.eqb_eq in H; lia.
Qed.

Lemma delimited_not_digit (c : N) (tail : list N) :
  delimited (c :: tail) = true -> Json.is_digit c = false.
Proof.
  intros H%delimited_head. unfold Json.is_digit.
  destruct H as [-> | [-> | [-> | ->]]]; reflexivity.
Qed.

Lemma span_digits_delimited (rest : list N) :
  delimited rest = true -> Json.span_digits rest = ([], rest).
Proof.
  destruct rest as [|c tail]; [done|]. intros H%delimited_not_digit.
  cbn [Json.span_digits]. by rewrite H.
Qed.

Lemma span_digits_stable : stable Json.span_digits.
Proof.
  intros a. induction a as [|c a IH]; intros d r.
  - intros [= <- <-]. exists []. split; [done|]. intros rest Hr.
    by apply span_digits_delimited.
  - cbn [app Json.span_digits]. destruct (Json.is_digit c) eqn:Hc.
    + destruct (Json.span_digits (a ++ [44])) as [d' r'] eqn:E.
      destruct (IH d' r' eq_refl) as (r0 & -> & Hrest).
      intros [= <- <-]. exists r0. split; [done|]. intros rest Hr.
      by rewrite (Hrest rest Hr).
    + intros [= <- <-]. exists (c :: a). split; [done|]. done.
Qed.

Lemma int_part_stable (d0 : N) : stable (Json.int_part d0).
Proof.
  intros a d r. unfold Json.int_part. destruct (d0 =? 48).
  - intros [= <- <-]. by exists a.
  - destruct (Json.span_digits (a ++ [44])) as [d' r'] eqn:E.
    destruct (span_digits_stable a d' r' E) as (r0 & -> & Hrest).
    intros [= <- <-]. exists r0. split; [done|]. intros rest Hr.
    by rewrite (Hrest rest Hr).
Qed.

Lemma frac_part_stable : stable Json.frac_part.
Proof.
  intros [|p [|dg a]] d r.
  - intros [= <- <-]. exists []. split; [done|]. intros rest Hr.
    by apply no_fraction.
  - cbn [app Json.frac_part]. change (Json.is_digit 44) with false.
    rewrite andb_false_r. intros [= <- <-]. exists [p]. split; [done|].
    intros [|c tail] Hr; [done|]. cbn [app Json.frac_part].
    by rewrite (delimited_not_digit c tail Hr), andb_false_r.
  - cbn [app Json.frac_part]. destruct ((p =? 46) && Json.is_digit dg).
    + destruct (Json.span_digits (a ++ [44])) as [d' r'] eqn:E.
      destruct (span_digits_stable a d' r' E) as (r0 & -> & Hrest).
      intros [= <- <-]. exists r0. split; [done|]. intros rest Hr.
      by rewrite (Hrest rest Hr).
    + intros [= <- <-]. by exists (p :: dg :: a).
Qed.

Lemma exp_part_stable : stable Json.exp_part.
Proof.
  intros [|e [|c a]] d r.
  - intros [= <- <-]. exists []. split; [done|]. intros rest Hr.
    by apply no_exponent.
  - cbn [app Json.exp_part]. change ((44 =? 45) || (44 =? 43)) with false.
    cbv iota. cbn [Json.span_digits]. change (Json.is_digit 44) with false.
    cbv iota. intros H. assert (d = [] ∧ r = [e; 44]) as [-> ->].
    { destruct ((e =? 101) || (e =? 69)); by injection H as <- <-. }
    exists [e]. split; [done|].
    intros [|c tail] Hr; [done|]. cbn [app Json.exp_part].
    destruct (delimited_head c tail Hr) as [-> | [-> | [-> | ->]]];
      cbn [N.eqb Pos.eqb orb]; rewrite (span_digits_delimited _ Hr);
      by destruct ((e =? 101) || (e =? 69)).
  - cbn [app Json.exp_part]. destruct ((e =? 101) || (e =? 69)).
    + destruct ((c =? 45) || (c =? 43)).
      * destruct (Json.span_digits (a ++ [44])) as [d' r'] eqn:E.
        destruct (span_digits_stable a d' r' E) as (r0 & -> & Hrest).
        destruct d' as [|x d'].
        -- intros [= <- <-]. exists (e :: c :: a). split; [done|].
           intros rest Hr. by rewrite (Hrest rest Hr).
        -- intros [= <- <-]. exists r0. split; [done|].
           intros rest Hr. by rewrite (Hrest rest Hr).
      * change (c :: a ++ [44]) with ((c :: a) ++ [44]).
        destruct (Json.span_digits ((c :: a) ++ [44])) as [d' r'] eqn:E.
        destruct (span_digits_stable (c :: a) d' r' E) as (r0 & -> & Hrest).
        destruct d' as [|x d'].
        -- intros [= <- <-]. exists (e :: c :: a). split; [done|].
           intros rest Hr. change (c :: a ++ rest) with ((c :: a) ++ rest).
           by rewrite (Hrest rest Hr).
        -- intros [= <- <-]. exists r0. split; [done|].
           intros rest Hr. change (c :: a ++ rest) with ((c :: a) ++ rest).
           by rewrite (Hrest rest Hr).
    + intros [= <- <-]. by exists (e :: c :: a).
Qed.

Lemma sign_part_app (c : N) (a : list N) :
  ∃ neg a1, ∀ t, Json.sign_part ((c :: a) ++ t) = (neg, a1 ++ t).
Proof.
  unfold Json.sign_part. cbn [app]. destruct (c =? 45).
  - by exists true, a.
  - by exists false, (c :: a).
Qed.

Lemma match_number_stable (a : list N) (v : json) (r : list N) :
  Json.match_number (a ++ [44]) = Some (v, r) ->
  ∃ r0, r = r0 ++ [44]
        ∧ ∀ rest, delimited rest = true ->
            Json.match_number (a ++ rest) = Some (v, r0 ++ rest).
Proof.
  unfold Json.match_number. destruct a as [|c a]; [done|].
  destruct (sign_part_app c a) as (neg & a1 & Hsign). rewrite (Hsign [44]).
  destruct a1 as [|d0 a2]; [intros H; by vm_compute in H|].
  change ((d0 :: a2) ++ [44]) with (d0 :: a2 ++ [44]). cbv beta iota.
  destruct (Json.is_digit d0) eqn:Hd; [|done].
  destruct (Json.int_part d0 (a2 ++ [44])) as [ip r1] eqn:E1.
  destruct (int_part_stable d0 a2 ip r1 E1) as (x & -> & H1).
  destruct (Json.frac_part (x ++ [44])) as [fp r2] eqn:E2.
  destruct (frac_part_stable x fp r2 E2) as (y & -> & H2).
  destruct (Json.exp_part (y ++ [44])) as [ep r3] eqn:E3.
  destruct (exp_part_stable y ep r3 E3) as (z & -> & H3).
  intros H. exists z. split.
  - destruct (Py.nonempty fp || Py.nonempty ep); by injection H as _ <-.
  - intros rest Hr. rewrite (Hsign rest).
    change ((d0 :: a2) ++ rest) with (d0 :: a2 ++ rest). cbv beta iota.
    rewrite Hd.
    rewrite (H1 rest Hr), (H2 rest Hr), (H3 rest Hr).
    destruct (Py.nonempty fp || Py.nonempty ep); by injection H as <- _.
Qed.

Lemma match_number_float (s rest : list N) :
  float_ok (FLit s) = true -> delimited rest = true ->
  Json.match_number (s ++ rest) = Some (JFloat (FLit s), rest).
Proof.
  unfold float_ok. intros H Hr.
  destruct (Json.match_number (s ++ [44])) as [[[| | |[| |s']| | |] r]|] eqn:E;
    try done.
  apply andb_true_iff in H as [->%bool_decide_eq_true ->%bool_decide_eq_true].
  destruct (match_number_stable s _ _ E) as (r0 & Hr0 & Hrest).
  assert (r0 = []) as ->.
  { destruct r0 as [|x [|y r0]]; [done| |]; discriminate Hr0. }
  exact (Hrest rest Hr).
Qed.

Lemma match_number_head (s : list N) (r : json * list N) :
  Json.match_number s = Some r ->
  (∃ c tail, s = c :: tail ∧ 48 <= c <= 57)
  ∨ (∃ c tail, s = 45 :: c :: tail ∧ 48 <= c <= 57).
Proof.
  assert (∀ d, Json.is_digit d = true -> 48 <= d <= 57) as Hdigit.
  { intros d. unfold Json.is_digit.
    destruct (N.leb_spec 48 d), (N.leb_spec d 57); try done; lia. }
  unfold Json.match_number, Json.sign_part. destruct s as [|c s]; [done|].
  destruct (N.eqb_spec c 45) as [-> | Hc].
  - destruct s as [|d s]; [done|]. destruct (Json.is_digit d) eqn:Hd; [|done].
    intros _. right. exists d, s. split; [done|]. by apply Hdigit.
  - destruct (Json.is_digit c) eqn:Hd; [|done].
    intros _. left. exists c, s. split; [done|]. by apply Hdigit.
Qed.

Lemma scan_once_number (fuel : nat) (s : list N) (r : json * list N) :
  Json.match_number s = Some r -> representable r.1 = true ->
  Json.scan_once (S fuel) s = Ok r.
Proof.
  intros Hm Hz. pose proof (match_number_head s r Hm) as Hs.
  assert (∃ c tail, s = c :: tail ∧ c ≠ 34 ∧ c ≠ 123 ∧ c ≠ 91)
    as (c & tail & E & H1 & H2 & H3).
  { destruct Hs as [(c & tail & -> & Hc) | (c & tail & -> & Hc)];
      eexists _, _; (split; [reflexivity | lia]). }
  rewrite E, scan_once_plain by done. rewrite <- E.
  by apply scan_plain_number.
Qed.

Lemma scan_once_float (fuel : nat) (s rest : list N) :
  float_ok (FLit s) = true -> delimited rest = true ->
  Json.scan_once (S fuel) (s ++ rest) = Ok (JFloat (FLit s), rest).
Proof.
  intros Hs Hr. apply scan_once_number; [by apply match_number_float | exact Hs].
Qed.

(** *** Dicts with distinct keys *)

Lemma has_key_elem (k : list N) (ps : list (list N * json)) :
  has_key k ps = false <-> k ∉ ps.*1.
Proof.
  induction ps as [|[k' v] ps IH]; cbn [has_key fmap list_fmap fst].
  - split; [intros _; apply not_elem_of_nil | done].
  - rewrite orb_false_iff, bool_decide_eq_false, IH, not_elem_of_cons. done.
Qed.

Lemma representable_dict_NoDup (ps : list (list N * json)) :
  representable (JDict ps) = true -> NoDup ps.*1.
Proof.
  induction ps as [|[k v] ps IH]; [intros _; constructor|].
  change (representable (JDict ((k, v) :: ps)))
    with (negb (has_key k ps) && representable v && representable (JDict ps)).
  intros [[H1 _]%andb_true_iff H2]%andb_true_iff.
  cbn [fmap list_fmap fst]. constructor; [|by apply IH].
  apply has_key_elem. by apply negb_true_iff.
Qed.

Lemma dict_set_fresh (k : list N) (v : json) (ps : list (list N * json)) :
  k ∉ ps.*1 -> Json.dict_set k v ps = ps ++ [(k, v)].
Proof.
  induction ps as [|[k' v'] ps IH]; [done|].
  cbn [fmap list_fmap fst Json.dict_set app]. intros [H1 H2]%not_elem_of_cons.
  rewrite decide_False by done. by rewrite IH.
Qed.

Lemma dict_of_distinct (ps : list (list N * json)) :
  NoDup ps.*1 -> Json.dict_of ps = ps.
Proof.
  unfold Json.dict_of.
  enough (∀ acc, NoDup (acc.*1 ++ ps.*1) ->
            foldl (fun d kv => Json.dict_set kv.1 kv.2 d) acc ps = acc ++ ps)
    as H by (intros Hps; exact (H [] Hps)).
  induction ps as [|[k v] ps IH]; intros acc Hnd.
  - by rewrite app_nil_r.
  - cbn [foldl fst snd]. cbn [fmap list_fmap fst] in Hnd.
    rewrite dict_set_fresh.
    + rewrite IH; [by rewrite <- app_assoc|].
      rewrite fmap_app, <- app_assoc. exact Hnd.
    + apply NoDup_app in Hnd as (_ & Hnd & _). intros Hk.
      apply (Hnd k Hk). apply elem_of_cons. by left.
Qed.

(** *** Reading back what [iterencode] writes *)

Lemma representable_cons (x : json) (xs : list json) :
  representable (JList (x :: xs)) = true ->
  representable x = true ∧ representable (JList xs) = true.
Proof.
  change (representable (JList (x :: xs)))
    with (representable x && representable (JList xs)).
  by intros ?%andb_true_iff.
Qed.

Lemma representable_entry (k : list N) (x : json) (ps : list (list N * json)) :
  representable (JDict ((k, x) :: ps)) = true ->
  representable x = true ∧ representable (JDict ps) = true.
Proof.
  change (representable (JDict ((k, x) :: ps)))
    with (negb (has_key k ps) && representable x && representable (JDict ps)).
  intros [[_ H1]%andb_true_iff H2]%andb_true_iff. done.
Qed.

Lemma skip_ws_value (i : option nat) (l : nat) (v : json) (rest : list N) :
  representable v = true ->
  Json.skip_ws (Json.iterencode i l v ++ rest) = Json.iterencode i l v ++ rest.
Proof. intros Hv. apply skip_ws_starts_value. by apply iterencode_head. Qed.

Lemma delimited_list_tail (i : option nat) (l l0 : nat) (xs : list json)
    (rest : list N) :
  delimited (list_tail i l xs ++ Json.newline_indent i l0 ++ 93 :: rest) = true.
Proof.
  destruct xs as [|y ys].
  - apply delimited_newline_indent. by left.
  - cbn [list_tail]. rewrite <- app_assoc. apply delimited_item_separator.
Qed.

Lemma delimited_dict_tail (i : option nat) (l l0 : nat)
    (ps : list (list N * json)) (rest : list N) :
  delimited (dict_tail i l ps ++ Json.newline_indent i l0 ++ 125 :: rest) = true.
Proof.
  destruct ps as [|[k y] ps].
  - apply delimited_newline_indent. by right.
  - cbn [dict_tail]. rewrite <- app_assoc. apply delimited_item_separator.
Qed.

Lemma array_loop_items (i : option nat) (l l0 : nat) (rest : list N)
    (xs : list json) :
  ∀ (x : json) (fuel : nat),
    Forall scans_back (x :: xs) ->
    representable (JList (x :: xs)) = true ->
    (1 + 2 * nodes_list (x :: xs) <= fuel)%nat ->
    Json.array_loop fuel
      (Json.iterencode i l x ++ list_tail i l xs
       ++ Json.newline_indent i l0 ++ 93 :: rest)
    = Ok (x :: xs, rest).
Proof.
  induction xs as [|y ys IH]; intros x fuel [Hx Hxs]%Forall_cons
    [Rx Rxs]%representable_cons Hfuel;
    (destruct fuel as [|fuel]; [cbn in Hfuel; lia|]);
    cbn [nodes_list] in Hfuel; cbn [Json.array_loop].
  - rewrite (Hx i l fuel); [|done|apply delimited_list_tail|lia].
    cbn [list_tail app]. unfold mbind, result_bind at 1.
    rewrite skip_ws_newline_indent. cbn [Json.skip_ws].
    change (Json.is_ws 93) with false. cbv iota. by rewrite (N.eqb_refl 93).
  - rewrite (Hx i l fuel); [|done|apply delimited_list_tail|lia].
    unfold mbind, result_bind at 1. cbn [list_tail]. rewrite <- !app_assoc.
    destruct (skip_ws_item_separator i l
                (Json.iterencode i l y ++ list_tail i l ys
                 ++ Json.newline_indent i l0 ++ 93 :: rest))
      as (r & -> & Hr).
    cbn [Json.skip_ws]. change (Json.is_ws 44) with false. cbv iota.
    change (44 =? 93) with false. rewrite (N.eqb_refl 44). cbv iota.
    apply representable_cons in Rxs as Ry.
    rewrite Hr, skip_ws_value by apply Ry.
    rewrite (IH y fuel Hxs Rxs); [done|].
    pose proof (nodes_pos x). cbn [nodes_list]. lia.
Qed.

Lemma object_loop_items (i : option nat) (l l0 : nat) (rest : list N)
    (ps : list (list N * json)) :
  ∀ (k : list N) (x : json) (fuel : nat),
    Forall (fun kv => scans_back kv.2) ((k, x) :: ps) ->
    representable (JDict ((k, x) :: ps)) = true ->
    (1 + 2 * nodes_dict ((k, x) :: ps) <= fuel)%nat ->
    Json.object_loop fuel
      (Json.encode_basestring k ++ Json.key_separator
       ++ Json.iterencode i l x ++ dict_tail i l ps
       ++ Json.newline_indent i l0 ++ 125 :: rest)
    = Ok ((k, x) :: ps, rest).
Proof.
  induction ps as [|[k' y] ps IH]; intros k x fuel [Hx Hps]%Forall_cons
    [Rx Rps]%representable_entry Hfuel;
    (destruct fuel as [|fuel]; [cbn in Hfuel; lia|]);
    cbn [nodes_dict] in Hfuel; cbn [snd] in Hx;
    rewrite encode_basestring_app; cbn [Json.object_loop];
    rewrite (N.eqb_refl 34), scanstring_escaped;
    unfold mbind at 1, result_bind at 1; unfold Json.key_separator;
    cbn [app Json.skip_ws]; change (Json.is_ws 58) with false; cbv iota;
    rewrite (N.eqb_refl 58);
    change (Json.skip_ws (32 :: ?s)) with (Json.skip_ws s);
    rewrite skip_ws_value by done.
  - rewrite (Hx i l fuel); [|done|apply delimited_dict_tail|lia].
    cbn [dict_tail app]. unfold mbind, result_bind at 1.
    rewrite skip_ws_newline_indent. cbn [Json.skip_ws].
    change (Json.is_ws 125) with false. cbv iota. by rewrite (N.eqb_refl 125).
  - rewrite (Hx i l fuel); [|done|apply delimited_dict_tail|lia].
    unfold mbind, result_bind at 1. cbn [dict_tail]. rewrite <- !app_assoc.
    destruct (skip_ws_item_separator i l
                (Json.encode_basestring k' ++ Json.key_separator
                 ++ Json.iterencode i l y ++ dict_tail i l ps
                 ++ Json.newline_indent i l0 ++ 125 :: rest))
      as (r & -> & Hr).
    cbn [Json.skip_ws]. change (Json.is_ws 44) with false. cbv iota.
    change (44 =? 125) with false. rewrite (N.eqb_refl 44). cbv iota.
    rewrite Hr. rewrite (encode_basestring_app k') at 1.
    cbn [Json.skip_ws]. change (Json.is_ws 34) with false. cbv iota.
    rewrite <- (encode_basestring_app k').
    rewrite (IH k' y fuel Hps Rps); [done|].
    pose proof (nodes_pos x). cbn [nodes_dict]. lia.
Qed.

Lemma iterencode_list_app (i : option nat) (l : nat) (x : json) (xs : list json)
    (rest : list N) :
  Json.iterencode i l (JList (x :: xs)) ++ rest
  = 91 :: Json.newline_indent i (S l) ++ Json.iterencode i (S l) x
    ++ list_tail i (S l) xs ++ Json.newline_indent i l ++ 93 :: rest.
Proof. rewrite iterencode_list. cbn [app]. by rewrite <- !app_assoc. Qed.

Lemma iterencode_dict_app (i : option nat) (l : nat) (k : list N) (x : json)
    (ps : list (list N * json)) (rest : list N) :
  Json.iterencode i l (JDict ((k, x) :: ps)) ++ rest
  = 123 :: Json.newline_indent i (S l) ++ Json.encode_basestring k
    ++ Json.key_separator ++ Json.iterencode i (S l) x
    ++ dict_tail i (S l) ps ++ Json.newline_indent i l ++ 125 :: rest.
Proof. rewrite iterencode_dict. cbn [app]. by rewrite <- !app_assoc. Qed.

Lemma scan_once_iterencode (v : json) : scans_back v.
Proof.
  induction v as [|b|z|f|s|xs IH|ps IH] using json_nested_ind;
    intros i l fuel rest Hv Hr Hfuel;
    (destruct fuel as [|fuel];
     [match type of Hfuel with
      | (2 * nodes ?v <= _)%nat => pose proof (nodes_pos v); lia
      end|]).
  - apply scan_once_constants.
  - destruct b; apply scan_once_constants.
  - by apply scan_once_int.
  - destruct f as [| |s]; try done. by apply scan_once_float.
  - apply scan_once_string.
  - destruct xs as [|x xs]; [reflexivity|].
    rewrite (iterencode_list_app i l x xs rest). cbn [Json.scan_once].
    change (91 =? 34) with false. change (91 =? 123) with false.
    rewrite (N.eqb_refl 91). cbv iota.
    apply representable_cons in Hv as Hx. destruct Hx as [Hx _].
    rewrite skip_ws_newline_indent, skip_ws_value by done.
    destruct (iterencode_head i (S l) x Hx) as (c & tail & E & _ & Hc & _).
    rewrite E at 1. cbn [app]. rewrite (proj2 (N.eqb_neq c 93)) by done.
    change (c :: tail ++ ?t) with ((c :: tail) ++ t). rewrite <- E.
    rewrite (array_loop_items i (S l) l rest xs x fuel IH Hv); [done|].
    rewrite nodes_JList in Hfuel. lia.
  - destruct ps as [|[k x] ps]; [reflexivity|].
    rewrite (iterencode_dict_app i l k x ps rest). cbn [Json.scan_once].
    change (123 =? 34) with false. rewrite (N.eqb_refl 123). cbv iota.
    rewrite skip_ws_newline_indent.
    rewrite (encode_basestring_app k) at 1.
    cbn [Json.skip_ws]. change (Json.is_ws 34) with false. cbv iota.
    change (34 =? 125) with false. cbv iota.
    rewrite <- (encode_basestring_app k).
    rewrite (object_loop_items i (S l) l rest ps k x fuel IH Hv).
    + unfold mbind, result_bind, mret, result_ret.
      by rewrite (dict_of_distinct _ (representable_dict_NoDup _ Hv)).
    + rewrite nodes_JDict in Hfuel. lia.
Qed.

(** *** Enough fuel for the whole text *)

Lemma nodes_le_length (v : json) :
  ∀ i l, representable v = true -> (nodes v <= length (Json.iterencode i l v))%nat.
Proof.
  assert (∀ i l w, representable w = true ->
            (1 <= length (Json.iterencode i l w))%nat) as Hleaf.
  { intros i l w Hw. destruct (iterencode_head i l w Hw) as (c & tail & -> & _).
    cbn [length]. lia. }
  induction v as [|b|z|f|s|xs IH|ps IH] using json_nested_ind; intros i l Hv;
    try (by apply Hleaf).
  - destruct xs as [|x xs]; [vm_compute; lia|].
    rewrite iterencode_list, nodes_JList. cbn [length nodes_list].
    rewrite !length_app.
    apply Forall_cons in IH as [IHx IHxs].
    apply representable_cons in Hv as [Hx Hxs].
    pose proof (IHx i (S l) Hx).
    enough (nodes_list xs <= length (list_tail i (S l) xs))%nat by lia.
    clear -IHxs Hxs. induction xs as [|y ys IHys]; [done|].
    apply Forall_cons in IHxs as [IHy IHxs].
    apply representable_cons in Hxs as [Hy Hys].
    cbn [nodes_list list_tail]. rewrite !length_app.
    pose proof (IHy i (S l) Hy). pose proof (IHys IHxs Hys). lia.
  - destruct ps as [|[k x] ps]; [vm_compute; lia|].
    rewrite iterencode_dict, nodes_JDict. cbn [length nodes_dict].
    rewrite !length_app.
    apply Forall_cons in IH as [IHx IHps]. cbn [snd] in IHx.
    apply representable_entry in Hv as [Hx Hps].
    pose proof (IHx i (S l) Hx).
    enough (nodes_dict ps <= length (dict_tail i (S l) ps))%nat by lia.
    clear -IHps Hps. induction ps as [|[k' y] ps IHps']; [done|].
    apply Forall_cons in IHps as [IHy IHps]. cbn [snd] in IHy.
    apply representable_entry in Hps as [Hy Hps].
    cbn [nodes_dict dict_tail]. rewrite !length_app.
    pose proof (IHy i (S l) Hy). pose proof (IHps' IHps Hps). lia.
Qed.

Lemma loads_dumps (indent : option nat) (v : json) :
  representable v = true -> Json.loads (Json.dumps indent v) = Ok v.
Proof.
  intros Hv. unfold Json.loads, Json.dumps.
  pose proof (iterencode_head indent 0 v Hv) as (c & tail & E & Hws & _ & _ & Hbom).
  assert (Py.startswith [65279] (Json.iterencode indent 0 v) = false) as ->.
  { rewrite E. cbn [Py.startswith]. by rewrite (proj2 (N.eqb_neq 65279 c)). }
  rewrite <- (app_nil_r (Json.iterencode indent 0 v)) at 2.
  rewrite skip_ws_value by done.
  rewrite (scan_once_iterencode v indent 0%nat _ [] Hv eq_refl); [done|].
  pose proof (nodes_le_length v indent 0%nat Hv). lia.
Qed.

(** ** The loaders *)

(** What one file contributes: the [polymer_data] field of the JSON object
    that the stripped content decodes to. *)
Lemma for_each_ext (f g : N -> result json) (numbers : list N) (poly : list json) :
  (∀ i, i ∈ numbers -> f i = g i) ->
  Loader.for_each f numbers poly = Loader.for_each g numbers poly.
Proof.
  revert poly. induction numbers as [|i numbers IH]; intros poly H; simpl; [done|].
  rewrite (H i) by apply list_elem_of_here.
  destruct (g i) as [x|e]; simpl; [|done].
  apply IH. intros j Hj. apply H. by apply list_elem_of_further.
Qed.

Lemma for_each_ok (f : N -> result json) (numbers : list N) (poly out : list json) :
  Loader.for_each f numbers poly = Ok out ->
  ∃ xs, out = poly ++ xs ∧ Forall2 (fun i x => f i = Ok x) numbers xs.
Proof.
  revert poly. induction numbers as [|i numbers IH]; intros poly; simpl.
  - intros [= <-]. exists []. by rewrite app_nil_r.
  - destruct (f i) as [x|e] eqn:E; simpl; [|done].
    intros H. apply IH in H as (xs & -> & F). exists (x :: xs).
    rewrite <- app_assoc. split; [done|]. by constructor.
Qed.

Lemma for_each_total (f : N -> result json) (numbers : list N) (poly : list json) :
  (∀ i, i ∈ numbers -> ∃ x, f i = Ok x) ->
  ∃ out, Loader.for_each f numbers poly = Ok out.
Proof.
  revert poly. induction numbers as [|i numbers IH]; intros poly H; simpl; [eauto|].
  destruct (H i) as [x ->]; [apply list_elem_of_here|]. simpl.
  apply IH. intros j Hj. apply H. by apply list_elem_of_further.
Qed.

Lemma range_1_65_lookup (k : nat) :
  (k < 64)%nat -> Loader.range_1_65 !! k = Some (N.of_nat (S k)).
Proof.
  intros Hk. unfold Loader.range_1_65. rewrite list_lookup_fmap.
  by rewrite lookup_seq_lt.
Qed.

Lemma range_1_65_elem (i : N) : i ∈ Loader.range_1_65 -> 1 <= i <= 64.
Proof.
  unfold Loader.range_1_65. intros H. apply list_elem_of_fmap in H as (n & -> & H).
  apply elem_of_seq in H. lia.
Qed.

(** C10: when the 64 files [b64_1.txt] ... [b64_64.txt] have the same
    contents under both directories, [load_poly] and [load_poly_lvl1] end
    the same way, with the same list or the same exception.  A list they
    return has exactly 64 elements, the one at position [k] being the
    [polymer_data] field of what file number [k + 1] decodes to; and they do
    return a list when every file can be read and decoded. *)
Theorem loaders_agree (read0 read1 : str -> result str) :
  (∀ i, 1 <= i <= 64 ->
     read0 (lit "./data/b64_" ++ Py.str_of_N i ++ lit ".txt")
     = read1 (lit "../data/lvl1_b64/b64_" ++ Py.str_of_N i ++ lit ".txt")) ->
  Loader.load_poly read0 = Loader.load_poly_lvl1 read1
  ∧ (∀ poly, Loader.load_poly read0 = Ok poly ->
       length poly = 64%nat
       ∧ ∀ k, (k < 64)%nat ->
           ∃ content x,
             read0 (lit "./data/b64_" ++ Py.str_of_N (N.of_nat (S k)) ++ lit ".txt")
             = Ok content
             ∧ polymer_data_of content = Ok x
             ∧ poly !! k = Some x)
  ∧ ((∀ i, 1 <= i <= 64 ->
        ∃ content x,
          read0 (lit "./data/b64_" ++ Py.str_of_N i ++ lit ".txt") = Ok content
          ∧ polymer_data_of content = Ok x) ->
     ∃ poly, Loader.load_poly read0 = Ok poly).
Proof.
  intros Hsame. split; [|split].
  - unfold Loader.load_poly, Loader.load_poly_lvl1. apply for_each_ext.
    intros i Hi. by rewrite (Hsame i (range_1_65_elem i Hi)).
  - intros poly H. unfold Loader.load_poly in H.
    apply for_each_ok in H as (xs & -> & F). simpl.
    pose proof (Forall2_length _ _ _ F) as Hlen.
    assert (length Loader.range_1_65 = 64%nat) as Hl by reflexivity.
    split; [lia|]. intros k Hk.
    destruct (lookup_lt_is_Some_2 xs k) as [x Hx]; [lia|].
    pose proof (Forall2_lookup_lr _ _ _ _ _ _ F (range_1_65_lookup k Hk) Hx) as Hb.
    simpl in Hb.
    destruct (read0 _) as [content|e] eqn:Hr; [|done]. simpl in Hb.
    exists content, x. split; [done|]. split; [exact Hb | exact Hx].
  - intros Hall. unfold Loader.load_poly. apply for_each_total.
    intros i Hi. destruct (Hall i (range_1_65_elem i Hi)) as (content & x & Hr & Hd).
    exists x. rewrite Hr. exact Hd.
Qed.

(** ** base64 *)

Ltac Zify.zify_post_hook ::= Z.to_euclidean_division_equations.

(** ** Bit operations as arithmetic *)

Lemma testbit_small (y k i : N) : y < 2 ^ k -> k <= i -> N.testbit y i = false.
Proof.
  intros Hy Hi. destruct (N.eq_dec y 0) as [->|Hn]; [apply N.bits_0|].
  apply N.bits_above_log2. apply N.lt_le_trans with k; [|done].
  apply N.log2_lt_pow2; lia.
Qed.

Lemma lor_shiftl (x y k : N) : y < 2 ^ k -> N.lor (N.shiftl x k) y = x * 2 ^ k + y.
Proof.
  intros Hy. rewrite N.shiftl_mul_pow2.
  assert (N.land (x * 2 ^ k) y = 0) as H0.
  { apply N.bits_inj. intros i. rewrite N.land_spec, N.bits_0.
    destruct (N.lt_ge_cases i k) as [Hi|Hi].
    - by rewrite N.mul_pow2_bits_low.
    - by rewrite (testbit_small y k i), andb_false_r. }
  by rewrite <- N.lxor_lor, <- N.add_nocarry_lxor.
Qed.

Lemma land_mask (a k : N) : N.land a (2 ^ k - 1) = a mod 2 ^ k.
Proof. rewrite <- N.land_ones. f_equal. rewrite N.ones_equiv. lia. Qed.

Lemma shiftr_div (a k : N) : N.shiftr a k = a / 2 ^ k.
Proof. apply N.shiftr_div_pow2. Qed.

(** ** base64 *)

Lemma table_b2a_inv (v : N) :
  v < 64 ->
  (Base64.table_b2a v =? Base64.BASE64_PAD) = false
  ∧ Base64.table_a2b (Base64.table_b2a v) = Some v
  ∧ Base64.table_b2a v < 128.
Proof.
  intros Hv.
  pose proof (below_forallb
    (fun v => negb (Base64.table_b2a v =? Base64.BASE64_PAD)
              && bool_decide (Base64.table_a2b (Base64.table_b2a v) = Some v)
              && (Base64.table_b2a v <? 128)) 64 eq_refl v Hv) as H.
  simpl in H. apply andb_true_iff in H as [H H3]. apply andb_true_iff in H as [H1 H2].
  apply negb_true_iff in H1. apply bool_decide_eq_true in H2. apply N.ltb_lt in H3.
  done.
Qed.

(** The three bytes of a group come back from its four characters. *)
Lemma quad_bytes (a b c : N) :
  a < 256 -> b < 256 -> c < 256 ->
  let v1 := N.shiftr a 2 in
  let v2 := N.lor (N.shiftl (N.land a 3) 4) (N.shiftr b 4) in
  let v3 := N.lor (N.shiftl (N.land b 15) 2) (N.shiftr c 6) in
  let v4 := N.land c 63 in
  v1 < 64 ∧ v2 < 64 ∧ v3 < 64 ∧ v4 < 64
  ∧ Base64.u8 (N.lor (N.shiftl v1 2) (N.shiftr v2 4)) = a
  ∧ Base64.u8 (N.lor (N.shiftl (N.land v2 15) 4) (N.shiftr v3 2)) = b
  ∧ Base64.u8 (N.lor (N.shiftl (N.land v3 3) 6) v4) = c.
Proof.
  intros Ha Hb Hc v1 v2 v3 v4. subst v1 v2 v3 v4. unfold Base64.u8.
  change 3 with (2 ^ 2 - 1). change 15 with (2 ^ 4 - 1).
  change 63 with (2 ^ 6 - 1). change 255 with (2 ^ 8 - 1).
  rewrite !land_mask, !shiftr_div.
  rewrite (lor_shiftl (a mod 2 ^ 2) (b / 2 ^ 4) 4) by (simpl; lia).
  rewrite (lor_shiftl (b mod 2 ^ 4) (c / 2 ^ 6) 2) by (simpl; lia).
  rewrite (lor_shiftl (a / 2 ^ 2) _ 2) by (simpl; lia).
  rewrite (lor_shiftl _ _ 4) by (simpl; lia).
  rewrite (lor_shiftl _ _ 6) by (simpl; lia).
  simpl (2 ^ _). repeat split; lia.
Qed.

Lemma quad_last1 (a : N) :
  a < 256 ->
  let v1 := N.shiftr a 2 in
  let v2 := N.shiftl (N.land a 3) 4 in
  v1 < 64 ∧ v2 < 64 ∧ Base64.u8 (N.lor (N.shiftl v1 2) (N.shiftr v2 4)) = a.
Proof.
  intros Ha v1 v2. subst v1 v2. unfold Base64.u8.
  change 3 with (2 ^ 2 - 1). change 255 with (2 ^ 8 - 1).
  rewrite !land_mask, !shiftr_div, !N.shiftl_mul_pow2.
  rewrite <- (N.shiftl_mul_pow2 (a / 2 ^ 2) 2).
  rewrite (lor_shiftl (a / 2 ^ 2) _ 2) by (simpl; lia).
  simpl (2 ^ _). repeat split; lia.
Qed.

Lemma quad_last2 (a b : N) :
  a < 256 -> b < 256 ->
  let v1 := N.shiftr a 2 in
  let v2 := N.lor (N.shiftl (N.land a 3) 4) (N.shiftr b 4) in
  let v3 := N.shiftl (N.land b 15) 2 in
  v1 < 64 ∧ v2 < 64 ∧ v3 < 64
  ∧ Base64.u8 (N.lor (N.shiftl v1 2) (N.shiftr v2 4)) = a
  ∧ Base64.u8 (N.lor (N.shiftl (N.land v2 15) 4) (N.shiftr v3 2)) = b.
Proof.
  intros Ha Hb v1 v2 v3. subst v1 v2 v3. unfold Base64.u8.
  change 3 with (2 ^ 2 - 1). change 15 with (2 ^ 4 - 1). change 255 with (2 ^ 8 - 1).
  rewrite !land_mask, !shiftr_div.
  rewrite (lor_shiftl (a mod 2 ^ 2) (b / 2 ^ 4) 4) by (simpl; lia).
  rewrite (N.shiftl_mul_pow2 (b mod 2 ^ 4) 2).
  rewrite (lor_shiftl (a / 2 ^ 2) _ 2) by (simpl; lia).
  rewrite (lor_shiftl _ _ 4) by (simpl; lia).
  simpl (2 ^ _). repeat split; lia.
Qed.

Lemma a2b_loop_quad (v1 v2 v3 v4 : N) (rest : list N) :
  v1 < 64 -> v2 < 64 -> v3 < 64 -> v4 < 64 ->
  Base64.a2b_loop 0 0 0
    (Base64.table_b2a v1 :: Base64.table_b2a v2 :: Base64.table_b2a v3
     :: Base64.table_b2a v4 :: rest)
  = emit (Base64.u8 (N.lor (N.shiftl v1 2) (N.shiftr v2 4)))
      (emit (Base64.u8 (N.lor (N.shiftl (N.land v2 15) 4) (N.shiftr v3 2)))
         (emit (Base64.u8 (N.lor (N.shiftl (N.land v3 3) 6) v4))
            (Base64.a2b_loop 0 0 0 rest))).
Proof.
  intros H1 H2 H3 H4.
  destruct (table_b2a_inv v1 H1) as (P1 & T1 & _).
  destruct (table_b2a_inv v2 H2) as (P2 & T2 & _).
  destruct (table_b2a_inv v3 H3) as (P3 & T3 & _).
  destruct (table_b2a_inv v4 H4) as (P4 & T4 & _).
  cbn [Base64.a2b_loop]. rewrite P1, T1. cbn [N.eqb].
  rewrite P2, T2. cbn [N.eqb Pos.eqb].
  rewrite P3, T3. cbn [N.eqb Pos.eqb].
  rewrite P4, T4. cbn [N.eqb Pos.eqb]. reflexivity.
Qed.

Lemma a2b_loop_pad2 (v1 v2 : N) :
  v1 < 64 -> v2 < 64 ->
  Base64.a2b_loop 0 0 0
    [Base64.table_b2a v1; Base64.table_b2a v2; Base64.BASE64_PAD; Base64.BASE64_PAD]
  = Ok [Base64.u8 (N.lor (N.shiftl v1 2) (N.shiftr v2 4))].
Proof.
  intros H1 H2.
  destruct (table_b2a_inv v1 H1) as (P1 & T1 & _).
  destruct (table_b2a_inv v2 H2) as (P2 & T2 & _).
  cbn [Base64.a2b_loop]. rewrite P1, T1. cbn [N.eqb].
  rewrite P2, T2. cbn [N.eqb Pos.eqb]. reflexivity.
Qed.

Lemma a2b_loop_pad1 (v1 v2 v3 : N) :
  v1 < 64 -> v2 < 64 -> v3 < 64 ->
  Base64.a2b_loop 0 0 0
    [Base64.table_b2a v1; Base64.table_b2a v2; Base64.table_b2a v3; Base64.BASE64_PAD]
  = Ok [Base64.u8 (N.lor (N.shiftl v1 2) (N.shiftr v2 4));
        Base64.u8 (N.lor (N.shiftl (N.land v2 15) 4) (N.shiftr v3 2))].
Proof.
  intros H1 H2 H3.
  destruct (table_b2a_inv v1 H1) as (P1 & T1 & _).
  destruct (table_b2a_inv v2 H2) as (P2 & T2 & _).
  destruct (table_b2a_inv v3 H3) as (P3 & T3 & _).
  cbn [Base64.a2b_loop]. rewrite P1, T1. cbn [N.eqb].
  rewrite P2, T2. cbn [N.eqb Pos.eqb].
  rewrite P3, T3. cbn [N.eqb Pos.eqb]. reflexivity.
Qed.

Lemma b64_three_at_a_time (P : list N -> Prop) :
  P [] -> (∀ a, P [a]) -> (∀ a b, P [a; b]) ->
  (∀ a b c rest, P rest -> P (a :: b :: c :: rest)) ->
  ∀ l, P l.
Proof.
  intros H0 H1 H2 H3.
  assert (∀ l, P l ∧ (∀ a, P (a :: l)) ∧ (∀ a b, P (a :: b :: l))) as H.
  { induction l as [|c l (IH0 & IH1 & IH2)]; [by auto|].
    split; [apply IH1|]. split; [intros a; apply IH2|]. intros a b. by apply H3. }
  intros l. apply H.
Qed.

Lemma a2b_b64encode (data : list N) :
  Forall (fun b => b < 256) data ->
  Base64.a2b_base64 (Base64.b64encode data) = Ok data
  ∧ forallb (fun c => c <? 128) (Base64.b64encode data) = true.
Proof.
  unfold Base64.a2b_base64.
  induction data as [|a|a b|a b c rest IH] using b64_three_at_a_time; intros Hall.
  - done.
  - apply Forall_cons in Hall as [Ha _].
    destruct (quad_last1 a Ha) as (H1 & H2 & E1).
    cbn [Base64.b64encode]. rewrite a2b_loop_pad2, E1 by done. split; [done|].
    cbn [forallb]. destruct (table_b2a_inv _ H1) as (_ & _ & ->%N.ltb_lt).
    destruct (table_b2a_inv _ H2) as (_ & _ & ->%N.ltb_lt). done.
  - apply Forall_cons in Hall as [Ha Hall]. apply Forall_cons in Hall as [Hb _].
    destruct (quad_last2 a b Ha Hb) as (H1 & H2 & H3 & E1 & E2).
    cbn [Base64.b64encode]. rewrite a2b_loop_pad1, E1, E2 by done. split; [done|].
    cbn [forallb]. destruct (table_b2a_inv _ H1) as (_ & _ & ->%N.ltb_lt).
    destruct (table_b2a_inv _ H2) as (_ & _ & ->%N.ltb_lt).
    destruct (table_b2a_inv _ H3) as (_ & _ & ->%N.ltb_lt). done.
  - apply Forall_cons in Hall as [Ha Hall]. apply Forall_cons in Hall as [Hb Hall].
    apply Forall_cons in Hall as [Hc Hall].
    destruct (quad_bytes a b c Ha Hb Hc) as (H1 & H2 & H3 & H4 & E1 & E2 & E3).
    destruct (IH Hall) as [IH1 IH2].
    cbn [Base64.b64encode]. rewrite a2b_loop_quad, E1, E2, E3, IH1 by done.
    split; [done|].
    cbn [forallb]. destruct (table_b2a_inv _ H1) as (_ & _ & ->%N.ltb_lt).
    destruct (table_b2a_inv _ H2) as (_ & _ & ->%N.ltb_lt).
    destruct (table_b2a_inv _ H3) as (_ & _ & ->%N.ltb_lt).
    destruct (table_b2a_inv _ H4) as (_ & _ & ->%N.ltb_lt). done.
Qed.

Lemma b64decode_b64encode (data : list N) :
  Forall (fun b => b < 256) data ->
  Base64.b64decode (Base64.b64encode data) = Ok data.
Proof.
  intros H. destruct (a2b_b64encode data H) as [H1 H2].
  unfold Base64.b64decode. by rewrite H2.
Qed.

(** ** UTF-8 *)

Ltac norm_pow :=
  change (2 ^ 6) with 64; change (2 ^ 12) with 4096; change (2 ^ 18) with 262144.

(** A leading byte [tag * 2^k + x] with [x < 2^k]. *)
Lemma lor_tag (tag k x : N) (hi : N) :
  hi = tag * 2 ^ k -> x < 2 ^ k -> N.lor hi x = hi + x.
Proof.
  intros -> Hx. rewrite <- (N.shiftl_mul_pow2 tag k) at 1.
  rewrite lor_shiftl by done. done.
Qed.

Lemma low6_mod (b : N) : Utf8.low6 b = b mod 64.
Proof. unfold Utf8.low6. change 63 with (2 ^ 6 - 1). by rewrite land_mask. Qed.

Lemma cont_byte (r : N) : r < 64 -> Utf8.cont (128 + r) = true ∧ Utf8.low6 (128 + r) = r.
Proof.
  intros Hr. split.
  - unfold Utf8.cont. apply andb_true_iff. split; apply N.leb_le; lia.
  - rewrite low6_mod. lia.
Qed.

Lemma encode_char_1 (c : N) : c < 128 -> Utf8.encode_char c = [c].
Proof. intros H. unfold Utf8.encode_char. by rewrite (proj2 (N.ltb_lt _ _) H). Qed.

Lemma encode_char_2 (c : N) :
  128 <= c < 2048 ->
  ∃ q r, c = q * 64 + r ∧ 2 <= q < 32 ∧ r < 64
         ∧ Utf8.encode_char c = [192 + q; 128 + r].
Proof.
  intros H. exists (c / 64), (c mod 64).
  split; [lia|]. split; [lia|]. split; [lia|].
  unfold Utf8.encode_char.
  rewrite (proj2 (N.ltb_ge _ _)), (proj2 (N.ltb_lt c 2048)) by lia.
  rewrite low6_mod, shiftr_div. norm_pow.
  rewrite (lor_tag 3 6 (c / 64) 192), (lor_tag 1 7 (c mod 64) 128) by (simpl; lia).
  done.
Qed.

Lemma encode_char_3 (c : N) :
  2048 <= c < 65536 ->
  ∃ p q r, c = (p * 64 + q) * 64 + r ∧ p < 16 ∧ q < 64 ∧ r < 64
           ∧ Utf8.encode_char c = [224 + p; 128 + q; 128 + r].
Proof.
  intros H. exists (c / 4096), ((c / 64) mod 64), (c mod 64).
  split; [lia|]. split; [lia|]. split; [lia|]. split; [lia|].
  unfold Utf8.encode_char.
  rewrite (proj2 (N.ltb_ge c 128)), (proj2 (N.ltb_ge c 2048)),
    (proj2 (N.ltb_lt c 65536)) by lia.
  rewrite !low6_mod, !shiftr_div. norm_pow.
  rewrite (lor_tag 7 5 (c / 4096) 224), (lor_tag 1 7 (c mod 64) 128),
    (lor_tag 1 7 (c / 64 mod 64) 128) by (simpl; lia).
  done.
Qed.

Lemma encode_char_4 (c : N) :
  65536 <= c <= 1114111 ->
  ∃ o p q r, c = ((o * 64 + p) * 64 + q) * 64 + r
             ∧ o < 5 ∧ p < 64 ∧ q < 64 ∧ r < 64
             ∧ Utf8.encode_char c = [240 + o; 128 + p; 128 + q; 128 + r].
Proof.
  intros H. exists (c / 262144), ((c / 4096) mod 64), ((c / 64) mod 64), (c mod 64).
  split; [lia|]. split; [lia|]. split; [lia|]. split; [lia|]. split; [lia|].
  unfold Utf8.encode_char.
  rewrite (proj2 (N.ltb_ge c 128)), (proj2 (N.ltb_ge c 2048)),
    (proj2 (N.ltb_ge c 65536)) by lia.
  rewrite !low6_mod, !shiftr_div. norm_pow.
  rewrite (lor_tag 15 4 (c / 262144) 240), (lor_tag 1 7 (c mod 64) 128),
    (lor_tag 1 7 (c / 64 mod 64) 128), (lor_tag 1 7 (c / 4096 mod 64) 128)
    by (simpl; lia).
  done.
Qed.

Lemma decode_1 (c : N) (rest : list N) :
  c < 128 -> Utf8.decode (c :: rest) = emit c (Utf8.decode rest).
Proof. intros H. cbn [Utf8.decode]. by solve_cmp. Qed.

Lemma decode_2 (q r : N) (rest : list N) :
  2 <= q < 32 -> r < 64 ->
  Utf8.decode (192 + q :: 128 + r :: rest) = emit (q * 64 + r) (Utf8.decode rest).
Proof.
  intros Hq Hr. cbn [Utf8.decode]. destruct (cont_byte r Hr) as [-> ->].
  solve_cmp. cbn [andb]. f_equal.
  change 31 with (2 ^ 5 - 1). rewrite land_mask, lor_shiftl by (simpl; lia).
  norm_pow. change (2 ^ 5) with 32. lia.
Qed.

Lemma decode_3 (p q r : N) (rest : list N) :
  p < 16 -> q < 64 -> r < 64 ->
  (p = 0 -> 32 <= q) -> (p = 13 -> q < 32) ->
  Utf8.decode (224 + p :: 128 + q :: 128 + r :: rest)
  = emit ((p * 64 + q) * 64 + r) (Utf8.decode rest).
Proof.
  intros Hp Hq Hr H0 H13. cbn [Utf8.decode].
  destruct (cont_byte q Hq) as [-> ->]. destruct (cont_byte r Hr) as [-> ->].
  assert ((negb (224 + p =? 224) || (160 <=? 128 + q)) = true) as ->.
  { destruct (N.eq_dec p 0) as [->|Hn]; [specialize (H0 eq_refl)|]; solve_cmp; done. }
  assert ((negb (224 + p =? 237) || (128 + q <=? 159)) = true) as ->.
  { destruct (N.eq_dec p 13) as [->|Hn]; [specialize (H13 eq_refl)|]; solve_cmp; done. }
  solve_cmp. cbn [andb]. f_equal.
  change 15 with (2 ^ 4 - 1). rewrite land_mask.
  rewrite (lor_shiftl q r 6) by (simpl; lia).
  rewrite lor_shiftl by (simpl; lia).
  norm_pow. change (2 ^ 4) with 16. lia.
Qed.

Lemma decode_4 (o p q r : N) (rest : list N) :
  o < 5 -> p < 64 -> q < 64 -> r < 64 ->
  (o = 0 -> 16 <= p) -> (o = 4 -> p < 16) ->
  Utf8.decode (240 + o :: 128 + p :: 128 + q :: 128 + r :: rest)
  = emit (((o * 64 + p) * 64 + q) * 64 + r) (Utf8.decode rest).
Proof.
  intros Ho Hp Hq Hr H0 H4. cbn [Utf8.decode].
  destruct (cont_byte p Hp) as [-> ->]. destruct (cont_byte q Hq) as [-> ->].
  destruct (cont_byte r Hr) as [-> ->].
  assert ((negb (240 + o =? 240) || (144 <=? 128 + p)) = true) as ->.
  { destruct (N.eq_dec o 0) as [->|Hn]; [specialize (H0 eq_refl)|]; solve_cmp; done. }
  assert ((negb (240 + o =? 244) || (128 + p <=? 143)) = true) as ->.
  { destruct (N.eq_dec o 4) as [->|Hn]; [specialize (H4 eq_refl)|]; solve_cmp; done. }
  solve_cmp. cbn [andb]. f_equal.
  change 7 with (2 ^ 3 - 1). rewrite land_mask.
  rewrite (lor_shiftl q r 6) by (simpl; lia).
  rewrite (lor_shiftl p _ 12) by (simpl; lia).
  rewrite lor_shiftl by (simpl; lia).
  norm_pow. change (2 ^ 3) with 8. lia.
Qed.

Lemma decode_encode_char (c : N) (rest : list N) :
  Utf8.scalar c = true ->
  Utf8.decode (Utf8.encode_char c ++ rest) = emit c (Utf8.decode rest)
  ∧ Forall (fun b => b < 256) (Utf8.encode_char c).
Proof.
  unfold Utf8.scalar. intros H. apply andb_true_iff in H as [Hs Hmax].
  apply N.leb_le in Hmax.
  assert (c < 55296 ∨ 57343 < c) as Hsur.
  { apply orb_true_iff in Hs as [Hs|Hs]; apply N.ltb_lt in Hs; lia. }
  destruct (N.lt_ge_cases c 128) as [H1|H1].
  { rewrite encode_char_1 by done. split; [by apply decode_1|].
    repeat constructor. lia. }
  destruct (N.lt_ge_cases c 2048) as [H2|H2].
  { destruct (encode_char_2 c) as (q & r & -> & Hq & Hr & ->); [lia|].
    split; [by apply decode_2|]. repeat constructor; lia. }
  destruct (N.lt_ge_cases c 65536) as [H3|H3].
  { destruct (encode_char_3 c) as (p & q & r & -> & Hp & Hq & Hr & ->); [lia|].
    split; [apply decode_3; try done; lia|]. repeat constructor; lia. }
  destruct (encode_char_4 c) as (o & p & q & r & -> & Ho & Hp & Hq & Hr & ->); [lia|].
  split; [apply decode_4; try done; lia|]. repeat constructor; lia.
Qed.

Lemma decode_encode (s bs : list N) :
  Utf8.encode s = Some bs ->
  Utf8.decode bs = Ok s ∧ Forall (fun b => b < 256) bs.
Proof.
  unfold Utf8.encode. destruct (forallb Utf8.scalar s) eqn:E; [|done].
  intros [= <-]. induction s as [|c s IH]; [done|].
  simpl in E. apply andb_true_iff in E as [Hc E].
  destruct (IH E) as [IH1 IH2].
  destruct (decode_encode_char c (concat (Utf8.encode_char <$> s)) Hc) as [H1 H2].
  cbn [fmap list_fmap concat]. rewrite H1, IH1. split; [done|].
  by apply Forall_app.
Qed.

(** ** Round trips *)

Lemma loaders_agree_witness :
  Loader.load_poly Sample.flat_dir = Loader.load_poly_lvl1 Sample.nested_dir
  ∧ Loader.load_poly Sample.flat_dir
    = Ok (replicate 64 (JList [JInt 1; JFloat (FLit (lit "2.5"))])).
Proof.
  split.
  - apply (loaders_agree Sample.flat_dir Sample.nested_dir).
    intros i _. reflexivity.
  - vm_compute. reflexivity.
Defined.

(** C8 (as amended): a record that JSON can represent, that is not
    nested deeper than the interpreter allows and whose text UTF-8 can carry,
    comes back from its serialization.  Whenever [atomic_write_json]
    returns, the text it leaves under the final name parses to the record,
    and it does return when nothing fails and the text can be encoded; and
    [decode_b64_json] returns the record from the base64 text of the UTF-8
    bytes of any of its serializations, indented or not. *)
Theorem serialization_round_trips (record : json) :
  representable record = true -> shallow record ->
  (∀ w r path s,
     (atomic_write_json w r path record s).2 = Ok tt ->
     Json.loads <$> (fs (atomic_write_json w r path record s).1 !! path)
     = Some (Ok record))
  ∧ (∀ path s,
       encodable (Json.dumps (Some 2%nat) record) ->
       (atomic_write_json Written None path record s).2 = Ok tt)
  ∧ (∀ indent bs,
       Utf8.encode (Json.dumps indent record) = Some bs ->
       decode_b64_json (Base64.b64encode bs) = Ok record).
Proof.
  intros Hrec _. split; [|split].
  - intros w r path s. rewrite atomic_write_json_run. cbv zeta.
    destruct (met w _); [destruct r|..]; try discriminate.
    intros _. cbn [fst fs set_fs]. unfold written. rewrite lookup_insert_eq.
    cbn [fmap option_fmap option_map]. by rewrite loads_dumps.
  - intros path s Henc. rewrite atomic_write_json_run. cbv zeta.
    by rewrite (met_encodable _ _ Henc).
  - intros indent bs Hbs. destruct (decode_encode _ _ Hbs) as [Hdec Hoct].
    unfold decode_b64_json. rewrite (b64decode_b64encode bs Hoct).
    unfold mbind, result_bind. rewrite Hdec. by apply loads_dumps.
Qed.

Lemma serialization_round_trips_witness :
  representable Sample.measured = true
  ∧ shallow Sample.measured
  ∧ Json.loads <$> (fs (atomic_write_json Written None (lit "P123.json")
                          Sample.measured Sample.started).1 !! lit "P123.json")
    = Some (Ok Sample.measured)
  ∧ decode_b64_json
      (Base64.b64encode
         (default [] (Utf8.encode (Json.dumps None Sample.measured))))
    = Ok Sample.measured.
Proof.
  assert (shallow Sample.measured) as Hs by (vm_compute; lia).
  pose proof (serialization_round_trips Sample.measured eq_refl Hs) as (H1 & H2 & H3).
  split; [reflexivity|]. split; [exact Hs|]. split.
  - apply H1. apply H2. eexists. vm_compute. reflexivity.
  - apply (H3 None). reflexivity.
Defined.

(** C8 as stated fails: a record with a lone surrogate is one JSON can
    represent and one [decode_b64_json] returns, but its text cannot be
    encoded, so that [atomic_write_json] raises with nothing wrong in the
    environment and leaves no file of the final name to read back. *)
Lemma lone_surrogate_is_not_saved :
  let r := atomic_write_json Written None (lit "P1.json") Sample.unpaired
             Sample.started in
  decode_b64_json (lit "eyJzIjogIlx1ZDgwMCJ9") = Ok Sample.unpaired
  ∧ representable Sample.unpaired = true
  ∧ r.2 = Raise UnicodeEncodeError
  ∧ fs r.1 !! lit "P1.json" = None
  ∧ Utf8.encode (Json.dumps None Sample.unpaired) = None.
Proof. vm_compute. repeat split. Qed.

(** * Further properties of the code *)

(** ** File names *)

Lemma safe_char_not_space (c : N) : safe_char c = true -> Py.isspace c = false.
Proof.
  unfold safe_char, Py.isspace. intros H.
  destruct (_ || _) eqn:E in |- *; [|done]. exfalso.
  rewrite ?orb_true_iff, ?andb_true_iff, ?N.leb_le, ?N.eqb_eq in H.
  rewrite ?orb_true_iff, ?andb_true_iff, ?N.leb_le, ?N.eqb_eq in E. lia.
Qed.

Lemma sub_unsafe_safe (in_run : bool) (s : list N) :
  Forall (fun c => safe_char c = true) (sub_unsafe in_run s).
Proof.
  revert in_run. induction s as [|c s IH]; intros in_run; [constructor|].
  cbn [sub_unsafe]. destruct (safe_char c) eqn:Hc.
  - constructor; [done | apply IH].
  - destruct in_run; [apply IH|]. constructor; [done | apply IH].
Qed.

Lemma sub_unsafe_id (s : list N) :
  Forall (fun c => safe_char c = true) s -> sub_unsafe false s = s.
Proof.
  induction 1 as [|c s Hc _ IH]; [done|]. cbn [sub_unsafe]. by rewrite Hc, IH.
Qed.

Lemma lstrip_id (s : list N) :
  Forall (fun c => safe_char c = true) s -> Py.lstrip s = s.
Proof.
  destruct 1 as [|c s Hc _]; [done|]. cbn [Py.lstrip].
  by rewrite (safe_char_not_space c Hc).
Qed.

Lemma strip_id (s : list N) :
  Forall (fun c => safe_char c = true) s -> Py.strip s = s.
Proof.
  intros Hs. unfold Py.strip, Py.rstrip. rewrite (lstrip_id s Hs).
  rewrite lstrip_id by (by apply Forall_reverse). apply reverse_involutive.
Qed.

Lemma safe_filename_chars (stem : list N) :
  Forall (fun c => safe_char c = true) (safe_filename stem)
  ∧ (1 <= length (safe_filename stem) <= 200)%nat.
Proof.
  unfold safe_filename.
  pose proof (sub_unsafe_safe false (Py.strip stem)) as Hs.
  destruct (sub_unsafe false (Py.strip stem)) as [|c s] eqn:E; cbn [Py.nonempty].
  - split; [|vm_compute; lia]. by repeat constructor.
  - split; [by apply Forall_take|]. rewrite length_take. cbn [length]. lia.
Qed.

Lemma safe_filename_id (name : list N) :
  name ≠ [] -> (length name <= 200)%nat ->
  Forall (fun c => safe_char c = true) name ->
  safe_filename name = name.
Proof.
  intros Hne Hlen Hs. unfold safe_filename.
  rewrite (strip_id name Hs), (sub_unsafe_id name Hs).
  destruct name as [|c name]; [done|]. cbn [Py.nonempty].
  by rewrite take_ge.
Qed.

(** X1: what [safe_filename] returns is a file name: between 1 and 200
    characters, all of them letters, digits, [_], [.] or [-]; so it holds no
    path separator and no white space. *)
Theorem safe_filename_is_a_name (stem : str) :
  Forall (fun c => safe_char c = true) (safe_filename stem)
  ∧ (1 <= length (safe_filename stem) <= 200)%nat
  ∧ (47 ∉ safe_filename stem)
  ∧ Forall (fun c => Py.isspace c = false) (safe_filename stem).
Proof.
  destruct (safe_filename_chars stem) as [Hs Hl].
  split; [done|]. split; [done|]. split.
  - intros H. rewrite Forall_forall in Hs. by specialize (Hs 47 H).
  - eapply Forall_impl; [exact Hs|]. apply safe_char_not_space.
Qed.

(** X2: [safe_filename] leaves a name alone that is already one. *)
Theorem safe_filename_keeps_names (name : str) :
  name ≠ [] -> (length name <= 200)%nat ->
  Forall (fun c => safe_char c = true) name ->
  safe_filename name = name.
Proof. apply safe_filename_id. Qed.

Lemma safe_filename_keeps_names_witness :
  safe_filename (lit "P123-a_b.v2") = lit "P123-a_b.v2".
Proof.
  apply (safe_filename_keeps_names (lit "P123-a_b.v2")).
  - discriminate.
  - vm_compute. lia.
  - vm_compute. repeat constructor.
Defined.

(** X3: sanitizing twice is sanitizing once. *)
Theorem safe_filename_idempotent (stem : str) :
  safe_filename (safe_filename stem) = safe_filename stem.
Proof.
  destruct (safe_filename_chars stem) as [Hs Hl].
  apply safe_filename_id; [|lia|done].
  intros E. rewrite E in Hl. cbn in Hl. lia.
Qed.

(** X4: identifiers that sanitize to the same name share one completion
    pointer: once the pointer of one of them is there, a run makes no
    request for the other. *)
Theorem same_safe_name_is_skipped (exn_text : exn -> str) (fuel : nat)
    (pids : list str) (ts : list turn) (s : state) (pid1 pid2 : str) :
  safe_filename pid1 = safe_filename pid2 ->
  exists_ (fs s) (pointer_path pid1) = true ->
  ∃ evs, trace (loop exn_text fuel pids ts s).1 = trace s ++ evs
         ∧ Forall (fun e => ∀ tok, e ≠ Posted pid2 tok) evs.
Proof.
  intros Hsame Hp.
  assert (pointer_path pid1 = pointer_path pid2) as E
    by (unfold pointer_path; by rewrite Hsame).
  rewrite E in Hp.
  by destruct (loop_effect exn_text pid2 fuel pids ts s Hp) as [H _].
Qed.

Lemma same_safe_name_is_skipped_witness :
  lit "a b" ≠ lit "a_b"
  ∧ ∃ evs,
      trace (loop Sample.plain 3 [lit "a_b"] [Sample.fetching (Ok Sample.forbidden)]
               (State 0 (Some (lit "tok"))
                      {[ pointer_path (lit "a b") := lit "{}" ]} [])).1
      = [] ++ evs
      ∧ Forall (fun e => ∀ tok, e ≠ Posted (lit "a_b") tok) evs.
Proof.
  split; [discriminate|].
  apply (same_safe_name_is_skipped Sample.plain 3 [lit "a_b"]
           [Sample.fetching (Ok Sample.forbidden)]
           (State 0 (Some (lit "tok")) {[ pointer_path (lit "a b") := lit "{}" ]} [])
           (lit "a b") (lit "a_b")).
  - vm_compute. reflexivity.
  - vm_compute. reflexivity.
Defined.

(** ** The payload codec and characters outside the alphabet *)

Lemma a2b_loop_filter (quad_pos leftchar pads : N) (data : list N) :
  Base64.a2b_loop quad_pos leftchar pads
    (filter (fun c => base64_char c = true) data)
  = Base64.a2b_loop quad_pos leftchar pads data.
Proof.
  revert quad_pos leftchar pads.
  induction data as [|c data IH]; intros quad_pos leftchar pads; [done|].
  destruct (base64_char c) eqn:Hb.
  - rewrite filter_cons_True by done. cbn [Base64.a2b_loop].
    destruct (c =? Base64.BASE64_PAD); [by rewrite ?IH|].
    destruct (Base64.table_a2b c); by rewrite ?IH.
  - rewrite filter_cons_False by (by rewrite Hb). cbn [Base64.a2b_loop].
    unfold base64_char in Hb. apply orb_false_iff in Hb as [-> Hb].
    apply bool_decide_eq_false in Hb.
    destruct (Base64.table_a2b c); [|apply IH]. exfalso. apply Hb. eauto.
Qed.

(** X5: [decode_b64_json] passes over every ASCII character that is neither
    in the base64 alphabet nor the padding sign (line ends, blanks, quotes):
    taking them out of the text changes nothing. *)
Theorem decode_b64_json_skips_other_characters (b64 : str) :
  forallb (fun c => c <? 128) b64 = true ->
  decode_b64_json (filter (fun c => base64_char c = true) b64)
  = decode_b64_json b64.
Proof.
  intros Hascii. unfold decode_b64_json, Base64.b64decode, Base64.a2b_base64.
  rewrite Hascii, a2b_loop_filter.
  assert (forallb (fun c => c <? 128) (filter (fun c => base64_char c = true) b64)
          = true) as ->; [|done].
  apply forallb_forall. intros c Hc. rewrite forallb_forall in Hascii.
  apply Hascii. apply list_elem_of_In. apply list_elem_of_In in Hc.
  by apply list_elem_of_filter in Hc as [_ Hc].
Qed.

Lemma decode_b64_json_skips_other_characters_witness :
  decode_b64_json (lit "eyJhIjogMX0=")
  = decode_b64_json ([32] ++ lit "eyJh" ++ [13; 10] ++ lit "IjogMX0=" ++ [10])
  ∧ decode_b64_json (lit "eyJhIjogMX0=") = Ok (JDict [(lit "a", JInt 1)]).
Proof.
  split; [|vm_compute; reflexivity].
  exact (decode_b64_json_skips_other_characters
           ([32] ++ lit "eyJh" ++ [13; 10] ++ lit "IjogMX0=" ++ [10]) eq_refl).
Defined.

(** ** The token bridge *)

Lemma on_request_token_of (captcha : option (list N)) (req : request) :
  on_request captcha req = match token_of req with Some v => Some v | None => captcha end.
Proof. unfold on_request, token_of. by destruct (_ && _). Qed.

Lemma foldl_on_request (captcha : option (list N)) (reqs : list request) :
  foldl on_request captcha reqs
  = match last (omap token_of reqs) with
    | Some v => Some v
    | None => captcha
    end.
Proof.
  revert captcha. induction reqs as [|req reqs IH]; intros captcha; [done|].
  cbn [foldl]. rewrite IH, on_request_token_of.
  change (omap token_of (req :: reqs))
    with (match token_of req with
          | Some y => y :: omap token_of reqs
          | None => omap token_of reqs
          end).
  destruct (token_of req) as [v|]; [|done].
  destruct (omap token_of reqs) as [|w ws]; [done|].
  rewrite (last_cons v (w :: ws)). by destruct (last (w :: ws)).
Qed.

(** X6: after a wait, the token slot holds the header of the last request
    seen that went to the API by POST with a [captchaid] header; it holds
    what it held before when no such request was seen. *)
Theorem last_qualifying_request_wins (reqs : list request) (s : state) :
  captcha_id (observe reqs s)
  = match last (omap token_of reqs) with
    | Some v => Some v
    | None => captcha_id s
    end.
Proof. apply foldl_on_request. Qed.

(** A token that is held stays one through a wait. *)
Lemma observe_is_Some (captcha : option (list N)) (reqs : list request) :
  is_Some captcha -> is_Some (foldl on_request captcha reqs).
Proof.
  revert captcha. induction reqs as [|req reqs IH]; intros captcha Hc; [done|].
  cbn [foldl]. apply IH. rewrite on_request_token_of.
  by destruct (token_of req).
Qed.

Lemma held_is_Some (captcha : option (list N)) : held captcha = true -> is_Some captcha.
Proof. by destruct captcha as [[|]|]. Qed.

(** ** What a write leaves alone *)

Lemma atomic_write_json_frame (w : write_outcome) (r : option exn)
    (path : list N) (obj : json) (s : state) (q : list N) :
  q ≠ path -> q ≠ tmp_of path ->
  fs (atomic_write_json w r path obj s).1 !! q = fs s !! q.
Proof.
  intros H1 H2. rewrite atomic_write_json_run. unfold written. cbv zeta.
  destruct (met w _) as [|e|e n]; [destruct r as [e|]|..]; cbn [fst fs set_fs log];
    rewrite ?lookup_insert_ne, ?lookup_delete_ne, ?lookup_insert_ne by done; done.
Qed.

Lemma append_index_frame (w : write_outcome) (now pid : list N) (decoded : json)
    (name : list N) (s : state) (q : list N) :
  q ≠ INDEX_PATH -> fs (append_index w now pid decoded name s).1 !! q = fs s !! q.
Proof.
  intros Hq. destruct decoded; try reflexivity.
  rewrite append_index_run. unfold appended. cbv zeta.
  destruct (met w _); cbn [fst fs set_fs log]; rewrite ?lookup_insert_ne by done; done.
Qed.

Lemma append_index_prefix (w : write_outcome) (now pid : list N) (decoded : json)
    (name : list N) (s : state) :
  content (fs s) INDEX_PATH
    `prefix_of` content (fs (append_index w now pid decoded name s).1) INDEX_PATH.
Proof.
  destruct decoded; try reflexivity.
  rewrite append_index_run. unfold appended, content. cbv zeta.
  destruct (met w _); cbn [fst fs set_fs log]; rewrite ?lookup_insert_eq; cbn [default];
    try reflexivity; by eexists.
Qed.

Lemma last_INDEX_PATH : last INDEX_PATH = Some 108.
Proof. reflexivity. Qed.

Lemma last_ERRORS_PATH : last ERRORS_PATH = Some 118.
Proof. reflexivity. Qed.

Lemma INDEX_PATH_not_json (x : list N) : INDEX_PATH ≠ x ++ lit ".json".
Proof. intros E. pose proof (last_lit_json x) as H. rewrite <- E in H. discriminate H. Qed.

Lemma ERRORS_PATH_not_json (x : list N) : ERRORS_PATH ≠ x ++ lit ".json".
Proof. intros E. pose proof (last_lit_json x) as H. rewrite <- E in H. discriminate H. Qed.

Lemma pointer_path_json (pid : list N) :
  pointer_path pid = (safe_filename pid ++ lit ".pointer") ++ lit ".json".
Proof. unfold pointer_path. by rewrite <- app_assoc. Qed.

Lemma output_name_json (dir : files) (decoded : json) (pid name : list N) :
  output_name dir decoded pid = Ok name -> ∃ x, name = x ++ lit ".json".
Proof.
  unfold output_name. destruct (Json.get decoded (lit "polymer_id") JNull) as [v|]; [|done].
  cbn [mbind result_bind].
  destruct (exists_ dir _).
  - destruct (if Json.truthy v then _ else _) as [stem|]; [|done].
    cbn [mbind result_bind]. intros <-%Ok_inj.
    exists (stem ++ lit "__" ++ safe_filename pid). by rewrite <- !app_assoc.
  - intros <-%Ok_inj. destruct v; eauto. destruct (Py.nonempty s); eauto.
Qed.

(** ** Relations a whole run keeps *)

Section Run.

Variable R : state -> state -> Prop.
Variable exn_text : exn -> str.
Hypothesis R_trans : ∀ a b c, R a b -> R b c -> R a c.
Hypothesis R_prompted : ∀ s s', prompted s s' -> R s s'.
Hypothesis R_posted : ∀ pid t s, is_Some (captcha_id s) -> R s (posted pid t s).
Hypothesis R_write : ∀ w r x obj, keeps R (atomic_write_json w r (x ++ lit ".json") obj).
Hypothesis R_index : ∀ w now pid decoded name, keeps R (append_index w now pid decoded name).
Hypothesis R_error : ∀ w line s,
  R s (file_op (Appended ERRORS_PATH line) (append_text w ERRORS_PATH line) s).1.

Lemma run_refl (s : state) : R s s.
Proof. apply R_prompted. split; [done|]. exists []. by rewrite app_nil_r. Qed.

Lemma keeps_bind {A B} (m : M A) (k : A -> M B) :
  keeps R m -> (∀ a, keeps R (k a)) -> keeps R (m ≫= k).
Proof.
  intros Hm Hk s. rewrite bind_unfold. specialize (Hm s).
  destruct (m s) as [s1 [a|e]]; [|done].
  exact (R_trans _ _ _ Hm (Hk a s1)).
Qed.

Lemma keeps_save_steps (pid : list N) (t : turn) (decoded : json) (x : list N) :
  keeps R (save_steps pid t decoded (x ++ lit ".json")).
Proof.
  unfold save_steps.
  apply keeps_bind; [apply R_write|]. intros _.
  apply keeps_bind; [apply R_index|]. intros _.
  apply keeps_bind; [rewrite pointer_path_json; apply R_write|]. intros _.
  intros s. apply R_prompted. split; [done|]. exists []. simpl. by rewrite app_nil_r.
Qed.

Lemma run_fetch (pid : list N) (t : turn) (s : state) :
  is_Some (captcha_id s) -> R s (fetch pid (pointer_path pid) t s).1.
Proof.
  intros Htok.
  destruct (fetch_cases pid t s) as [[r ->] | (decoded & name & Hd & ->)].
  - by apply R_posted.
  - destruct Hd as (resp & top & flag & b64 & _ & _ & _ & _ & _ & _ & _ & Hn).
    destruct (output_name_json _ _ _ _ Hn) as [x ->].
    eapply R_trans; [by apply R_posted | apply keeps_save_steps].
Qed.

Lemma run_attempt (pid : list N) (t : turn) (s : state) :
  is_Some (captcha_id s) -> R s (attempt exn_text pid (pointer_path pid) t s).1.
Proof.
  intros Htok. pose proof (run_fetch pid t s Htok) as H. unfold attempt.
  destruct (fetch pid (pointer_path pid) t s) as [s1 [[]|e]]; [done|].
  eapply R_trans; [exact H | apply R_error].
Qed.

Lemma prompted_trans (a b c : state) : prompted a b -> prompted b c -> prompted a c.
Proof.
  intros [F1 (e1 & T1 & A1)] [F2 (e2 & T2 & A2)]. split; [congruence|].
  exists (e1 ++ e2). rewrite T2, T1, app_assoc. split; [done|]. by apply Forall_app.
Qed.

Lemma prompted_ask (e : event) (reqs : list request) (s : state) :
  asking e -> prompted s (observe reqs (log e s)).
Proof. intros He. split; [done|]. exists [e]. split; [done|]. by constructor. Qed.

Lemma ensure_prompted (t : turn) (s : state) :
  prompted s (ensure_captcha_id t s).1
  ∧ ((ensure_captcha_id t s).2 = true -> is_Some (captcha_id (ensure_captcha_id t s).1)).
Proof.
  unfold ensure_captcha_id. destruct (held (captcha_id s)) eqn:Hh; cbn [fst snd].
  - split; [|intros _; by apply held_is_Some].
    split; [done|]. exists []. by rewrite app_nil_r.
  - split; [by apply prompted_ask|]. apply held_is_Some.
Qed.

Lemma run_stepper (pid : list N) (t : turn) (s : state) :
  R s (stepper exn_text pid t s).1.
Proof.
  unfold stepper. pose proof (ensure_prompted t s) as [P1 Htok].
  destruct (ensure_captcha_id t s) as [s1 got]. cbn [fst snd] in *.
  destruct got; cbn [negb]; [|by apply R_prompted].
  set (s2 := observe (seen_at_command t) (log (AskedCommand pid) s1)).
  assert (prompted s s2) as P2.
  { eapply prompted_trans; [exact P1|]. by apply prompted_ask. }
  assert (is_Some (captcha_id s2)) as Htok2.
  { apply observe_is_Some. by apply Htok. }
  repeat case_bool_decide; cbn [fst].
  - by apply R_prompted.
  - apply R_prompted. destruct P2 as [F T]. by split.
  - apply R_prompted. eapply prompted_trans; [exact P2|].
    split; [done|]. exists [AskedRelearn]. split; [done|]. by constructor.
  - pose proof (run_attempt pid t s2 Htok2) as Hrun.
    destruct (attempt exn_text pid (pointer_path pid) t s2) as [s3 [[]|e]];
      cbn [fst] in *; (eapply R_trans; [by apply R_prompted | exact Hrun]).
Qed.

Lemma run_loop (fuel : nat) (pids : list (list N)) (ts : list turn) (s : state) :
  R s (loop exn_text fuel pids ts s).1.
Proof.
  revert ts s. induction fuel as [|fuel IH]; intros ts s; cbn [loop];
    [apply run_refl|].
  destruct (pids !! idx s) as [pid|]; [|apply run_refl].
  destruct (exists_ (fs s) (pointer_path pid)).
  { eapply R_trans; [|apply IH]. apply R_prompted. split; [done|].
    exists []. simpl. by rewrite app_nil_r. }
  destruct ts as [|t ts]; [apply run_refl|].
  pose proof (run_stepper pid t s) as H.
  destruct (stepper exn_text pid t s) as [s' []]; cbn [fst] in *; [|done|done].
  eapply R_trans; [exact H | apply IH].
Qed.

End Run.

Lemma main_unfold (exn_text : exn -> list N) (pids : list (list N))
    (ts : list turn) (disk : files) :
  main exn_text Written pids ts disk
  = run exn_text pids ts
      (State 0 None (<[ERRORS_PATH := []]> disk) [WroteText ERRORS_PATH []]).
Proof. by destruct (main_cases exn_text Written pids ts disk) as [[_ E] | (e & H & _)]. Qed.

Lemma error_lines_app (a b : list event) :
  error_lines (a ++ b) = error_lines a ++ error_lines b.
Proof. unfold error_lines. by rewrite omap_app, concat_app. Qed.

Lemma error_lines_asking (evs : list event) :
  Forall asking evs -> error_lines evs = [].
Proof.
  induction 1 as [|e evs He _ IH]; [done|].
  change (e :: evs) with ([e] ++ evs). rewrite error_lines_app, IH.
  by destruct e.
Qed.

Lemma error_lines_file_event (evs : list event) :
  Forall file_event evs -> error_lines evs = [].
Proof.
  induction 1 as [|e evs He _ IH]; [done|].
  change (e :: evs) with ([e] ++ evs). rewrite error_lines_app, IH.
  destruct e; try done. simpl in He. subst path. reflexivity.
Qed.

Lemma error_lines_error (line : list N) :
  error_lines [Appended ERRORS_PATH line] = line.
Proof.
  unfold error_lines. cbn [omap list_omap]. rewrite decide_True by done.
  cbn [concat]. apply app_nil_r.
Qed.

(** ** The index is only appended to *)

Lemma index_prefix_run (exn_text : exn -> list N) (fuel : nat)
    (pids : list (list N)) (ts : list turn) (s : state) :
  content (fs s) INDEX_PATH
    `prefix_of` content (fs (loop exn_text fuel pids ts s).1) INDEX_PATH.
Proof.
  apply (run_loop (fun s s' =>
           content (fs s) INDEX_PATH `prefix_of` content (fs s') INDEX_PATH)).
  - intros a b c. apply transitivity.
  - intros a b [F _]. by rewrite F.
  - done.
  - intros w r x obj a. unfold content.
    rewrite atomic_write_json_frame;
      [done | apply INDEX_PATH_not_json | apply INDEX_PATH_not_tmp].
  - intros w now pid decoded name a. apply append_index_prefix.
  - intros w line a. rewrite file_op_unfold. unfold content. cbn [fst fs set_fs log].
    by rewrite append_text_other.
Qed.

(** X7: the index is append-only: whatever the operator, the server and the
    disk do during a run, the text [index.jsonl] held at the start is the
    beginning of the text it holds at the end. *)
Theorem index_is_append_only (exn_text : exn -> str) (reset : write_outcome)
    (pids : list str) (ts : list turn) (disk : files) :
  content disk INDEX_PATH
    `prefix_of` content (fs (main exn_text reset pids ts disk).1) INDEX_PATH.
Proof.
  destruct (main_cases exn_text reset pids ts disk)
    as [[_ ->] | (e & _ & _ & _ & _ & [-> | ->])].
  - unfold run. etransitivity; [|apply index_prefix_run]. unfold content. cbn [fs].
    by rewrite lookup_insert_ne.
  - done.
  - unfold content. by rewrite lookup_insert_ne.
Qed.

(** ** The error log holds this run's failures *)

Lemma error_log_follows_trans (a b c : state) :
  error_log_follows a b -> error_log_follows b c -> error_log_follows a c.
Proof.
  intros (e1 & T1 & C1) (e2 & T2 & C2). exists (e1 ++ e2).
  rewrite T2, T1, app_assoc. split; [done|]. intros txt Htxt.
  rewrite (C2 _ (C1 _ Htxt)), error_lines_app, app_assoc. done.
Qed.

Lemma error_log_follows_prompted (s s' : state) :
  prompted s s' -> error_log_follows s s'.
Proof.
  intros [F (evs & T & A)]. exists evs. split; [done|]. intros txt Htxt.
  by rewrite F, (error_lines_asking evs A), app_nil_r.
Qed.

(** The [try] body leaves the error log alone. *)
Lemma error_log_fetch (pid : list N) (t : turn) (s : state) :
  is_Some (captcha_id s) ->
  error_log_follows s (fetch pid (pointer_path pid) t s).1.
Proof.
  apply (run_fetch error_log_follows).
  - apply error_log_follows_trans.
  - apply error_log_follows_prompted.
  - intros pid' t' a _. exists [Posted pid' (captcha_id a)]. split; [done|].
    intros txt Htxt. by rewrite app_nil_r.
  - intros w r x obj a.
    destruct (tame_atomic_write_json file_event w r (x ++ lit ".json") obj
                ltac:(done) ltac:(done) a) as [[(evs & T & F) _] _].
    exists evs. split; [done|]. intros txt Htxt.
    rewrite atomic_write_json_frame;
      [|apply ERRORS_PATH_not_json | apply ERRORS_PATH_not_tmp].
    by rewrite (error_lines_file_event evs F), app_nil_r.
  - intros w now pid' decoded name a.
    destruct (tame_append_index file_event w now pid' decoded name
                ltac:(done) a) as [[(evs & T & F) _] _].
    exists evs. split; [done|]. intros txt Htxt.
    rewrite append_index_frame by done.
    by rewrite (error_lines_file_event evs F), app_nil_r.
Qed.

(** A pass of the [try] statement that ends without an exception: either
    the body succeeded, or the handler appended the whole line. *)
Lemma error_log_attempt (exn_text : exn -> list N) (pid : list N) (t : turn)
    (s : state) :
  is_Some (captcha_id s) ->
  (attempt exn_text pid (pointer_path pid) t s).2 = Ok tt ->
  error_log_follows s (attempt exn_text pid (pointer_path pid) t s).1.
Proof.
  intros Htok. pose proof (error_log_fetch pid t s Htok) as H.
  destruct (fetch pid (pointer_path pid) t s) as [s1 [u|e]] eqn:E; cbn [fst] in H.
  - by rewrite (attempt_ok _ _ _ _ _ _ _ E).
  - rewrite (attempt_raise _ _ _ _ _ _ _ E). cbv zeta.
    destruct (met (log_append t) (error_line exn_text pid e)); cbn [fst snd]; [|done|done].
    intros _. eapply error_log_follows_trans; [exact H|].
    exists [Appended ERRORS_PATH (error_line exn_text pid e)].
    split; [done|]. intros txt Htxt. rewrite error_lines_error.
    unfold appended. cbn [fs set_fs log]. by rewrite lookup_insert_eq, Htxt.
Qed.

Lemma error_log_stepper (exn_text : exn -> list N) (pid : list N) (t : turn)
    (s : state) :
  (∀ e, (stepper exn_text pid t s).2 ≠ Throw e) ->
  error_log_follows s (stepper exn_text pid t s).1.
Proof.
  unfold stepper. pose proof (ensure_prompted t s) as [P1 Htok].
  destruct (ensure_captcha_id t s) as [s1 got]. cbn [fst snd] in *.
  destruct got; cbn [negb]; [|intros _; by apply error_log_follows_prompted].
  set (s2 := observe (seen_at_command t) (log (AskedCommand pid) s1)).
  assert (prompted s s2) as P2.
  { eapply prompted_trans; [exact P1|]. by apply prompted_ask. }
  assert (is_Some (captcha_id s2)) as Htok2.
  { apply observe_is_Some. by apply Htok. }
  repeat case_bool_decide; cbn [fst snd].
  - intros _. by apply error_log_follows_prompted.
  - intros _. apply error_log_follows_prompted. destruct P2 as [F T]. by split.
  - intros _. apply error_log_follows_prompted. eapply prompted_trans; [exact P2|].
    split; [done|]. exists [AskedRelearn]. split; [done|]. by constructor.
  - pose proof (error_log_attempt exn_text pid t s2 Htok2) as Hrun.
    destruct (attempt exn_text pid (pointer_path pid) t s2) as [s3 [[]|e]];
      cbn [fst snd] in *; intros Hno; [|by destruct (Hno e)].
    eapply error_log_follows_trans;
      [by apply error_log_follows_prompted | by apply Hrun].
Qed.

Lemma error_log_loop (exn_text : exn -> list N) (fuel : nat)
    (pids : list (list N)) (ts : list turn) (s : state) :
  (∀ e, (loop exn_text fuel pids ts s).2 ≠ Crashed e) ->
  error_log_follows s (loop exn_text fuel pids ts s).1.
Proof.
  assert (∀ a, error_log_follows a a) as Hrefl.
  { intros a. apply error_log_follows_prompted. split; [done|].
    exists []. by rewrite app_nil_r. }
  revert ts s. induction fuel as [|fuel IH]; intros ts s; cbn [loop];
    [intros _; apply Hrefl|].
  destruct (pids !! idx s) as [pid|]; [|intros _; apply Hrefl].
  destruct (exists_ (fs s) (pointer_path pid)).
  { intros Hno. eapply error_log_follows_trans; [|by apply IH].
    apply error_log_follows_prompted. split; [done|].
    exists []. simpl. by rewrite app_nil_r. }
  destruct ts as [|t ts]; [intros _; apply Hrefl|].
  pose proof (error_log_stepper exn_text pid t s) as H.
  destruct (stepper exn_text pid t s) as [s' [| |e]]; cbn [fst snd] in *.
  - intros Hno. eapply error_log_follows_trans; [by apply H | by apply IH].
  - intros _. by apply H.
  - intros Hno. by destruct (Hno e).
Qed.

(** X8: [main] empties the error log and from then on only the handler of
    the fetch loop writes to it: when the run does not end by an exception
    (neither the write that empties the log nor an append of the handler
    failed), at the end the log is there and holds the lines of the failures
    of this run, in their order, and nothing else. *)
Theorem error_log_holds_this_run (exn_text : exn -> str) (reset : write_outcome)
    (pids : list str) (ts : list turn) (disk : files) :
  (∀ e, (main exn_text reset pids ts disk).2 ≠ Crashed e) ->
  let s' := (main exn_text reset pids ts disk).1 in
  fs s' !! ERRORS_PATH = Some (error_lines (trace s')).
Proof.
  intros Hno s'. subst s'. revert Hno.
  destruct (main_cases exn_text reset pids ts disk)
    as [[_ ->] | (e & _ & He & _)]; [|intros Hno; by destruct (Hno e)].
  unfold run.
  set (s1 := State 0 None (<[ERRORS_PATH := []]> disk) [WroteText ERRORS_PATH []]).
  intros Hno.
  destruct (error_log_loop exn_text (length ts + (length pids - idx s1) + 1) pids ts s1 Hno)
    as (evs & T & C).
  rewrite T, (C []) by apply lookup_insert_eq.
  by rewrite error_lines_app.
Qed.

Lemma error_log_holds_this_run_witness :
  let ts := [Sample.fetching (Raise (PlaywrightError (lit "timeout")))] in
  let disk : files := {[ ERRORS_PATH := lit "left by an earlier run" ]} in
  fs (main Sample.plain Written [lit "id2"] ts disk).1 !! ERRORS_PATH
  = Some (lit "id2" ++ [9] ++ lit "timeout" ++ [10]).
Proof.
  intros ts disk.
  rewrite (error_log_holds_this_run Sample.plain Written [lit "id2"] ts disk).
  - vm_compute. reflexivity.
  - intros e. vm_compute. discriminate.
Defined.

(** ** No request without a token *)

Lemma with_token_file_event (e : event) : file_event e -> carries_token e.
Proof. by destruct e. Qed.

Lemma with_token_asking (e : event) : asking e -> carries_token e.
Proof. by destruct e. Qed.

Lemma with_token_run (exn_text : exn -> list N) (fuel : nat)
    (pids : list (list N)) (ts : list turn) (s : state) :
  ∃ evs, trace (loop exn_text fuel pids ts s).1 = trace s ++ evs
         ∧ Forall carries_token evs.
Proof.
  apply (run_loop (fun s s' =>
           ∃ evs, trace s' = trace s ++ evs ∧ Forall carries_token evs)).
  - intros a b c (e1 & T1 & F1) (e2 & T2 & F2). exists (e1 ++ e2).
    rewrite T2, T1, app_assoc. split; [done|]. by apply Forall_app.
  - intros a b [_ (evs & T & A)]. exists evs. split; [done|].
    eapply Forall_impl; [exact A | apply with_token_asking].
  - intros pid t a Htok. exists [Posted pid (captcha_id a)]. split; [done|].
    by constructor.
  - intros w r x obj a.
    by destruct (tame_atomic_write_json carries_token w r (x ++ lit ".json") obj
                   ltac:(done) ltac:(done) a) as [[H _] _].
  - intros w now pid decoded name a.
    by destruct (tame_append_index carries_token w now pid decoded name
                   ltac:(done) a) as [[H _] _].
  - intros w line a. rewrite file_op_unfold. exists [Appended ERRORS_PATH line].
    split; [done|]. by constructor.
Qed.

(** X9: the driver never sends a request without a token: every request of
    a run carries the value the token slot holds at that moment, and the
    slot is not empty then. *)
Theorem never_posts_without_token (exn_text : exn -> str) (reset : write_outcome)
    (pids : list str) (ts : list turn) (disk : files) :
  Forall carries_token (trace (main exn_text reset pids ts disk).1).
Proof.
  destruct (main_cases exn_text reset pids ts disk)
    as [[_ ->] | (e & _ & _ & -> & _)]; [|by repeat constructor].
  unfold run.
  set (s1 := State 0 None (<[ERRORS_PATH := []]> disk) [WroteText ERRORS_PATH []]).
  destruct (with_token_run exn_text (length ts + (length pids - idx s1) + 1) pids ts s1)
    as (evs & -> & F).
  apply Forall_app. split; [|done]. by repeat constructor.
Qed.

(** ** Files the pipeline has no name for *)

Lemma foreign_run (q : list N) (exn_text : exn -> list N) (fuel : nat)
    (pids : list (list N)) (ts : list turn) (s : state) :
  foreign q -> fs (loop exn_text fuel pids ts s).1 !! q = fs s !! q.
Proof.
  intros (Hjson & Htmp & Hindex & Herrors).
  apply (run_loop (fun s s' => fs s' !! q = fs s !! q)).
  - intros a b c. congruence.
  - intros a b [F _]. by rewrite F.
  - done.
  - intros w r x obj a. by apply atomic_write_json_frame.
  - intros w now pid decoded name a. by apply append_index_frame.
  - intros w line a. rewrite file_op_unfold. cbn [fst fs set_fs log].
    by rewrite append_text_other.
Qed.

(** X10: a run changes no file but [.json] files, temporary files, the index
    and the error log: any other file of the directory is at the end what
    it was at the start. *)
Theorem other_files_are_left_alone (exn_text : exn -> str) (reset : write_outcome)
    (pids : list str) (ts : list turn) (disk : files) (q : str) :
  foreign q -> fs (main exn_text reset pids ts disk).1 !! q = disk !! q.
Proof.
  intros Hq.
  destruct (main_cases exn_text reset pids ts disk)
    as [[_ ->] | (e & _ & _ & _ & _ & [-> | ->])].
  - unfold run. rewrite foreign_run by done.
    destruct Hq as (_ & _ & _ & Herrors). cbn [fs]. by rewrite lookup_insert_ne.
  - done.
  - destruct Hq as (_ & _ & _ & Herrors). by rewrite lookup_insert_ne.
Qed.

Lemma other_files_are_left_alone_witness :
  fs (main Sample.plain Written [lit "id2"]
        [Sample.fetching (Ok (Sample.healthy Sample.P123))]
        {[ lit "notes.txt" := lit "keep" ]}).1 !! lit "notes.txt"
  = Some (lit "keep").
Proof.
  rewrite (other_files_are_left_alone Sample.plain Written [lit "id2"]
             [Sample.fetching (Ok (Sample.healthy Sample.P123))]
             {[ lit "notes.txt" := lit "keep" ]} (lit "notes.txt")).
  - reflexivity.
  - repeat split; try discriminate.
    + intros x E. pose proof (last_lit_json x) as H. rewrite <- E in H.
      discriminate H.
    + intros x E. pose proof (last_tmp_of x) as H. rewrite <- E in H.
      discriminate H.
Defined.

(** ** What a write leaves behind *)

(** X11: [atomic_write_json] touches two names only, the target and its
    temporary sibling.  When it returns the sibling is gone; when the write
    of the text fails before it starts nothing has changed; when the rename
    fails the sibling is left behind with the whole text; when the text
    cannot be encoded the sibling is left behind empty. *)
Theorem atomic_write_json_touches_two_names (w : write_outcome) (r : option exn)
    (path : str) (obj : json) (s : state) :
  let s' := (atomic_write_json w r path obj s).1 in
  let txt := Json.dumps (Some 2%nat) obj in
  (∀ q, q ≠ path -> q ≠ tmp_of path -> fs s' !! q = fs s !! q)
  ∧ ((atomic_write_json w r path obj s).2 = Ok tt ->
     fs s' !! tmp_of path = None ∧ fs s' !! path = Some txt)
  ∧ (∀ e, w = NotOpened e -> fs s' = fs s)
  ∧ (∀ e, w = Written -> encodable txt -> r = Some e ->
       fs s' !! tmp_of path = Some txt ∧ fs s' !! path = fs s !! path)
  ∧ (¬ encodable txt -> (∀ e, w ≠ NotOpened e) ->
       (atomic_write_json w r path obj s).2 = Raise UnicodeEncodeError
       ∧ fs s' !! tmp_of path = Some [] ∧ fs s' !! path = fs s !! path).
Proof.
  intros s' txt. subst s'. pose proof (tmp_of_neq path) as Hne.
  split; [intros q; apply atomic_write_json_frame|].
  rewrite atomic_write_json_run. fold txt. cbv zeta.
  split; [|split; [|split]].
  - destruct (met w txt) as [|e|e n]; [destruct r as [e|]|..]; try discriminate.
    intros _. cbn [fst fs set_fs log]. unfold written. fold txt.
    rewrite lookup_insert_ne, lookup_delete_eq, lookup_insert_eq by done. done.
  - by intros e ->.
  - intros e -> Henc ->. rewrite (met_encodable _ _ Henc). cbn [fst fs set_fs log].
    by rewrite lookup_insert_eq, lookup_insert_ne.
  - intros Henc Hw.
    assert (met w txt = Torn UnicodeEncodeError 0) as ->.
    { unfold met. destruct (Utf8.encode txt) as [bs|] eqn:E.
      - destruct Henc. by exists bs.
      - destruct w as [|e|e n]; [done| by destruct (Hw e) |done]. }
    cbn [fst snd fs set_fs log take].
    by rewrite lookup_insert_eq, lookup_insert_ne.
Qed.

(** ** The name of the output file *)

Lemma safe_chars_app (a b : list N) :
  Forall (fun c => safe_char c = true) a ->
  Forall (fun c => safe_char c = true) b ->
  Forall (fun c => safe_char c = true) (a ++ b).
Proof. intros. by apply Forall_app. Qed.

Lemma safe_lit_json : Forall (fun c => safe_char c = true) (lit ".json").
Proof. by repeat constructor. Qed.

Lemma safe_lit_sep : Forall (fun c => safe_char c = true) (lit "__").
Proof. by repeat constructor. Qed.

(** X12: the name chosen for an output file is a plain file name (letters,
    digits, [_], [.], [-], so no path separator) ending in [.json]; it is
    never the index, the error log or a temporary file; and it is a name
    already in use only when it is the composite of both identifiers. *)
Theorem output_name_is_safe (dir : files) (decoded : json) (pid_uuid name : str) :
  output_name dir decoded pid_uuid = Ok name ->
  Forall (fun c => safe_char c = true) name
  ∧ (∃ x, name = x ++ lit ".json")
  ∧ name ≠ INDEX_PATH ∧ name ≠ ERRORS_PATH ∧ (∀ x, name ≠ tmp_of x)
  ∧ (exists_ dir name = true ->
     ∃ stem, name = stem ++ lit "__" ++ safe_filename pid_uuid ++ lit ".json").
Proof.
  intros Hn. pose proof (output_name_json _ _ _ _ Hn) as [x Hx].
  pose proof (output_name_last _ _ _ _ Hn) as Hlast.
  assert (∀ a, Forall (fun c => safe_char c = true) (safe_filename a)) as Hsafe
    by (intros a; apply safe_filename_chars).
  split; [|split; [eauto|split; [|split; [|split]]]].
  - unfold output_name in Hn.
    destruct (Json.get decoded (lit "polymer_id") JNull) as [v|]; [|done].
    cbn [mbind result_bind] in Hn. destruct (exists_ dir _).
    + destruct (Json.truthy v); [destruct v; try done|];
        cbn [mbind result_bind] in Hn; apply Ok_inj in Hn as <-;
        repeat apply safe_chars_app; auto using safe_lit_json, safe_lit_sep.
    + apply Ok_inj in Hn as <-.
      destruct v; try (apply safe_chars_app; auto using safe_lit_json).
      destruct (Py.nonempty s); apply safe_chars_app; auto using safe_lit_json.
  - intros ->. discriminate Hlast.
  - intros ->. discriminate Hlast.
  - intros y ->. rewrite last_tmp_of in Hlast. discriminate Hlast.
  - intros Hex. unfold output_name in Hn.
    destruct (Json.get decoded (lit "polymer_id") JNull) as [v|]; [|done].
    cbn [mbind result_bind] in Hn. destruct (exists_ dir _) eqn:Hf.
    + destruct (if Json.truthy v then _ else _) as [stem|]; [|done].
      cbn [mbind result_bind] in Hn. apply Ok_inj in Hn as <-. eauto.
    + apply Ok_inj in Hn as <-. congruence.
Qed.

Lemma output_name_is_safe_witness :
  Forall (fun c => safe_char c = true) (lit "P123__id2.json")
  ∧ output_name {[ lit "P123.json" := lit "{}" ]} Sample.P123 (lit "id2")
    = Ok (lit "P123__id2.json").
Proof.
  assert (output_name {[ lit "P123.json" := lit "{}" ]} Sample.P123 (lit "id2")
          = Ok (lit "P123__id2.json")) as H by (vm_compute; reflexivity).
  split; [|exact H].
  exact (proj1 (output_name_is_safe _ _ _ _ H)).
Defined.

(** ** The operator's commands *)

Lemma no_post_asking (e : event) : asking e -> no_post e.
Proof. by destruct e. Qed.

(** X13: the commands [q], [s] and [r] (in any letter case, with blanks
    around) only steer: the pass sends no request and changes no file.  [q]
    ends the run, [s] and [r] go on; the queue index moves, by one, for [s]
    only, so that no pointer file records a skip. *)
Theorem commands_only_steer (exn_text : exn -> str) (pid_uuid : str)
    (t : turn) (s : state) :
  let cmd := Py.lower (Py.strip (command t)) in
  held (token_after_ensure t s) = true ->
  cmd = lit "q" ∨ cmd = lit "s" ∨ cmd = lit "r" ->
  let r := stepper exn_text pid_uuid t s in
  fs r.1 = fs s
  ∧ (∃ evs, trace r.1 = trace s ++ evs ∧ Forall no_post evs)
  ∧ (r.2 = Break ↔ cmd = lit "q")
  ∧ idx r.1 = (if bool_decide (cmd = lit "s") then S (idx s) else idx s).
Proof.
  intros cmd Hheld Hcmd r. subst r. unfold stepper. fold cmd.
  pose proof (ensure_prompted t s) as [P1 _].
  pose proof (ensure_effect pid_uuid t s) as (_ & I1 & _).
  unfold token_after_ensure in Hheld.
  assert ((ensure_captcha_id t s).2 = true) as Hgot.
  { unfold ensure_captcha_id in *. by destruct (held (captcha_id s)). }
  destruct (ensure_captcha_id t s) as [s1 got]. cbn [fst snd] in *. subst got.
  cbn [negb].
  set (s2 := observe (seen_at_command t) (log (AskedCommand pid_uuid) s1)).
  assert (prompted s s2) as [F2 (e2 & T2 & A2)].
  { eapply prompted_trans; [exact P1|]. by apply prompted_ask. }
  assert (idx s2 = idx s) as I2 by exact I1.
  destruct Hcmd as [Hc | [Hc | Hc]]; rewrite Hc.
  - rewrite bool_decide_eq_true_2 by done. cbn [fst snd].
    split; [done|]. split.
    { exists e2. split; [done|]. eapply Forall_impl; [exact A2 | apply no_post_asking]. }
    split; [done|]. by rewrite bool_decide_eq_false_2.
  - rewrite (bool_decide_eq_false_2 (lit "s" = lit "q")) by done.
    rewrite bool_decide_eq_true_2 by done. cbn [fst snd].
    split; [done|]. split.
    { exists e2. split; [done|]. eapply Forall_impl; [exact A2 | apply no_post_asking]. }
    split; [done|]. cbn. f_equal. exact I2.
  - rewrite (bool_decide_eq_false_2 (lit "r" = lit "q")) by done.
    rewrite (bool_decide_eq_false_2 (lit "r" = lit "s")) by done.
    rewrite bool_decide_eq_true_2 by done. cbn [fst snd].
    split; [done|]. split.
    { exists (e2 ++ [AskedRelearn]). split.
      { change (trace s2 ++ [AskedRelearn] = trace s ++ e2 ++ [AskedRelearn]).
        by rewrite T2, app_assoc. }
      apply Forall_app. split; [|by repeat constructor].
      eapply Forall_impl; [exact A2 | apply no_post_asking]. }
    split; [done|]. done.
Qed.

Lemma commands_only_steer_witness :
  let s := State 4 (Some (lit "tok")) {[ lit "P1.json" := lit "{}" ]} [] in
  let r := stepper Sample.plain (lit "id2") (Sample.typing (lit " S ") []) s in
  fs r.1 = fs s ∧ r.2 = Continue ∧ idx r.1 = 5%nat.
Proof.
  intros s r.
  destruct (commands_only_steer Sample.plain (lit "id2") (Sample.typing (lit " S ") []) s)
    as (F & _ & B & I).
  - reflexivity.
  - right. left. reflexivity.
  - split; [exact F|]. split; [|exact I]. reflexivity.
Defined.

(** X14: the command [r] forgets the token the driver holds: after it the
    slot holds the header of the last qualifying request seen during the
    wait, and nothing when none was seen, so that the next pass has to ask
    again. *)
Theorem relearn_forgets_token (exn_text : exn -> str) (pid_uuid : str)
    (t : turn) (s : state) :
  held (token_after_ensure t s) = true ->
  Py.lower (Py.strip (command t)) = lit "r" ->
  captcha_id (stepper exn_text pid_uuid t s).1
  = last (omap token_of (seen_at_relearn t)).
Proof.
  intros Hheld Hcmd. unfold stepper. unfold token_after_ensure in Hheld.
  assert ((ensure_captcha_id t s).2 = true) as Hgot.
  { unfold ensure_captcha_id in *. by destruct (held (captcha_id s)). }
  destruct (ensure_captcha_id t s) as [s1 got]. cbn [fst snd] in *. subst got.
  cbn [negb]. rewrite Hcmd.
  rewrite (bool_decide_eq_false_2 (lit "r" = lit "q")) by done.
  rewrite (bool_decide_eq_false_2 (lit "r" = lit "s")) by done.
  rewrite bool_decide_eq_true_2 by done. cbn [fst].
  change (foldl on_request None (seen_at_relearn t)
          = last (omap token_of (seen_at_relearn t))).
  rewrite foldl_on_request. by destruct (last _).
Qed.

Lemma relearn_forgets_token_witness :
  captcha_id (stepper Sample.plain (lit "id2") (Sample.typing (lit "r") [])
                (State 0 (Some (lit "tok")) ∅ [])).1 = None
  ∧ captcha_id (stepper Sample.plain (lit "id2") (Sample.typing (lit "R") [Sample.click])
                  (State 0 (Some (lit "old")) ∅ [])).1 = Some (lit "tok").
Proof.
  split.
  - by rewrite (relearn_forgets_token Sample.plain (lit "id2") (Sample.typing (lit "r") [])
                  (State 0 (Some (lit "tok")) ∅ []) eq_refl eq_refl).
  - by rewrite (relearn_forgets_token Sample.plain (lit "id2")
                  (Sample.typing (lit "R") [Sample.click])
                  (State 0 (Some (lit "old")) ∅ []) eq_refl eq_refl).
Defined.

(** ** An answer that refuses *)

(** X15: when the answer is JSON, its [result] flag is missing or a value
    that [Json.truthy] takes for false ([False], [None], [0], a float
    written with no other digit than 0 in its mantissa, an empty string,
    list or object), and its [message] can be printed, the pass does
    nothing but send its request: no file is written, nothing is logged,
    the queue index stays.  A [message] that cannot be printed (a string
    with a lone surrogate) is a failure of the [try] body like any other:
    it goes to the handler. *)
Theorem refused_by_api_keeps_item_pending (exn_text : exn -> str)
    (pid_uuid : str) (t : turn) (s : state) (resp : response)
    (top flag message : json) :
  reply t = Ok resp ->
  looks_blocked (status resp)
    (Some (default [] (headers resp !! lit "content-type"))) = false ->
  resp_json resp = Ok top ->
  Json.get top (lit "result") (JBool false) = Ok flag ->
  Json.truthy flag = false ->
  Json.get top (lit "message") JNull = Ok message ->
  (print_value message = Ok tt ->
   attempt exn_text pid_uuid (pointer_path pid_uuid) t s = (posted pid_uuid t s, Ok tt))
  ∧ (∀ e, print_value message = Raise e ->
       fetch pid_uuid (pointer_path pid_uuid) t s = (posted pid_uuid t s, Raise e)).
Proof.
  intros Hr Hb Hj Hg Ht Hm.
  assert (fetch pid_uuid (pointer_path pid_uuid) t s
          = (posted pid_uuid t s,
             match print_value message with Ok _ => Ok tt | Raise e => Raise e end)) as E.
  { unfold fetch. rewrite gets_bind, !modify_bind. fold (posted pid_uuid t s).
    rewrite lift_bind, Hr, Hb, lift_bind, Hj, lift_bind, Hg, Ht. cbn [negb].
    rewrite lift_bind, Hm, lift_bind. by destruct (print_value message). }
  split.
  - intros Hp. rewrite Hp in E. by rewrite (attempt_ok _ _ _ _ _ _ _ E).
  - intros e Hp. by rewrite Hp in E.
Qed.

Lemma refused_by_api_keeps_item_pending_witness :
  let s := State 0 (Some (lit "tok")) ∅ [] in
  let t := Sample.fetching (Ok Sample.refusal) in
  attempt Sample.plain (lit "id2") (pointer_path (lit "id2")) t s
  = (State 0 (Some (lit "tok")) ∅ [Posted (lit "id2") (Some (lit "tok"))], Ok tt).
Proof.
  intros s t.
  refine (proj1 (refused_by_api_keeps_item_pending Sample.plain (lit "id2") t s
                   Sample.refusal
                   (JDict [(lit "result", JBool false);
                           (lit "message", JStr (lit "captcha"))])
                   (JBool false) (JStr (lit "captcha")) _ _ _ _ _ _) _);
    reflexivity.
Defined.

(** ** The shape of a number *)

Lemma span_digits_spec (s d r : list N) :
  Json.span_digits s = (d, r) ->
  s = d ++ r ∧ Forall (fun c => Json.is_digit c = true) d ∧ nondigit_head r.
Proof.
  revert d r. induction s as [|c s IH]; intros d r; cbn [Json.span_digits].
  - intros [= <- <-]. done.
  - destruct (Json.is_digit c) eqn:Hc.
    + destruct (Json.span_digits s) as [d' r'].
      destruct (IH d' r' eq_refl) as (-> & Hd & Hr).
      intros [= <- <-]. split; [done|]. split; [by constructor | done].
    + intros [= <- <-]. done.
Qed.

Lemma span_digits_rerun (d rest : list N) :
  Forall (fun c => Json.is_digit c = true) d -> nondigit_head rest ->
  Json.span_digits (d ++ rest) = (d, rest).
Proof.
  intros Hd Hr. induction Hd as [|c d Hc _ IH]; cbn [app Json.span_digits].
  - destruct rest as [|c rest]; [done|]. cbn [Json.span_digits].
    cbn in Hr. by rewrite Hr.
  - by rewrite Hc, IH.
Qed.

Lemma int_part_shape (d : N) (s2 ip r1 : list N) :
  Json.int_part d s2 = (ip, r1) ->
  ∃ ds, ip = d :: ds ∧ Forall (fun c => Json.is_digit c = true) ds
        ∧ (d = 48 -> ds = []).
Proof.
  unfold Json.int_part. destruct (N.eqb_spec d 48) as [->|Hd].
  - intros [= <- <-]. by exists [].
  - destruct (Json.span_digits s2) as [ds r] eqn:E.
    destruct (span_digits_spec _ _ _ E) as (_ & Hds & _).
    intros [= <- <-]. by exists ds.
Qed.

Lemma int_part_rerun (d : N) (ds rest : list N) :
  Forall (fun c => Json.is_digit c = true) ds -> (d = 48 -> ds = []) ->
  nondigit_head rest ->
  Json.int_part d (ds ++ rest) = (d :: ds, rest).
Proof.
  intros Hds Hz Hr. unfold Json.int_part. destruct (N.eqb_spec d 48) as [E|_].
  - by rewrite (Hz E).
  - by rewrite span_digits_rerun.
Qed.

Lemma frac_part_shape (r1 fp r2 : list N) :
  Json.frac_part r1 = (fp, r2) -> fraction fp.
Proof.
  unfold Json.frac_part.
  destruct r1 as [|p [|dg r']]; try (intros [= <- <-]; by left).
  destruct (N.eqb_spec p 46) as [->|_]; cbn [andb]; [|intros [= <- <-]; by left].
  destruct (Json.is_digit dg) eqn:Hdg; [|intros [= <- <-]; by left].
  destruct (Json.span_digits r') as [ds r] eqn:E.
  destruct (span_digits_spec _ _ _ E) as (_ & Hds & _).
  intros [= <- <-]. right. by exists dg, ds.
Qed.

Lemma digit_not_sign (x : N) :
  Json.is_digit x = true -> (x =? 45) || (x =? 43) = false.
Proof.
  unfold Json.is_digit. intros [H1 H2]%andb_true_iff.
  apply N.leb_le in H1. apply orb_false_iff. split; apply N.eqb_neq; lia.
Qed.

Lemma exp_part_shape (r2 ep r3 : list N) :
  Json.exp_part r2 = (ep, r3) -> exponent ep.
Proof.
  unfold Json.exp_part.
  destruct r2 as [|e [|c r']]; try (intros [= <- <-]; by left).
  destruct ((e =? 101) || (e =? 69)) eqn:He; [|intros [= <- <-]; by left].
  assert (e = 101 ∨ e = 69) as He'.
  { apply orb_true_iff in He as [He|He]; apply N.eqb_eq in He; auto. }
  destruct ((c =? 45) || (c =? 43)) eqn:Hc.
  - destruct (Json.span_digits r') as [ds r] eqn:E.
    destruct (span_digits_spec _ _ _ E) as (_ & Hds & _).
    destruct ds as [|x ds]; intros [= <- <-]; [by left|]. right.
    exists e, [c], x, ds. split; [done|]. split; [done|]. split; [|done].
    apply orb_true_iff in Hc as [Hc|Hc]; apply N.eqb_eq in Hc; subst c; auto.
  - destruct (Json.span_digits (c :: r')) as [ds r] eqn:E.
    destruct (span_digits_spec _ _ _ E) as (_ & Hds & _).
    destruct ds as [|x ds]; intros [= <- <-]; [by left|]. right.
    exists e, [], x, ds. auto.
Qed.

Lemma exp_part_rerun (ep : list N) :
  exponent ep -> Json.exp_part (ep ++ [44]) = (ep, [44]).
Proof.
  intros [-> | (e & sg & x & ds & -> & He & Hsg & Hds)]; [reflexivity|].
  assert ((e =? 101) || (e =? 69) = true) as He'.
  { destruct He as [-> | ->]; reflexivity. }
  pose proof (Forall_inv Hds) as Hx. cbn beta in Hx.
  unfold Json.exp_part.
  destruct Hsg as [-> | [-> | ->]]; cbn [app]; rewrite He'.
  - rewrite (digit_not_sign x Hx).
    change (x :: ds ++ [44]) with ((x :: ds) ++ [44]).
    by rewrite span_digits_rerun.
  - change ((45 =? 45) || (45 =? 43)) with true. cbv iota.
    change (x :: ds ++ [44]) with ((x :: ds) ++ [44]).
    by rewrite span_digits_rerun.
  - change ((43 =? 45) || (43 =? 43)) with true. cbv iota.
    change (x :: ds ++ [44]) with ((x :: ds) ++ [44]).
    by rewrite span_digits_rerun.
Qed.

Lemma exponent_nondigit (ep : list N) : exponent ep -> nondigit_head (ep ++ [44]).
Proof.
  intros [-> | (e & sg & x & ds & -> & [-> | ->] & _)]; reflexivity.
Qed.

Lemma frac_part_rerun (fp ep : list N) :
  fraction fp -> exponent ep ->
  Json.frac_part (fp ++ ep ++ [44]) = (fp, ep ++ [44]).
Proof.
  intros [-> | (dg & ds & -> & Hdg & Hds)] Hep.
  - destruct Hep as [-> | (e & sg & x & ds & -> & He & _)]; [reflexivity|].
    unfold Json.frac_part. cbn [app].
    destruct ((sg ++ x :: ds) ++ [44]) as [|c r']; [done|].
    assert ((e =? 46) = false) as -> by (destruct He as [-> | ->]; reflexivity).
    done.
  - unfold Json.frac_part. cbn [app]. rewrite Hdg.
    change ((46 =? 46) && true) with true. cbv iota.
    by rewrite span_digits_rerun by (done || by apply exponent_nondigit).
Qed.

Lemma fraction_exponent_nondigit (fp ep : list N) :
  fraction fp -> exponent ep -> nondigit_head (fp ++ ep ++ [44]).
Proof.
  intros [-> | (dg & ds & -> & _)] Hep; [by apply exponent_nondigit | reflexivity].
Qed.

Lemma number_char_digits (ds : list N) :
  Forall (fun c => Json.is_digit c = true) ds ->
  Forall (fun c => number_char c = true) ds.
Proof.
  intros H. eapply Forall_impl; [exact H|].
  intros c Hc. unfold number_char. by rewrite Hc.
Qed.

Lemma number_char_fraction (fp : list N) :
  fraction fp -> Forall (fun c => number_char c = true) fp.
Proof.
  intros [-> | (dg & ds & -> & Hdg & Hds)]; [constructor|].
  constructor; [done|]. apply number_char_digits. by constructor.
Qed.

Lemma number_char_exponent (ep : list N) :
  exponent ep -> Forall (fun c => number_char c = true) ep.
Proof.
  intros [-> | (e & sg & x & ds & -> & He & Hsg & Hds)]; [constructor|].
  constructor; [by destruct He as [-> | ->]|].
  apply Forall_app. split; [|by apply number_char_digits].
  destruct Hsg as [-> | [-> | ->]]; by repeat constructor.
Qed.

Lemma float_token_ok (neg : bool) (d : N) (ds fp ep : list N) :
  Json.is_digit d = true -> Forall (fun c => Json.is_digit c = true) ds ->
  (d = 48 -> ds = []) -> fraction fp -> exponent ep ->
  Py.nonempty fp || Py.nonempty ep = true ->
  float_ok (FLit ((if neg then [45] else []) ++ (d :: ds) ++ fp ++ ep)) = true.
Proof.
  intros Hd Hds Hz Hfp Hep Hne.
  assert (Json.sign_part (((if neg then [45] else []) ++ (d :: ds) ++ fp ++ ep) ++ [44])
          = (neg, d :: ds ++ fp ++ ep ++ [44])) as Hsign.
  { unfold Json.sign_part. destruct neg; cbn [app].
    - by rewrite <- !app_assoc.
    - assert ((d =? 45) = false) as ->; [|by rewrite <- !app_assoc].
      pose proof (digit_not_sign d Hd) as H. by apply orb_false_iff in H as [? _]. }
  unfold float_ok, Json.match_number. rewrite Hsign, Hd.
  rewrite int_part_rerun; [|done|done|by apply fraction_exponent_nondigit].
  rewrite frac_part_rerun by done. rewrite exp_part_rerun by done.
  rewrite Hne. apply andb_true_iff. split; by apply bool_decide_eq_true_2.
Qed.

(** A float the scanner reads is one JSON can carry, made of the
    characters of a number. *)
Lemma match_number_token (s : list N) (v : json) (r : list N) :
  Json.match_number s = Some (v, r) ->
  (∃ z, v = JInt z)
  ∨ ∃ tok, v = JFloat (FLit tok) ∧ float_ok (FLit tok) = true
           ∧ Forall (fun c => number_char c = true) tok.
Proof.
  unfold Json.match_number.
  destruct (Json.sign_part s) as [neg s1]. destruct s1 as [|d s2]; [done|].
  destruct (Json.is_digit d) eqn:Hd; [|done].
  destruct (Json.int_part d s2) as [ip r1] eqn:E1.
  destruct (Json.frac_part r1) as [fp r2] eqn:E2.
  destruct (Json.exp_part r2) as [ep r3] eqn:E3.
  apply int_part_shape in E1 as (ds & -> & Hds & Hz).
  apply frac_part_shape in E2. apply exp_part_shape in E3.
  destruct (Py.nonempty fp || Py.nonempty ep) eqn:Hne; intros H;
    injection H as <- <-; [right|left; eauto].
  eexists. split; [reflexivity|]. split; [by apply float_token_ok|].
  apply Forall_app_2; [destruct neg; by repeat constructor|].
  change (d :: ds ++ fp ++ ep) with ((d :: ds) ++ fp ++ ep).
  apply Forall_app_2; [apply number_char_digits; by constructor|].
  apply Forall_app_2; [by apply number_char_fraction | by apply number_char_exponent].
Qed.

(** ** What the scanner builds *)

Lemma representable_list (vs : list json) :
  representable (JList vs) = true <-> Forall (fun v => representable v = true) vs.
Proof.
  induction vs as [|x xs IH]; [done|].
  change (representable (JList (x :: xs)))
    with (representable x && representable (JList xs)).
  rewrite andb_true_iff, IH, Forall_cons. done.
Qed.

Lemma finite_list (vs : list json) :
  finite (JList vs) = true <-> Forall (fun v => finite v = true) vs.
Proof.
  induction vs as [|x xs IH]; [done|].
  change (finite (JList (x :: xs))) with (finite x && finite (JList xs)).
  rewrite andb_true_iff, IH, Forall_cons. done.
Qed.

Lemma representable_dict (ps : list (list N * json)) :
  representable (JDict ps) = true
  <-> NoDup ps.*1 ∧ Forall (fun kv => representable kv.2 = true) ps.
Proof.
  induction ps as [|[k x] ps IH]; [split; [by split; constructor | done]|].
  change (representable (JDict ((k, x) :: ps)))
    with (negb (has_key k ps) && representable x && representable (JDict ps)).
  rewrite !andb_true_iff, IH, negb_true_iff, has_key_elem, Forall_cons.
  cbn [fmap list_fmap fst snd]. rewrite NoDup_cons. tauto.
Qed.

Lemma finite_dict (ps : list (list N * json)) :
  finite (JDict ps) = true <-> Forall (fun kv => finite kv.2 = true) ps.
Proof.
  induction ps as [|[k x] ps IH]; [done|].
  change (finite (JDict ((k, x) :: ps))) with (finite x && finite (JDict ps)).
  rewrite andb_true_iff, IH, Forall_cons. done.
Qed.

Lemma sound_list (vs : list json) : Forall sound vs -> sound (JList vs).
Proof.
  intros Hvs. unfold sound. rewrite finite_list, representable_list.
  induction Hvs as [|x xs Hx _ IH]; [done|].
  intros [F1 F2]%Forall_cons. constructor; [by apply Hx | by apply IH].
Qed.

Lemma sound_dict (ps : list (list N * json)) :
  NoDup ps.*1 -> Forall (fun kv => sound kv.2) ps -> sound (JDict ps).
Proof.
  intros Hnd Hps. unfold sound. rewrite finite_dict, representable_dict.
  intros Hf. split; [done|]. clear Hnd.
  induction Hps as [|x xs Hx _ IH]; [done|].
  apply Forall_cons in Hf as [F1 F2]. constructor; [by apply Hx | by apply IH].
Qed.

Lemma dict_set_keys (k : list N) (v : json) (ps : list (list N * json)) :
  (Json.dict_set k v ps).*1 = if decide (k ∈ ps.*1) then ps.*1 else ps.*1 ++ [k].
Proof.
  induction ps as [|[k' v'] ps IH]; [done|].
  cbn [Json.dict_set fmap list_fmap fst].
  destruct (decide (k = k')) as [->|Hne].
  - rewrite decide_True by apply list_elem_of_here. done.
  - cbn [fmap list_fmap fst]. change (list_fmap _ _ fst ?l) with (l.*1). rewrite IH.
    destruct (decide (k ∈ ps.*1)) as [Hin|Hnin].
    + rewrite decide_True by (by apply list_elem_of_further). done.
    + rewrite decide_False by (by apply not_elem_of_cons). done.
Qed.

Lemma dict_set_NoDup (k : list N) (v : json) (ps : list (list N * json)) :
  NoDup ps.*1 -> NoDup (Json.dict_set k v ps).*1.
Proof.
  intros Hnd. rewrite dict_set_keys. destruct (decide (k ∈ ps.*1)); [done|].
  apply NoDup_app. split; [done|]. split; [|apply NoDup_singleton].
  intros x Hx ->%list_elem_of_singleton. done.
Qed.

Lemma dict_set_values (Q : json -> Prop) (k : list N) (v : json)
    (ps : list (list N * json)) :
  Q v -> Forall (fun kv => Q kv.2) ps ->
  Forall (fun kv => Q kv.2) (Json.dict_set k v ps).
Proof.
  intros Hv. induction 1 as [|[k' v'] ps Hx Hps IH]; cbn [Json.dict_set].
  - constructor; [exact Hv | constructor].
  - destruct (decide (k = k')); constructor; done.
Qed.

Lemma dict_of_sound (kvs : list (list N * json)) :
  Forall (fun kv => sound kv.2) kvs -> sound (JDict (Json.dict_of kvs)).
Proof.
  intros Hkvs. unfold Json.dict_of.
  enough (∀ acc, NoDup acc.*1 -> Forall (fun kv => sound kv.2) acc ->
            let d := foldl (fun d kv => Json.dict_set kv.1 kv.2 d) acc kvs in
            NoDup d.*1 ∧ Forall (fun kv => sound kv.2) d) as H.
  { destruct (H [] (NoDup_nil_2) (Forall_nil_2 _)) as [H1 H2]. by apply sound_dict. }
  induction Hkvs as [|[k v] kvs Hv _ IH]; intros acc Hnd Hacc; [done|].
  cbn [foldl]. apply IH; [by apply dict_set_NoDup | by apply dict_set_values].
Qed.

Lemma scan_plain_sound (s : list N) (v : json) (r : list N) :
  Json.scan_plain s = Ok (v, r) -> sound v.
Proof.
  unfold Json.scan_plain.
  destruct (match s with [] => None | _ => _ end) as [[v' r']|] eqn:E.
  - intros [= <- <-]. destruct s as [|c s']; [done|].
    unfold Json.constant in E.
    repeat match type of E with
           | (if ?b then _ else _) = _ => destruct b
           end; by inversion E.
  - destruct (Json.match_number s) as [[v' r']|] eqn:Hm; [|done].
    destruct (match_number_token _ _ _ Hm) as [[z ->] | (tok & -> & Hok & _)].
    + destruct (Json.int_allowed z) eqn:Hz; [|done]. intros [= <- <-] _. exact Hz.
    + intros [= <- <-] _. exact Hok.
Qed.

Lemma scan_sound (fuel : nat) :
  (∀ s v r, Json.scan_once fuel s = Ok (v, r) -> sound v)
  ∧ (∀ s vs r, Json.array_loop fuel s = Ok (vs, r) -> Forall sound vs)
  ∧ (∀ s kvs r, Json.object_loop fuel s = Ok (kvs, r) ->
       Forall (fun kv => sound kv.2) kvs).
Proof.
  induction fuel as [|fuel (IH1 & IH2 & IH3)]; [done|].
  split; [|split].
  - intros s v r. cbn [Json.scan_once]. destruct s as [|c s']; [done|].
    destruct (c =? 34).
    { destruct (Json.scanstring s') as [[t r0]|e]; [|done]. by intros [= <- <-]. }
    destruct (c =? 123).
    { destruct (Json.skip_ws s') as [|c1 r1]; [done|].
      destruct (c1 =? 125); [by intros [= <- <-]|].
      destruct (Json.object_loop fuel (c1 :: r1)) as [[kvs r0]|e] eqn:E; [|done].
      intros [= <- <-]. apply dict_of_sound. by eapply IH3. }
    destruct (c =? 91).
    { destruct (Json.skip_ws s') as [|c1 r1]; [done|].
      destruct (c1 =? 93); [by intros [= <- <-]|].
      destruct (Json.array_loop fuel (c1 :: r1)) as [[vs r0]|e] eqn:E; [|done].
      intros [= <- <-]. apply sound_list. by eapply IH2. }
    apply scan_plain_sound.
  - intros s vs r. cbn [Json.array_loop].
    destruct (Json.scan_once fuel s) as [[v r0]|e] eqn:E; [|done].
    cbn [mbind result_bind]. apply IH1 in E.
    destruct (Json.skip_ws r0) as [|c r']; [done|].
    destruct (c =? 93); [intros [= <- <-]; by repeat constructor|].
    destruct (c =? 44); [|done].
    destruct (Json.array_loop fuel (Json.skip_ws r')) as [[vs' r'']|e] eqn:E2; [|done].
    intros [= <- <-]. constructor; [done | by eapply IH2].
  - intros s kvs r. cbn [Json.object_loop].
    destruct s as [|q s1]; [done|]. destruct (q =? 34); [|done].
    destruct (Json.scanstring s1) as [[k r0]|e]; [|done]. cbn [mbind result_bind].
    destruct (Json.skip_ws r0) as [|c r1]; [done|].
    destruct (c =? 58); [|done].
    destruct (Json.scan_once fuel (Json.skip_ws r1)) as [[v r2]|e] eqn:E; [|done].
    cbn [mbind result_bind]. apply IH1 in E.
    destruct (Json.skip_ws r2) as [|c2 r3]; [done|].
    destruct (c2 =? 125); [intros [= <- <-]; by repeat constructor|].
    destruct (c2 =? 44); [|done].
    destruct (Json.object_loop fuel (Json.skip_ws r3)) as [[kvs' r4]|e] eqn:E2; [|done].
    intros [= <- <-]. constructor; [done | by eapply IH3].
Qed.

Lemma loads_sound (s : list N) (v : json) : Json.loads s = Ok v -> sound v.
Proof.
  unfold Json.loads. destruct (Py.startswith [65279] s); [done|].
  destruct (Json.scan_once _ _) as [[v' r]|e] eqn:E; [|done]. cbn [mbind result_bind].
  destruct (Json.skip_ws r); [|done]. intros [= <-].
  by eapply (proj1 (scan_sound _)).
Qed.

(** ** A serialization without indent is one line *)

Lemma uint_chars_printable (d : Decimal.uint) :
  Forall (fun c => printable c = true) (Py.uint_chars d).
Proof. induction d; cbn [Py.uint_chars]; by constructor. Qed.

Lemma str_of_Z_printable (z : Z) :
  Forall (fun c => printable c = true) (Py.str_of_Z z).
Proof.
  destruct z; unfold Py.str_of_Z, Py.str_of_N;
    repeat constructor; apply uint_chars_printable.
Qed.

Lemma hex_digit_printable (n : N) : printable (Json.hex_digit n) = true.
Proof.
  unfold printable, Json.hex_digit. destruct (n <? 10); apply N.leb_le; lia.
Qed.

Lemma escape_char_printable (c : N) :
  Forall (fun c => printable c = true) (Json.escape_char c).
Proof.
  unfold Json.escape_char.
  repeat match goal with
         | |- context [if ?b then _ else _] => destruct b eqn:?
         end; repeat constructor; try apply hex_digit_printable.
  unfold printable. apply N.leb_le. apply N.ltb_ge. done.
Qed.

Lemma encode_basestring_printable (s : list N) :
  Forall (fun c => printable c = true) (Json.encode_basestring s).
Proof.
  unfold Json.encode_basestring. constructor; [done|].
  apply Forall_app_2; [|by repeat constructor].
  induction s as [|c s IH]; [constructor|].
  cbn [fmap list_fmap concat]. apply Forall_app_2; [apply escape_char_printable | exact IH].
Qed.

Lemma number_char_printable (c : N) : number_char c = true -> printable c = true.
Proof.
  unfold number_char, printable, Json.is_digit. intros H.
  rewrite ?orb_true_iff, ?andb_true_iff, ?N.leb_le, ?N.eqb_eq in H.
  apply N.leb_le. lia.
Qed.

Lemma float_ok_chars (tok : list N) :
  float_ok (FLit tok) = true -> Forall (fun c => number_char c = true) tok.
Proof.
  unfold float_ok.
  destruct (Json.match_number (tok ++ [44])) as [[v r]|] eqn:E; [|done].
  destruct (match_number_token _ _ _ E) as [[z ->] | (t & -> & _ & Ht)]; [done|].
  intros [H _]%andb_true_iff. apply bool_decide_eq_true in H. by subst t.
Qed.

Lemma iterencode_printable (v : json) :
  representable v = true ->
  ∀ level, Forall (fun c => printable c = true) (Json.iterencode None level v).
Proof.
  induction v as [|b|z|f|s|xs IH|ps IH] using json_nested_ind; intros Hv level.
  - by repeat constructor.
  - destruct b; by repeat constructor.
  - apply str_of_Z_printable.
  - destruct f as [| |tok]; try done. cbn [Json.iterencode Json.floatstr].
    eapply Forall_impl; [by apply float_ok_chars | apply number_char_printable].
  - apply encode_basestring_printable.
  - destruct xs as [|x xs]; [by repeat constructor|].
    rewrite iterencode_list. cbn [Json.newline_indent app].
    apply representable_list in Hv. apply Forall_cons in Hv as [Hx Hxs].
    apply Forall_cons in IH as [IHx IHxs].
    constructor; [done|]. apply Forall_app_2; [by apply IHx|].
    apply Forall_app_2; [|by repeat constructor].
    clear x Hx IHx. induction xs as [|y xs IHl]; [constructor|].
    apply Forall_cons in Hxs as [Hy Hxs]. apply Forall_cons in IHxs as [IHy IHxs].
    cbn [list_tail Json.item_separator]. apply Forall_app_2; [by repeat constructor|].
    apply Forall_app_2; [by apply IHy | by apply IHl].
  - destruct ps as [|[k x] ps]; [by repeat constructor|].
    rewrite iterencode_dict. cbn [Json.newline_indent app].
    apply representable_dict in Hv as [_ Hv]. apply Forall_cons in Hv as [Hx Hxs].
    apply Forall_cons in IH as [IHx IHxs].
    constructor; [done|]. apply Forall_app_2; [apply encode_basestring_printable|].
    apply Forall_app_2; [by repeat constructor|].
    apply Forall_app_2; [by apply IHx|].
    apply Forall_app_2; [|by repeat constructor].
    clear k x Hx IHx. induction ps as [|[k y] ps IHl]; [constructor|].
    apply Forall_cons in Hxs as [Hy Hxs]. apply Forall_cons in IHxs as [IHy IHxs].
    cbn [dict_tail Json.item_separator]. apply Forall_app_2; [by repeat constructor|].
    apply Forall_app_2; [apply encode_basestring_printable|].
    apply Forall_app_2; [by repeat constructor|].
    apply Forall_app_2; [by apply IHy | by apply IHl].
Qed.

Lemma lookup_representable (k : list N) (ps : list (list N * json)) :
  representable (JDict ps) = true ->
  representable (default JNull (Json.lookup k ps)) = true.
Proof.
  intros [_ H]%representable_dict.
  induction H as [|[k' v] ps Hv _ IH]; [done|].
  cbn [Json.lookup]. by destruct (decide (k = k')).
Qed.

Lemma decode_b64_json_sound (b64 : list N) (v : json) :
  decode_b64_json b64 = Ok v -> sound v.
Proof.
  unfold decode_b64_json.
  destruct (Base64.b64decode b64) as [raw|e]; [|done]. cbn [mbind result_bind].
  destruct (Utf8.decode raw) as [txt|e]; [|done]. cbn [mbind result_bind].
  apply loads_sound.
Qed.

(** X16: what [decode_b64_json] returns can be read back once it is saved:
    for a record without [NaN] and infinities, nested no deeper than the
    interpreter follows, whenever [atomic_write_json] returns, the text it
    leaves under the final name parses to the record itself; and it does
    return when the text of the record can be encoded and the disk takes
    the two steps.  (Keys sent twice are no obstacle: the decoded record
    holds each of them once.  A string with a lone surrogate is one: its
    text cannot be encoded.) *)
Theorem saved_record_reads_back (b64 : str) (decoded : json) (path : str)
    (s : state) :
  decode_b64_json b64 = Ok decoded -> finite decoded = true -> shallow decoded ->
  representable decoded = true
  ∧ (∀ w r, (atomic_write_json w r path decoded s).2 = Ok tt ->
       Json.loads <$> (fs (atomic_write_json w r path decoded s).1 !! path)
       = Some (Ok decoded))
  ∧ (encodable (Json.dumps (Some 2%nat) decoded) ->
       (atomic_write_json Written None path decoded s).2 = Ok tt).
Proof.
  intros Hd Hf _. pose proof (decode_b64_json_sound _ _ Hd Hf) as Hrep.
  split; [done|]. split.
  - intros w r. rewrite atomic_write_json_run. cbv zeta.
    destruct (met w _); [destruct r|..]; try discriminate.
    intros _. cbn [fst fs set_fs]. unfold written. rewrite lookup_insert_eq.
    cbn [fmap option_fmap option_map]. by rewrite loads_dumps.
  - intros Henc. rewrite atomic_write_json_run. cbv zeta.
    by rewrite (met_encodable _ _ Henc).
Qed.

Lemma saved_record_reads_back_witness :
  let b64 := lit "eyJhIjogMSwgImIiOiBbMi41LCBudWxsXSwgImEiOiAieCJ9" in
  let decoded := JDict [(lit "a", JStr (lit "x"));
                        (lit "b", JList [JFloat (FLit (lit "2.5")); JNull])] in
  decode_b64_json b64 = Ok decoded
  ∧ shallow decoded
  ∧ Json.loads <$> (fs (atomic_write_json Written None (lit "P1.json") decoded
                          Sample.started).1 !! lit "P1.json")
    = Some (Ok decoded).
Proof.
  intros b64 decoded.
  assert (decode_b64_json b64 = Ok decoded) as H by (vm_compute; reflexivity).
  assert (shallow decoded) as Hs by (vm_compute; lia).
  split; [exact H|]. split; [exact Hs|].
  destruct (saved_record_reads_back b64 decoded (lit "P1.json") Sample.started
              H eq_refl Hs) as (_ & H1 & H2).
  apply H1. apply H2. eexists. vm_compute. reflexivity.
Defined.

(** X17: an entry of the index is one line of JSON.  For a record from
    [decode_b64_json] without [NaN] and infinities, an [append_index] that
    returns has appended a text with no character below U+0020 (so without
    a line end inside) followed by one line feed, and the text parses to
    the five fields of the entry, the two taken from the record being
    [None] when the record lacks them. *)
Theorem index_entry_is_one_json_line (w : write_outcome)
    (now pid_uuid filename b64 : str) (d : list (str * json)) (s : state) :
  decode_b64_json b64 = Ok (JDict d) -> finite (JDict d) = true ->
  (append_index w now pid_uuid (JDict d) filename s).2 = Ok tt ->
  let s' := (append_index w now pid_uuid (JDict d) filename s).1 in
  ∃ body,
    content (fs s') INDEX_PATH = content (fs s) INDEX_PATH ++ body ++ [10]
    ∧ Forall (fun c => printable c = true) body
    ∧ Json.loads body
      = Ok (JDict [(lit "ts", JStr (now ++ lit "Z"));
                   (lit "pid_uuid", JStr pid_uuid);
                   (lit "polymer_id", default JNull (Json.lookup (lit "polymer_id") d));
                   (lit "polymer_uuid", default JNull (Json.lookup (lit "polymer_uuid") d));
                   (lit "filename", JStr filename)]).
Proof.
  intros Hd Hf. pose proof (decode_b64_json_sound _ _ Hd Hf) as Hrep.
  rewrite append_index_run. cbv zeta.
  destruct (met w _); cbn [fst snd]; [|discriminate|discriminate].
  intros _. cbn [fst fs set_fs]. unfold appended, content.
  rewrite lookup_insert_eq. cbn [default]. unfold index_line. cbn [Json.get].
  set (rec := JDict _).
  assert (representable rec = true) as Hrec.
  { subst rec. apply representable_dict. split.
    - apply (bool_decide_unpack _). by vm_compute.
    - repeat constructor; cbn [snd]; by apply lookup_representable. }
  exists (Json.dumps None rec). split; [done|]. split.
  - by apply iterencode_printable.
  - by apply loads_dumps.
Qed.

Lemma index_entry_is_one_json_line_witness :
  let b64 := lit "eyJhIjogMSwgImIiOiBbMi41LCBudWxsXSwgImEiOiAieCJ9" in
  ∃ body,
    content (fs (append_index Written (lit "2024-01-02T03:04:05") (lit "id2")
                   (JDict [(lit "a", JStr (lit "x"));
                           (lit "b", JList [JFloat (FLit (lit "2.5")); JNull])])
                   (lit "P1.json") Sample.started).1) INDEX_PATH
    = content (fs Sample.started) INDEX_PATH ++ body ++ [10]
    ∧ Forall (fun c => printable c = true) body.
Proof.
  intros b64.
  destruct (index_entry_is_one_json_line Written (lit "2024-01-02T03:04:05") (lit "id2")
              (lit "P1.json") b64
              [(lit "a", JStr (lit "x"));
               (lit "b", JList [JFloat (FLit (lit "2.5")); JNull])]
              Sample.started) as (body & H1 & H2 & _).
  - vm_compute. reflexivity.
  - reflexivity.
  - vm_compute. reflexivity.
  - exists body. split; [exact H1 | exact H2].
Defined.

(** ** Reading the queue *)

Lemma lines_from_shape (cur s : list N) :
  Forall (fun c => inline c = true) cur ->
  Forall (fun x => ∃ body, (x = body ++ [10] ∨ x = body)
                           ∧ Forall (fun c => inline c = true) body)
         (lines_from cur s).
Proof.
  remember (length s) as n eqn:Hn. assert (length s <= n)%nat as Hlen by lia.
  clear Hn. revert s cur Hlen. induction n as [|n IH]; intros s cur Hlen Hcur.
  { destruct s; [|cbn in Hlen; lia]. cbn [lines_from].
    destruct (Py.nonempty cur); repeat constructor. eauto. }
  destruct s as [|c s']; cbn [lines_from].
  { destruct (Py.nonempty cur); repeat constructor. eauto. }
  cbn [length] in Hlen. destruct (c =? 10) eqn:E10.
  { constructor; [eauto|]. apply IH; [lia | constructor]. }
  destruct (c =? 13) eqn:E13.
  { destruct s' as [|c' s'']; [repeat constructor; eauto|]. cbn [length] in Hlen.
    destruct (c' =? 10); (constructor; [eauto|]); apply IH;
      cbn [length]; try lia; constructor. }
  apply IH; [lia|].
  apply Forall_app_2; [done|]. repeat constructor. unfold inline. by rewrite E10, E13.
Qed.

Lemma lstrip_Forall (P : N -> Prop) (s : list N) : Forall P s -> Forall P (Py.lstrip s).
Proof.
  induction 1 as [|c s Hc Hs IH]; [constructor|]. cbn [Py.lstrip].
  destruct (Py.isspace c); [done | by constructor].
Qed.

Lemma strip_Forall (P : N -> Prop) (s : list N) : Forall P s -> Forall P (Py.strip s).
Proof.
  intros H. unfold Py.strip, Py.rstrip.
  apply Forall_reverse, lstrip_Forall, Forall_reverse, lstrip_Forall, H.
Qed.

Lemma lstrip_head (s : list N) :
  match Py.lstrip s with
  | c :: _ => Py.isspace c = false
  | [] => True
  end.
Proof.
  induction s as [|c s IH]; [done|]. cbn [Py.lstrip].
  by destruct (Py.isspace c) eqn:E.
Qed.

Lemma lstrip_fixed (s : list N) :
  match s with c :: _ => Py.isspace c = false | [] => True end -> Py.lstrip s = s.
Proof. destruct s as [|c s]; [done|]. cbn [Py.lstrip]. by intros ->. Qed.

Lemma lstrip_lstrip (s : list N) : Py.lstrip (Py.lstrip s) = Py.lstrip s.
Proof. apply lstrip_fixed, lstrip_head. Qed.

Lemma rstrip_rstrip (s : list N) : Py.rstrip (Py.rstrip s) = Py.rstrip s.
Proof. unfold Py.rstrip. by rewrite reverse_involutive, lstrip_lstrip. Qed.

(** Stripping on the right takes a suffix of white space away. *)
Lemma lstrip_suffix (s : list N) : ∃ ws, s = ws ++ Py.lstrip s.
Proof.
  induction s as [|c s [ws IH]]; [by exists []|]. cbn [Py.lstrip].
  destruct (Py.isspace c); [|by exists []].
  exists (c :: ws). cbn [app]. by rewrite <- IH.
Qed.

Lemma rstrip_prefix (s : list N) : ∃ ws, s = Py.rstrip s ++ ws.
Proof.
  unfold Py.rstrip. destruct (lstrip_suffix (reverse s)) as [ws E].
  exists (reverse ws). rewrite <- reverse_app, <- E. by rewrite reverse_involutive.
Qed.

Lemma lstrip_rstrip (s : list N) :
  match s with c :: _ => Py.isspace c = false | [] => True end ->
  Py.lstrip (Py.rstrip s) = Py.rstrip s.
Proof.
  intros Hs. apply lstrip_fixed. destruct (rstrip_prefix s) as [ws E].
  destruct (Py.rstrip s) as [|c t]; [done|]. rewrite E in Hs. exact Hs.
Qed.

Lemma strip_strip (s : list N) : Py.strip (Py.strip s) = Py.strip s.
Proof.
  unfold Py.strip. rewrite (lstrip_rstrip (Py.lstrip s)) by apply lstrip_head.
  apply rstrip_rstrip.
Qed.

Lemma rstrip_line_end (s : list N) : Py.rstrip (s ++ [10]) = Py.rstrip s.
Proof. unfold Py.rstrip. by rewrite reverse_app. Qed.

Lemma lstrip_app (s t : list N) :
  Py.lstrip s ≠ [] -> Py.lstrip (s ++ t) = Py.lstrip s ++ t.
Proof.
  induction s as [|c s IH]; [done|]. cbn [Py.lstrip app].
  destruct (Py.isspace c); [exact IH | done].
Qed.

Lemma lstrip_spaces (s t : list N) :
  Py.lstrip s = [] -> Py.lstrip (s ++ t) = Py.lstrip t.
Proof.
  induction s as [|c s IH]; [done|]. cbn [Py.lstrip app].
  destruct (Py.isspace c); [exact IH | done].
Qed.

Lemma strip_line_end (s : list N) : Py.strip (s ++ [10]) = Py.strip s.
Proof.
  unfold Py.strip. destruct (Py.lstrip s) as [|c t] eqn:E.
  - by rewrite lstrip_spaces.
  - rewrite lstrip_app by (by rewrite E). rewrite E. apply rstrip_line_end.
Qed.

(** X18: the queue [main] is given holds identifiers only: no entry is empty,
    none has white space around it, none has a line feed or a carriage
    return inside.  Blank
    lines of the file give no entry. *)
Theorem read_pids_gives_queue_items (text : str) :
  Forall queue_item (read_pids text).
Proof.
  unfold read_pids. apply Forall_fmap, Forall_forall. intros x Hx.
  apply list_elem_of_filter in Hx as [Hne Hx].
  pose proof (lines_from_shape [] text (Forall_nil_2 _)) as Hl.
  rewrite Forall_forall in Hl. destruct (Hl x Hx) as (body & Hbody & Hin).
  split; [|split].
  - cbn. by destruct (Py.strip x).
  - apply strip_strip.
  - cbn. destruct Hbody as [-> | ->]; [rewrite strip_line_end|]; by apply strip_Forall.
Qed.

Lemma lines_from_item (cur p rest : list N) :
  Forall (fun c => inline c = true) p ->
  lines_from cur (p ++ 10 :: rest) = (cur ++ p ++ [10]) :: lines_from [] rest.
Proof.
  intros Hp. revert cur. induction Hp as [|c p Hc _ IH]; intros cur; cbn [app lines_from].
  - done.
  - unfold inline in Hc. apply andb_true_iff in Hc as [H1 H2].
    apply negb_true_iff in H1, H2. rewrite H1, H2, IH. by rewrite <- app_assoc.
Qed.

Lemma lines_from_items (pids : list (list N)) :
  Forall queue_item pids ->
  lines_from [] (concat ((fun p => p ++ [10]) <$> pids)) = (fun p => p ++ [10]) <$> pids.
Proof.
  induction 1 as [|p pids (_ & _ & Hp) _ IH]; [done|].
  cbn [fmap list_fmap concat]. rewrite <- app_assoc. cbn [app].
  rewrite lines_from_item by done. cbn [app]. by rewrite IH.
Qed.

(** X19: a file written with one identifier a line reads back as the list of
    those identifiers, in order. *)
Theorem read_pids_of_written_queue (pids : list str) :
  Forall queue_item pids ->
  read_pids (concat ((fun p => p ++ [10]) <$> pids)) = pids.
Proof.
  intros Hp. unfold read_pids. rewrite lines_from_items by done.
  induction Hp as [|p pids (Hne & Hs & Hin) _ IH]; [done|].
  cbn [fmap list_fmap]. rewrite filter_cons_True.
  - cbn [fmap list_fmap]. rewrite strip_line_end, Hs. f_equal. exact IH.
  - rewrite strip_line_end, Hs. by destruct p.
Qed.

Lemma read_pids_of_written_queue_witness :
  read_pids (lit "id1" ++ [10] ++ lit "a b" ++ [10]) = [lit "id1"; lit "a b"].
Proof.
  apply (read_pids_of_written_queue [lit "id1"; lit "a b"]).
  repeat constructor; try discriminate.
Defined.

(** ** The loaders stop at the first file that fails *)

Lemma for_each_raise (f : N -> result json) (numbers : list N) (poly : list json)
    (e : exn) :
  Loader.for_each f numbers poly = Raise e
  <-> ∃ k i, numbers !! k = Some i ∧ f i = Raise e
             ∧ ∀ m j, (m < k)%nat -> numbers !! m = Some j -> ∃ x, f j = Ok x.
Proof.
  revert poly. induction numbers as [|i numbers IH]; intros poly; cbn [Loader.for_each].
  - split; [done|]. by intros (k & i & H & _).
  - destruct (f i) as [x|e'] eqn:E; cbn [mbind result_bind].
    + rewrite IH. split.
      * intros (k & i' & Hk & Hi & Hbefore). exists (S k), i'.
        split; [done|]. split; [done|]. intros [|m] j Hm Hj.
        -- injection Hj as <-. eauto.
        -- apply (Hbefore m j); [lia | done].
      * intros (k & i' & Hk & Hi & Hbefore). destruct k as [|k].
        -- injection Hk as <-. congruence.
        -- exists k, i'. split; [done|]. split; [done|]. intros m j Hm Hj.
           apply (Hbefore (S m) j); [lia | done].
    + split.
      * intros [= <-]. exists 0%nat, i. split; [done|]. split; [done|]. intros m j Hm. lia.
      * intros (k & i' & Hk & Hi & Hbefore). destruct k as [|k].
        -- injection Hk as <-. congruence.
        -- destruct (Hbefore 0%nat i) as [x Hx]; [lia | done | congruence].
Qed.

Lemma range_1_65_first_failure (f : N -> result json) (e : exn) :
  Loader.for_each f Loader.range_1_65 [] = Raise e <-> first_failure f e.
Proof.
  rewrite for_each_raise. unfold first_failure. split.
  - intros (k & i & Hk & Hi & Hbefore).
    assert (k < 64)%nat as Hlt.
    { apply lookup_lt_Some in Hk. unfold Loader.range_1_65 in Hk.
      by rewrite length_fmap, length_seq in Hk. }
    rewrite range_1_65_lookup in Hk by done. injection Hk as <-.
    exists (N.of_nat (S k)). split; [lia|]. split; [done|]. intros j Hj.
    apply (Hbefore (N.to_nat j - 1)%nat j); [lia|].
    rewrite range_1_65_lookup by lia. f_equal. lia.
  - intros (i & Hi & He & Hbefore). exists (N.to_nat i - 1)%nat, i.
    split; [rewrite range_1_65_lookup by lia; f_equal; lia|]. split; [done|].
    intros m j Hm Hj. rewrite range_1_65_lookup in Hj by lia. injection Hj as <-.
    apply Hbefore. lia.
Qed.

(** X20: the loaders stop at the first file that fails.  [load_poly] and
    [load_poly_lvl1] raise [e] exactly when, in the order 1 to 64, some file
    cannot be read, decoded or lacks the field -- with [e] -- while every
    file before it gave its entry. *)
Theorem loaders_stop_at_first_bad_file (read : str -> result str) (e : exn) :
  (Loader.load_poly read = Raise e
   <-> first_failure (entry_of (lit "./data/b64_") read) e)
  ∧ (Loader.load_poly_lvl1 read = Raise e
     <-> first_failure (entry_of (lit "../data/lvl1_b64/b64_") read) e).
Proof.
  split.
  - exact (range_1_65_first_failure (entry_of (lit "./data/b64_") read) e).
  - exact (range_1_65_first_failure (entry_of (lit "../data/lvl1_b64/b64_") read) e).
Qed.

(** ** A queue that is done *)

Lemma loop_finished (exn_text : exn -> list N) (fuel : nat) (pids : list (list N))
    (ts : list turn) (s : state) :
  (∀ pid, pid ∈ pids -> exists_ (fs s) (pointer_path pid) = true) ->
  (idx s <= length pids)%nat -> (length pids - idx s < fuel)%nat ->
  loop exn_text fuel pids ts s = (set_idx (length pids) s, Finished).
Proof.
  revert s. induction fuel as [|fuel IH]; intros s Hall Hle Hfuel; [lia|].
  cbn [loop]. destruct (pids !! idx s) as [pid|] eqn:E.
  - rewrite (Hall pid) by (apply list_elem_of_lookup; eauto).
    apply lookup_lt_Some in E. rewrite IH; [done | done | cbn; lia | cbn; lia].
  - apply lookup_ge_None in E. assert (idx s = length pids) as <- by lia.
    by destruct s.
Qed.

(** X21: a run over a queue that is done does nothing.  When every
    identifier of the queue has its pointer file, [main] takes no turn:
    it asks for no token and no command, sends no request, and leaves the
    directory as it found it but for the error log, which it empties; and
    it ends by itself, at the end of the queue.  When the write that
    empties the log fails, [main] ends there by that exception, with no
    turn taken either and no other file touched. *)
Theorem finished_queue_needs_no_turn (exn_text : exn -> str) (pids : list str)
    (ts : list turn) (disk : files) :
  (∀ pid, pid ∈ pids -> exists_ disk (pointer_path pid) = true) ->
  main exn_text Written pids ts disk
  = (State (length pids) None (<[ERRORS_PATH := []]> disk) [WroteText ERRORS_PATH []],
     Finished)
  ∧ ∀ reset,
      trace (main exn_text reset pids ts disk).1 = [WroteText ERRORS_PATH []]
      ∧ (∀ q, q ≠ ERRORS_PATH -> fs (main exn_text reset pids ts disk).1 !! q = disk !! q)
      ∧ (reset ≠ Written -> ∃ e, (main exn_text reset pids ts disk).2 = Crashed e).
Proof.
  intros Hall.
  assert (main exn_text Written pids ts disk
          = (State (length pids) None (<[ERRORS_PATH := []]> disk)
               [WroteText ERRORS_PATH []], Finished)) as Hmain.
  { rewrite main_unfold. unfold run. rewrite loop_finished; [done| |cbn; lia..].
    intros pid Hpid. specialize (Hall pid Hpid). unfold exists_ in *. cbn [fs].
    rewrite lookup_insert_ne; [done|]. intros E. by apply (pointer_path_not_errors pid). }
  split; [exact Hmain|]. intros reset.
  destruct (main_cases exn_text reset pids ts disk)
    as [[-> _] | (e & Hr & He & T & _ & F)].
  - rewrite Hmain. cbn [fst snd trace fs]. split; [done|]. split; [|done].
    intros q Hq. by rewrite lookup_insert_ne.
  - split; [done|]. split; [|intros _; by exists e].
    intros q Hq. destruct F as [-> | ->]; [done | by rewrite lookup_insert_ne].
Qed.

Lemma finished_queue_needs_no_turn_witness :
  let disk : files := {[ pointer_path (lit "id1") := lit "{}";
                         pointer_path (lit "id2") := lit "{}";
                         ERRORS_PATH := lit "old" ]} in
  main Sample.plain Written [lit "id1"; lit "id2"]
    [Sample.fetching (Ok Sample.forbidden)] disk
  = (State 2 None (<[ERRORS_PATH := []]> disk) [WroteText ERRORS_PATH []], Finished).
Proof.
  intros disk.
  apply (finished_queue_needs_no_turn Sample.plain [lit "id1"; lit "id2"]
           [Sample.fetching (Ok Sample.forbidden)] disk).
  intros pid Hpid. apply list_elem_of_In in Hpid.
  destruct Hpid as [<- | [<- | []]]; vm_compute; reflexivity.
Defined.
